(** * PII redaction pipeline: position resolver, CSV/PDF redactors,
      text-span detectors and the shared-engine singleton.

    A shallow embedding of
      - maskers/image_masker.py        (ImageMasker.find_text_positions)
      - maskers/pdf_masker.py          (PDFMasker)
      - analyzers/csv_analyzer.py      (CSVAnalyzer)
      - analyzers/optimized_pdf_analyzer.py, optimized_image_analyzer.py
      - analyzers/singleton_analyzers.py

    Python [str] values are modelled as lists of code points restricted to
    the range U+0000..U+00FF (one [ascii] per code point); on that range
    [str.lower], [str.isspace], [str.strip] and [str.split] act exactly as
    written below.  Integers are [Z]. *)

From Stdlib Require Import List Bool Arith ZArith QArith Lia Ascii String
  DecimalString.
Close Scope Q_scope.
Import ListNotations.

Set Implicit Arguments.

(* ================================================================= *)
(** ** Python string primitives *)

Module PyStr.

Definition pystr := list ascii.

(** A literal. *)
Definition lit (s : string) : pystr := list_ascii_of_string s.

Definition ord (c : ascii) : nat := nat_of_ascii c.

(** [str.isspace] on one code point below U+0100: TAB, LF, VT, FF, CR,
    FS, GS, RS, US, SPACE, NEL and NBSP. *)
Definition isspace (c : ascii) : bool :=
  let n := ord c in
  ((9 <=? n) && (n <=? 13)) || ((28 <=? n) && (n <=? 32))
  || (n =? 133) || (n =? 160).

(** [str.lower] on one code point below U+0100: A-Z and the Latin-1 capitals
    U+00C0..U+00DE (the multiplication sign U+00D7 apart) move up by 32. *)
Definition isupper (c : ascii) : bool :=
  let n := ord c in
  ((65 <=? n) && (n <=? 90))
  || ((192 <=? n) && (n <=? 222) && negb (n =? 215)).

Definition lower_char (c : ascii) : ascii :=
  if isupper c then ascii_of_nat (ord c + 32) else c.

(** [str.lower] of a text of code points below U+0100, where it works
    character by character. *)
Definition lower (s : pystr) : pystr := map lower_char s.

(** [str.lstrip()], [str.rstrip()], [str.strip()] with no argument. *)
Fixpoint lstrip (s : pystr) : pystr :=
  match s with
  | c :: s' => if isspace c then lstrip s' else s
  | [] => []
  end.

Definition rstrip (s : pystr) : pystr := rev (lstrip (rev s)).

Definition strip (s : pystr) : pystr := rstrip (lstrip s).

(** Truthiness of a [str]: non-empty. *)
Definition truthy (s : pystr) : bool :=
  match s with [] => false | _ :: _ => true end.

Definition cons_nonempty (w : pystr) (ws : list pystr) : list pystr :=
  if truthy w then w :: ws else ws.

(** [fields s] scans [s] once and returns the run of non-space characters at
    its head (possibly empty) and the words after it. *)
Fixpoint fields (s : pystr) : pystr * list pystr :=
  match s with
  | [] => ([], [])
  | c :: s' =>
      let (w, ws) := fields s' in
      if isspace c then ([], cons_nonempty w ws) else (c :: w, ws)
  end.

(** [str.split()] with no argument: the maximal runs of non-space
    characters. *)
Definition split_ws (s : pystr) : list pystr :=
  let (w, ws) := fields s in cons_nonempty w ws.

(** [sep.join(parts)]. *)
Fixpoint join (sep : pystr) (parts : list pystr) : pystr :=
  match parts with
  | [] => []
  | [p] => p
  | p :: rest => p ++ sep ++ join sep rest
  end.

Fixpoint prefixb (a b : pystr) : bool :=
  match a, b with
  | [], _ => true
  | x :: a', y :: b' => Ascii.eqb x y && prefixb a' b'
  | _ :: _, [] => false
  end.

(** [a in b] for two strings. *)
Fixpoint contains (a b : pystr) : bool :=
  prefixb a b ||
  match b with
  | [] => false
  | _ :: b' => contains a b'
  end.

Definition add_to_head (c : ascii) (l : list pystr) : list pystr :=
  match l with
  | w :: ws => (c :: w) :: ws
  | [] => [[c]]
  end.

(** [u] put in front of the first field. *)
Definition prepend (u : pystr) (l : list pystr) : list pystr :=
  match l with
  | p :: ps => (u ++ p) :: ps
  | [] => [u]
  end.

(** [s.split(sep)] for a non-empty separator: leftmost, non-overlapping
    occurrences of [sep] end a field.  [skip] counts the characters of a
    separator found earlier that are still to be passed over. *)
Fixpoint split_from (sep : pystr) (skip : nat) (s : pystr) : list pystr :=
  match s with
  | [] => [[]]
  | c :: s' =>
      match skip with
      | S k => split_from sep k s'
      | O =>
          if prefixb sep s
          then [] :: split_from sep (List.length sep - 1) s'
          else add_to_head c (split_from sep 0 s')
      end
  end.

Definition split (sep s : pystr) : list pystr := split_from sep 0 s.

(** [s.replace(old, new)] for a non-empty [old]. *)
Definition replace (old new s : pystr) : pystr := join new (split old s).

(** The empty and the whitespace-only strings. *)
Definition blank (s : pystr) : bool := forallb isspace s.

(** Python slice [s[a:b]] with its treatment of negative and out-of-range
    bounds. *)
Definition clamp (len i : Z) : Z :=
  if (i <? 0)%Z then Z.max 0 (len + i) else Z.min i len.

Definition slice (s : pystr) (a b : Z) : pystr :=
  let len := Z.of_nat (List.length s) in
  let lo := clamp len a in
  let hi := clamp len b in
  firstn (Z.to_nat (hi - lo)) (skipn (Z.to_nat lo) s).

End PyStr.
Import PyStr.

(* ================================================================= *)
(** ** Exceptions and results *)

Inductive exn :=
| IndexError
| ValueError (msg : string)
| RuntimeError (msg : string)
| AttributeError (msg : string)
| TypeError
| EngineException (msg : string).

Inductive result (A : Type) :=
| Ok (a : A)
| Raise (e : exn).

Arguments Ok {A} a.
Arguments Raise {A} e.

(* ================================================================= *)
(** ** maskers/image_masker.py *)

Module ImageMasker.

(** The [Output.DICT] value of [pytesseract.image_to_data]: parallel lists
    under the keys ['text'], ['left'], ['top'], ['width'], ['height']. *)
Record OcrData := {
  text : list pystr;
  left : list Z;
  top : list Z;
  width : list Z;
  height : list Z
}.

(** One entry of the returned list: [{'x': x, 'y': y, 'width': w, 'height': h}]. *)
Record Box := { x : Z; y : Z; w : Z; h : Z }.

(** [lst[i]] for [0 <= i]. *)
Definition index {A} (l : list A) (i : nat) : result A :=
  match nth_error l i with
  | Some a => Ok a
  | None => Raise IndexError
  end.

(** [''.join(text_to_mask.split()).lower()] *)
Definition normalize_target (text_to_mask : pystr) : pystr :=
  lower (join [] (split_ws text_to_mask)).

(** The body of [for i in range(n_boxes)], run over the remaining indices
    with the list [positions] built so far. *)
Fixpoint positions_loop (ocr_data : OcrData) (normalized_target : pystr)
  (range : list nat) (positions : list Box) : result (list Box) :=
  match range with
  | [] => Ok positions
  | i :: range' =>
      match index (text ocr_data) i with
      | Raise e => Raise e
      | Ok t =>
          let word := strip t in
          if truthy word then
            let normalized_word := lower word in
            if contains normalized_word normalized_target
               || contains normalized_target normalized_word
            then
              match index (left ocr_data) i, index (top ocr_data) i,
                    index (width ocr_data) i, index (height ocr_data) i with
              | Ok x, Ok y, Ok w, Ok h =>
                  positions_loop ocr_data normalized_target range'
                    (positions ++ [{| x := x; y := y; w := w; h := h |}])
              | Raise e, _, _, _ => Raise e
              | _, Raise e, _, _ => Raise e
              | _, _, Raise e, _ => Raise e
              | _, _, _, Raise e => Raise e
              end
            else positions_loop ocr_data normalized_target range' positions
          else positions_loop ocr_data normalized_target range' positions
      end
  end.

Definition find_text_positions (ocr_data : OcrData) (text_to_mask : pystr)
  : result (list Box) :=
  let n_boxes := List.length (text ocr_data) in
  let normalized_target := normalize_target text_to_mask in
  positions_loop ocr_data normalized_target (seq 0 n_boxes) [].

(** An OCR word of the data model, and the [OcrData] that lists the words
    in reading order. *)
Record OCRWord := { word_text : pystr; word_box : Box }.

Definition ocr_of_words (ws : list OCRWord) : OcrData :=
  {| text := map word_text ws;
     left := map (fun wd => x (word_box wd)) ws;
     top := map (fun wd => y (word_box wd)) ws;
     width := map (fun wd => w (word_box wd)) ws;
     height := map (fun wd => h (word_box wd)) ws |}.

(** The test of the loop body on one word. *)
Definition word_matches (normalized_target : pystr) (wd : OCRWord) : bool :=
  let word := strip (word_text wd) in
  truthy word &&
  (contains (lower word) normalized_target
   || contains normalized_target (lower word)).

(** The containment test alone, without the guard [if word]. *)
Definition bidirectional (normalized_target : pystr) (wd : OCRWord) : bool :=
  let normalized_word := lower (strip (word_text wd)) in
  contains normalized_word normalized_target
  || contains normalized_target normalized_word.

(** [a] occurs in [b] as a contiguous run. *)
Definition Substring (a b : pystr) : Prop :=
  exists l r, b = l ++ a ++ r.

(** The rectangle that [create_masked_image] fills for one position:
    [[x1-padding, y1-padding, x2+padding, y2+padding]] with [padding = 2]. *)
Definition mask_rectangle (pos : Box) : Z * Z * Z * Z :=
  let x1 := x pos in
  let y1 := y pos in
  let x2 := (x1 + w pos)%Z in
  let y2 := (y1 + h pos)%Z in
  let padding := 2%Z in
  ((x1 - padding)%Z, (y1 - padding)%Z, (x2 + padding)%Z, (y2 + padding)%Z).

End ImageMasker.

(* ================================================================= *)
(** ** External engines and the effects of a call *)

(** [presidio_analyzer.RecognizerResult]. *)
Record RecognizerResult := {
  r_entity_type : pystr;
  r_start : Z;
  r_end : Z;
  r_score : Q
}.

(** The external detection engine: [analyze(text, language, entities,
    score_threshold)] returns results or raises. *)
Record AnalyzerEngine := {
  analyze : pystr -> pystr -> option (list pystr) -> option Q ->
            result (list RecognizerResult)
}.

(** The external anonymization engine: [anonymize(text, analyzer_results)]
    returns the anonymized text ([.text] of its result) or raises. *)
Record AnonymizerEngine := {
  anonymize : pystr -> list RecognizerResult -> result pystr
}.

(** A generator state of numpy, encoded as a number. *)
Definition RandomState := N.

(** What numpy supplies to [DataFrame.sample]: the generator seeded with an
    integer, and the choice of [n] row positions out of [len] without
    replacement, which also advances the generator. *)
Record Numpy := {
  seeded : Z -> RandomState;
  choice : RandomState -> nat -> nat -> list nat * RandomState
}.

(** Calls made to the external engines, oldest first. *)
Inductive call :=
| CallAnalyze (text : pystr)
| CallAnonymize (text : pystr).

(** The attributes that [AnalyzerSingleton.__init__] gives an instance; an
    attribute is missing ([None]), holds Python's [None] ([Some None]) or an
    engine. *)
Record Instance := {
  analyzer_engine : option (option AnalyzerEngine);
  anonymizer_engine : option (option AnonymizerEngine)
}.

(** The part of the process state that the modelled code can touch: the
    calls made so far, numpy's global generator, the [AnalyzerSingleton]
    objects allocated so far (addressed by position), the class attributes
    [_instance] and [_initialized], the module global [_singleton_instance]
    and the number of times the engines were loaded. *)
Record world := {
  calls : list call;
  np_global : RandomState;
  heap : list Instance;
  cls_instance : option nat;
  cls_initialized : bool;
  singleton_instance : option nat;
  loads : nat
}.

Definition log (c : call) (wd : world) : world :=
  {| calls := calls wd ++ [c]; np_global := np_global wd; heap := heap wd;
     cls_instance := cls_instance wd; cls_initialized := cls_initialized wd;
     singleton_instance := singleton_instance wd; loads := loads wd |}.

Definition set_np_global (g : RandomState) (wd : world) : world :=
  {| calls := calls wd; np_global := g; heap := heap wd;
     cls_instance := cls_instance wd; cls_initialized := cls_initialized wd;
     singleton_instance := singleton_instance wd; loads := loads wd |}.

Definition set_heap (hp : list Instance) (wd : world) : world :=
  {| calls := calls wd; np_global := np_global wd; heap := hp;
     cls_instance := cls_instance wd; cls_initialized := cls_initialized wd;
     singleton_instance := singleton_instance wd; loads := loads wd |}.

Definition set_cls_instance (o : option nat) (wd : world) : world :=
  {| calls := calls wd; np_global := np_global wd; heap := heap wd;
     cls_instance := o; cls_initialized := cls_initialized wd;
     singleton_instance := singleton_instance wd; loads := loads wd |}.

Definition set_cls_initialized (b : bool) (wd : world) : world :=
  {| calls := calls wd; np_global := np_global wd; heap := heap wd;
     cls_instance := cls_instance wd; cls_initialized := b;
     singleton_instance := singleton_instance wd; loads := loads wd |}.

Definition set_singleton_instance (o : option nat) (wd : world) : world :=
  {| calls := calls wd; np_global := np_global wd; heap := heap wd;
     cls_instance := cls_instance wd; cls_initialized := cls_initialized wd;
     singleton_instance := o; loads := loads wd |}.

Definition set_loads (n : nat) (wd : world) : world :=
  {| calls := calls wd; np_global := np_global wd; heap := heap wd;
     cls_instance := cls_instance wd; cls_initialized := cls_initialized wd;
     singleton_instance := singleton_instance wd; loads := n |}.

(** A process that has not imported anything yet. *)
Definition fresh_world (g : RandomState) : world :=
  {| calls := []; np_global := g; heap := []; cls_instance := None;
     cls_initialized := false; singleton_instance := None; loads := 0 |}.

(** Computations that read and change the world and may raise. *)
Definition M (A : Type) : Type := world -> result A * world.

Definition ret {A} (a : A) : M A := fun wd => (Ok a, wd).

Definition raise {A} (e : exn) : M A := fun wd => (Raise e, wd).

Definition bind {A B} (m : M A) (k : A -> M B) : M B :=
  fun wd =>
    match m wd with
    | (Ok a, wd') => k a wd'
    | (Raise e, wd') => (Raise e, wd')
    end.

Notation "x <- m ;; k" := (bind m (fun x => k))
  (at level 61, m at next level, right associativity).

Notation "m1 ;; m2" := (bind m1 (fun _ => m2))
  (at level 61, right associativity).

Definition get {A} (f : world -> A) : M A := fun wd => (Ok (f wd), wd).

Definition modify (f : world -> world) : M unit := fun wd => (Ok tt, f wd).

Definition lift {A} (r : result A) : M A := fun wd => (r, wd).

(** [self.analyzer.analyze(text=..., language=..., entities=...,
    score_threshold=...)] *)
Definition call_analyze (engine : AnalyzerEngine) (text language : pystr)
  (entities : option (list pystr)) (threshold : option Q)
  : M (list RecognizerResult) :=
  fun wd => (analyze engine text language entities threshold,
             log (CallAnalyze text) wd).

(** [self.anonymizer.anonymize(text=..., analyzer_results=...).text] *)
Definition call_anonymize (engine : AnonymizerEngine) (text : pystr)
  (analyzer_results : list RecognizerResult) : M pystr :=
  fun wd => (anonymize engine text analyzer_results,
             log (CallAnonymize text) wd).

(** The calls to the detection engine recorded in a log. *)
Definition analyze_calls (cs : list call) : list pystr :=
  flat_map (fun c => match c with CallAnalyze t => [t] | CallAnonymize _ => [] end) cs.

(** A finding as the analyzers return it: the dict with the keys
    ["entity_type"], ["text"], ["start"], ["end"], ["score"]. *)
Record Finding := {
  entity_type : pystr;
  f_text : pystr;
  f_start : Z;
  f_end : Z;
  score : Q
}.

(** The loop [for result in results: pii_findings.append({...})], the same in
    the three analyzers. *)
Definition to_findings (text : pystr) (results : list RecognizerResult)
  : list Finding :=
  map (fun r => {| entity_type := r_entity_type r;
                   f_text := slice text (r_start r) (r_end r);
                   f_start := r_start r;
                   f_end := r_end r;
                   score := r_score r |}) results.

(** The list comprehension that turns findings back into
    [RecognizerResult] objects. *)
Definition to_recognizer_results (pii_findings : list Finding)
  : list RecognizerResult :=
  map (fun f => {| r_entity_type := entity_type f;
                   r_start := f_start f;
                   r_end := f_end f;
                   r_score := score f |}) pii_findings.

Definition en : pystr := lit "en".

(* ================================================================= *)
(** ** analyzers/singleton_analyzers.py, one thread *)

Module AnalyzerSingleton.

(** The constructors [AnalyzerEngine()] and [AnonymizerEngine()] of the
    external library: what the [k]-th load of the process gets from them. *)
Record Presidio := {
  AnalyzerEngine_new : nat -> result AnalyzerEngine;
  AnonymizerEngine_new : nat -> result AnonymizerEngine
}.

Definition warmup_text : pystr := lit "John Doe john@example.com".

Definition not_initialized : exn := RuntimeError "AnalyzerEngine not initialized".

(** [super().__new__(cls)]: a new object without attributes. *)
Definition allocate : M nat :=
  fun wd =>
    (Ok (List.length (heap wd)),
     set_heap (heap wd ++ [{| analyzer_engine := None;
                              anonymizer_engine := None |}]) wd).

Fixpoint update_nth {A} (l : list A) (n : nat) (f : A -> A) : list A :=
  match l, n with
  | [], _ => []
  | a :: l', O => f a :: l'
  | a :: l', S n' => a :: update_nth l' n' f
  end.

(** [self._analyzer_engine = v] *)
Definition setattr_analyzer (o : nat) (v : option AnalyzerEngine) : M unit :=
  modify (fun wd => set_heap (update_nth (heap wd) o (fun inst =>
    {| analyzer_engine := Some v;
       anonymizer_engine := anonymizer_engine inst |})) wd).

(** [self._anonymizer_engine = v] *)
Definition setattr_anonymizer (o : nat) (v : option AnonymizerEngine) : M unit :=
  modify (fun wd => set_heap (update_nth (heap wd) o (fun inst =>
    {| analyzer_engine := analyzer_engine inst;
       anonymizer_engine := Some v |})) wd).

(** [__new__]: the value returned is whatever [cls._instance] holds at the
    end. *)
Definition dunder_new : M (option nat) :=
  inst <- get cls_instance ;;
  match inst with
  | None =>
      (* with cls._lock: *)
      inst' <- get cls_instance ;;
      match inst' with
      | None =>
          o <- allocate ;;
          modify (set_cls_instance (Some o))
      | Some _ => ret tt
      end
  | Some _ => ret tt
  end ;;
  get cls_instance.

(** [_load_engines]: the [except] clause prints and re-raises. *)
Definition load_engines (pr : Presidio) (o : nat) : M unit :=
  k <- get loads ;;
  modify (set_loads (S k)) ;;
  a <- lift (AnalyzerEngine_new pr k) ;;
  setattr_analyzer o (Some a) ;;
  z <- lift (AnonymizerEngine_new pr k) ;;
  setattr_anonymizer o (Some z) ;;
  test_results <- call_analyze a warmup_text en None None ;;
  ret tt.

(** [__init__] *)
Definition dunder_init (pr : Presidio) (o : nat) : M unit :=
  initialized <- get cls_initialized ;;
  if negb initialized then
    (* with AnalyzerSingleton._lock: *)
    initialized' <- get cls_initialized ;;
    if negb initialized' then
      setattr_analyzer o None ;;
      setattr_anonymizer o None ;;
      load_engines pr o ;;
      modify (set_cls_initialized true)
    else ret tt
  else ret tt.

(** The call [AnalyzerSingleton()]: [__new__], then [__init__] on what it
    returned. *)
Definition construct (pr : Presidio) : M (option nat) :=
  obj <- dunder_new ;;
  match obj with
  | Some o => dunder_init pr o ;; ret (Some o)
  | None => ret None
  end.

(** The property [analyzer]. *)
Definition analyzer (o : nat) : M AnalyzerEngine :=
  fun wd =>
    match nth_error (heap wd) o with
    | Some inst =>
        match analyzer_engine inst with
        | Some (Some e) => (Ok e, wd)
        | Some None => (Raise not_initialized, wd)
        | None => (Raise (AttributeError "_analyzer_engine"), wd)
        end
    | None => (Raise (AttributeError "_analyzer_engine"), wd)
    end.

(** The property [anonymizer]. *)
Definition anonymizer (o : nat) : M AnonymizerEngine :=
  fun wd =>
    match nth_error (heap wd) o with
    | Some inst =>
        match anonymizer_engine inst with
        | Some (Some e) => (Ok e, wd)
        | Some None => (Raise (RuntimeError "AnonymizerEngine not initialized"), wd)
        | None => (Raise (AttributeError "_anonymizer_engine"), wd)
        end
    | None => (Raise (AttributeError "_anonymizer_engine"), wd)
    end.

(** [get_analyzer_singleton] *)
Definition get_analyzer_singleton (pr : Presidio) : M (option nat) :=
  g <- get singleton_instance ;;
  match g with
  | None =>
      obj <- construct pr ;;
      modify (set_singleton_instance obj)
  | Some _ => ret tt
  end ;;
  get singleton_instance.

(** The three statements shared by [OptimizedPDFAnalyzer.__init__] and
    [OptimizedImageAnalyzer.__init__]: the singleton and its two engines. *)
Definition shared_engines (pr : Presidio)
  : M (AnalyzerEngine * AnonymizerEngine) :=
  singleton <- get_analyzer_singleton pr ;;
  match singleton with
  | Some o =>
      a <- analyzer o ;;
      z <- anonymizer o ;;
      ret (a, z)
  | None => raise (AttributeError "analyzer")
  end.

(** What the [k]-th load of the process comes to: the two engines, or the
    exception of the first step that raises (a constructor or the warm-up
    call). *)
Definition load_outcome (pr : Presidio) (k : nat)
  : result (AnalyzerEngine * AnonymizerEngine) :=
  match AnalyzerEngine_new pr k with
  | Raise e => Raise e
  | Ok a =>
      match AnonymizerEngine_new pr k with
      | Raise e => Raise e
      | Ok z =>
          match analyze a warmup_text en None None with
          | Raise e => Raise e
          | Ok _ => Ok (a, z)
          end
      end
  end.

(** Object [o] holds the engines [a] and [z], and [a] passes the warm-up
    call. *)
Definition ready (wd : world) (o : nat) (a : AnalyzerEngine)
  (z : AnonymizerEngine) : Prop :=
  nth_error (heap wd) o
  = Some {| analyzer_engine := Some (Some a);
            anonymizer_engine := Some (Some z) |} /\
  exists results, analyze a warmup_text en None None = Ok results.

(** The states that the module can be in between two calls. *)
Definition consistent (wd : world) : Prop :=
  (forall o, cls_instance wd = Some o -> o < List.length (heap wd)) /\
  (forall o, singleton_instance wd = Some o ->
     cls_instance wd = Some o /\ cls_initialized wd = true) /\
  (cls_initialized wd = true ->
     exists o a z, cls_instance wd = Some o /\ ready wd o a z).

End AnalyzerSingleton.

(* ================================================================= *)
(** ** analyzers/singleton_analyzers.py, several threads *)

Module Threads.

(** Where a thread stands in a call of [get_analyzer_singleton].  One step
    is one read or write of a shared variable, or one operation on the
    lock, which the interpreter runs without interruption. *)
Inductive pc :=
| Idle                        (* between calls *)
| GetCheck                    (* [if _singleton_instance is None] *)
| NewCheck                    (* [__new__]: [if cls._instance is None] *)
| NewAcquire                  (* [with cls._lock], about to enter *)
| NewRecheck                  (* inside: [if cls._instance is None] *)
| NewCreate                   (* inside: [cls._instance = super().__new__(cls)] *)
| NewRelease                  (* leaving the [with] block *)
| NewReturn                   (* [return cls._instance] *)
| InitCheck (self : nat)      (* [__init__]: [if not _initialized] *)
| InitAcquire (self : nat)    (* [with AnalyzerSingleton._lock], about to enter *)
| InitRecheck (self : nat)    (* inside: [if not _initialized] *)
| InitLoad (self : nat)       (* inside: the fields and [_load_engines()] *)
| InitSetFlag (self : nat)    (* inside: [_initialized = True] *)
| InitRelease (self : nat)    (* leaving the [with] block *)
| InitRaise                   (* leaving the [with] block and the call with
                                 the exception of a failed load *)
| GetAssign (obj : option nat) (* [_singleton_instance = AnalyzerSingleton()] *)
| GetReturn.                  (* [return _singleton_instance] *)

Record state := {
  instance_ : option nat;            (* [AnalyzerSingleton._instance] *)
  initialized : bool;                (* [AnalyzerSingleton._initialized] *)
  global_ : option nat;              (* [_singleton_instance] *)
  lock : option nat;                 (* the thread inside the lock *)
  allocated : nat;                   (* objects made by [super().__new__] *)
  returned : list (nat * option nat); (* thread and value of every return *)
  pcs : nat -> pc
}.

Definition init : state :=
  {| instance_ := None; initialized := false; global_ := None; lock := None;
     allocated := 0; returned := []; pcs := fun _ => Idle |}.

Definition upd (f : nat -> pc) (t : nat) (p : pc) : nat -> pc :=
  fun t' => if Nat.eqb t' t then p else f t'.

Definition goto (t : nat) (p : pc) (s : state) : state :=
  {| instance_ := instance_ s; initialized := initialized s;
     global_ := global_ s; lock := lock s; allocated := allocated s;
     returned := returned s; pcs := upd (pcs s) t p |}.

Definition set_lock (l : option nat) (s : state) : state :=
  {| instance_ := instance_ s; initialized := initialized s;
     global_ := global_ s; lock := l; allocated := allocated s;
     returned := returned s; pcs := pcs s |}.

Definition create (s : state) : state :=
  {| instance_ := Some (allocated s); initialized := initialized s;
     global_ := global_ s; lock := lock s; allocated := S (allocated s);
     returned := returned s; pcs := pcs s |}.

Definition set_initialized (s : state) : state :=
  {| instance_ := instance_ s; initialized := true;
     global_ := global_ s; lock := lock s; allocated := allocated s;
     returned := returned s; pcs := pcs s |}.

Definition set_global (obj : option nat) (s : state) : state :=
  {| instance_ := instance_ s; initialized := initialized s;
     global_ := obj; lock := lock s; allocated := allocated s;
     returned := returned s; pcs := pcs s |}.

Definition record_return (t : nat) (s : state) : state :=
  {| instance_ := instance_ s; initialized := initialized s;
     global_ := global_ s; lock := lock s; allocated := allocated s;
     returned := (t, global_ s) :: returned s; pcs := pcs s |}.

(** One step of thread [t]; [load_ok] tells whether a load that this step
    runs succeeds.  [None]: the thread waits for the lock. *)
Definition step (t : nat) (load_ok : bool) (s : state) : option state :=
  match pcs s t with
  | Idle => Some (goto t GetCheck s)
  | GetCheck =>
      match global_ s with
      | None => Some (goto t NewCheck s)
      | Some _ => Some (goto t GetReturn s)
      end
  | NewCheck =>
      match instance_ s with
      | None => Some (goto t NewAcquire s)
      | Some _ => Some (goto t NewReturn s)
      end
  | NewAcquire =>
      match lock s with
      | None => Some (goto t NewRecheck (set_lock (Some t) s))
      | Some _ => None
      end
  | NewRecheck =>
      match instance_ s with
      | None => Some (goto t NewCreate s)
      | Some _ => Some (goto t NewRelease s)
      end
  | NewCreate => Some (goto t NewRelease (create s))
  | NewRelease => Some (goto t NewReturn (set_lock None s))
  | NewReturn =>
      match instance_ s with
      | Some o => Some (goto t (InitCheck o) s)
      | None => Some (goto t (GetAssign None) s)
      end
  | InitCheck o =>
      if initialized s then Some (goto t (GetAssign (Some o)) s)
      else Some (goto t (InitAcquire o) s)
  | InitAcquire o =>
      match lock s with
      | None => Some (goto t (InitRecheck o) (set_lock (Some t) s))
      | Some _ => None
      end
  | InitRecheck o =>
      if initialized s then Some (goto t (InitRelease o) s)
      else Some (goto t (InitLoad o) s)
  | InitLoad o =>
      if load_ok then Some (goto t (InitSetFlag o) s)
      else Some (goto t InitRaise s)
  | InitSetFlag o => Some (goto t (InitRelease o) (set_initialized s))
  | InitRelease o => Some (goto t (GetAssign (Some o)) (set_lock None s))
  | InitRaise => Some (goto t Idle (set_lock None s))
  | GetAssign obj => Some (goto t GetReturn (set_global obj s))
  | GetReturn => Some (goto t Idle (record_return t s))
  end.

(** A schedule names, step by step, the thread that runs and the outcome of
    a load; a thread that waits for the lock does not move. *)
Fixpoint run (schedule : list (nat * bool)) (s : state) : state :=
  match schedule with
  | [] => s
  | (t, load_ok) :: rest =>
      match step t load_ok s with
      | Some s' => run rest s'
      | None => run rest s
      end
  end.

(** The program points inside a [with] block. *)
Definition holds (p : pc) : bool :=
  match p with
  | NewRecheck | NewCreate | NewRelease
  | InitRecheck _ | InitLoad _ | InitSetFlag _ | InitRelease _ | InitRaise => true
  | _ => false
  end.

(** The object that a thread carries at a program point, if any. *)
Definition carried (p : pc) : option (option nat) :=
  match p with
  | InitCheck o | InitAcquire o | InitRecheck o | InitLoad o
  | InitSetFlag o | InitRelease o => Some (Some o)
  | GetAssign obj => Some obj
  | _ => None
  end.

(** What holds in every state that the threads can reach. *)
Record invariant (s : state) : Prop := {
  inv_alloc : match instance_ s with
              | None => allocated s = 0
              | Some o => o = 0 /\ allocated s = 1
              end;
  inv_holder : forall t, holds (pcs s t) = true -> lock s = Some t;
  inv_locked : forall t, lock s = Some t -> holds (pcs s t) = true;
  inv_create : forall t, pcs s t = NewCreate -> instance_ s = None;
  inv_made : forall t, pcs s t = NewRelease \/ pcs s t = NewReturn ->
                       instance_ s <> None;
  inv_carried : forall t obj, carried (pcs s t) = Some obj ->
                              obj = instance_ s /\ obj <> None;
  inv_global : forall o, global_ s = Some o -> instance_ s = Some o;
  inv_get : forall t, pcs s t = GetReturn -> global_ s <> None;
  inv_returned : forall t r, In (t, r) (returned s) ->
                             r = instance_ s /\ r <> None
}.

End Threads.

(* ================================================================= *)
(** ** analyzers/optimized_pdf_analyzer.py *)

Module OptimizedPDFAnalyzer.

Record self := { analyzer : AnalyzerEngine; anonymizer : AnonymizerEngine }.

Definition analyze_text (s : self) (text language : pystr) (threshold : Q)
  (entities : option (list pystr)) : M (list Finding) :=
  results <- call_analyze (analyzer s) text language entities (Some threshold) ;;
  ret (to_findings text results).

(** [__init__] *)
Definition init (pr : AnalyzerSingleton.Presidio) : M self :=
  e <- AnalyzerSingleton.shared_engines pr ;;
  ret {| analyzer := fst e; anonymizer := snd e |}.

End OptimizedPDFAnalyzer.

(* ================================================================= *)
(** ** analyzers/optimized_image_analyzer.py *)

Module OptimizedImageAnalyzer.

Record self := { analyzer : AnalyzerEngine; anonymizer : AnonymizerEngine }.

Definition analyze_text (s : self) (text language : pystr) (threshold : Q)
  (entities : option (list pystr)) : M (list Finding) :=
  if negb (truthy text) || negb (truthy (strip text)) then ret []
  else
    results <- call_analyze (analyzer s) text language entities (Some threshold) ;;
    ret (to_findings text results).

(** [__init__] *)
Definition init (pr : AnalyzerSingleton.Presidio) : M self :=
  e <- AnalyzerSingleton.shared_engines pr ;;
  ret {| analyzer := fst e; anonymizer := snd e |}.

End OptimizedImageAnalyzer.

(* ================================================================= *)
(** ** analyzers/csv_analyzer.py *)

Module CSVAnalyzer.

(** A scalar of a frame read by [pd.read_csv]: a missing value, an integer
    or a string. *)
Inductive cell :=
| NaN
| CInt (z : Z)
| CStr (s : pystr).

(** [pd.notna(value)] *)
Definition notna (v : cell) : bool :=
  match v with NaN => false | _ => true end.

(** [str(value)] *)
Definition str (v : cell) : pystr :=
  match v with
  | NaN => lit "nan"
  | CInt z => lit (NilZero.string_of_int (Z.to_int z))
  | CStr s => s
  end.

(** A [pd.DataFrame]: column labels, row labels and the rows, one cell per
    column.  Labels are unique, as [pd.read_csv] makes them, so that a label
    addresses one position. *)
Record DataFrame := {
  columns : list pystr;
  index : list Z;
  rows : list (list cell)
}.

(** [len(df)] *)
Definition len (df : DataFrame) : nat := List.length (rows df).

(** Every row has one cell per column and one label. *)
Definition rectangular (df : DataFrame) : Prop :=
  List.length (index df) = List.length (rows df) /\
  Forall (fun r => List.length r = List.length (columns df)) (rows df).

(** [df[column]] for the column at position [j]. *)
Definition column_values (df : DataFrame) (j : nat) : list cell :=
  map (fun r => nth j r NaN) (rows df).

(** [df.at[idx, column]] read at row position [i], column position [j]. *)
Definition at_get (rs : list (list cell)) (i j : nat) : cell :=
  nth j (nth i rs []) NaN.

Fixpoint set_nth {A} (l : list A) (n : nat) (a : A) : list A :=
  match l, n with
  | [], _ => []
  | _ :: l', O => a :: l'
  | b :: l', S n' => b :: set_nth l' n' a
  end.

(** [df.at[idx, column] = v] at row position [i], column position [j]. *)
Definition at_set (rs : list (list cell)) (i j : nat) (v : cell)
  : list (list cell) :=
  set_nth rs i (set_nth (nth i rs []) j v).

(** A value that only a column of strings (dtype [object] or [str]) holds. *)
Definition is_str (v : cell) : bool :=
  match v with CStr _ => true | _ => false end.

(** The dtype of the column at position [j] holds strings: the column has a
    string in it.  The columns that [pd.read_csv] reads as numbers (dtype
    [int64] or [float64]) have none. *)
Definition holds_str (rs : list (list cell)) (j : nat) : bool :=
  existsb (fun r => is_str (nth j r NaN)) rs.

(** [df.at[idx, column] = text] for a string [text]: pandas raises
    [TypeError] when the dtype of the column cannot hold a string. *)
Definition at_set_str (rs : list (list cell)) (i j : nat) (text : pystr)
  : result (list (list cell)) :=
  if holds_str rs j then Ok (at_set rs i j (CStr text)) else Raise TypeError.

(** The rows of [df] at the given positions, in that order, with their
    labels. *)
Definition take (df : DataFrame) (positions : list nat) : DataFrame :=
  let sel := flat_map (fun p =>
               match nth_error (index df) p, nth_error (rows df) p with
               | Some i, Some r => [(i, r)]
               | _, _ => []
               end) positions in
  {| columns := columns df; index := map fst sel; rows := map snd sel |}.

(** [df.sample(n=n, random_state=random_state)]: an integer
    [random_state] seeds a generator of its own, [None] draws from numpy's
    global generator and advances it. *)
Definition sample (np : Numpy) (df : DataFrame) (n : Z)
  (random_state : option Z) : M DataFrame :=
  fun wd =>
    if (n <? 0)%Z then (Raise (ValueError "A negative number of rows requested"), wd)
    else if (Z.of_nat (len df) <? n)%Z
    then (Raise (ValueError "Cannot take a larger sample than population"), wd)
    else
      match random_state with
      | Some seed =>
          let (positions, _) := choice np (seeded np seed) (len df) (Z.to_nat n) in
          (Ok (take df positions), wd)
      | None =>
          let (positions, g) := choice np (np_global wd) (len df) (Z.to_nat n) in
          (Ok (take df positions), set_np_global g wd)
      end.

Record self := { analyzer : AnalyzerEngine; anonymizer : AnonymizerEngine }.

Definition analyze_text (s : self) (text language : pystr) (threshold : Q)
  (entities : option (list pystr)) : M (list Finding) :=
  if negb (truthy text) || negb (truthy (strip text)) then ret []
  else
    let text_str := text in
    results <- call_analyze (analyzer s) text_str language entities (Some threshold) ;;
    ret (to_findings text_str results).

(** One entry of [column_pii]. *)
Record Item := {
  row_index : Z;
  value : pystr;
  pii_findings : list Finding
}.

Record ColumnResult := {
  has_pii : bool;
  pii_count : nat;
  pii_types : list (pystr * nat);
  all_findings : list Item
}.

Record Analysis := {
  total_columns : nat;
  total_rows : nat;
  analyzed_rows : nat;
  is_sampled : bool;
  column_results : list (pystr * ColumnResult)
}.

(** The first statement of [analyze_dataframe]: which rows are analyzed. *)
Definition select_rows (np : Numpy) (df : DataFrame) (sample_size : option Z)
  : M (DataFrame * bool) :=
  match sample_size with
  | Some n =>
      if negb (n =? 0)%Z && (n <? Z.of_nat (len df))%Z
      then
        df_to_analyze <- sample np df n (Some 42%Z) ;;
        ret (df_to_analyze, true)
      else ret (df, false)
  | None => ret (df, false)
  end.

(** [for idx, value in enumerate(df_to_analyze[column])] *)
Fixpoint scan_column (s : self) (threshold : Q) (entities : option (list pystr))
  (labels : list Z) (enumerated : list (nat * cell)) (column_pii : list Item)
  : M (list Item) :=
  match enumerated with
  | [] => ret column_pii
  | (idx, v) :: rest =>
      if notna v then
        found <- analyze_text s (str v) en threshold entities ;;
        match found with
        | [] => scan_column s threshold entities labels rest column_pii
        | _ :: _ =>
            match nth_error labels idx with
            | None => raise IndexError
            | Some label =>
                scan_column s threshold entities labels rest
                  (column_pii ++ [{| row_index := label; value := str v;
                                     pii_findings := found |}])
            end
        end
      else scan_column s threshold entities labels rest column_pii
  end.

(** [pii_types[pii_type] = pii_types.get(pii_type, 0) + 1] on a dict kept in
    insertion order. *)
Fixpoint count_type (pii_type : pystr) (pii_types : list (pystr * nat))
  : list (pystr * nat) :=
  match pii_types with
  | [] => [(pii_type, 1)]
  | (k, n) :: rest =>
      if list_eq_dec ascii_dec k pii_type then (k, n + 1) :: rest
      else (k, n) :: count_type pii_type rest
  end.

Definition summarize_types (column_pii : list Item) : list (pystr * nat) :=
  fold_left (fun acc item =>
    fold_left (fun acc' finding => count_type (entity_type finding) acc')
              (pii_findings item) acc) column_pii [].

Definition column_result (column_pii : list Item) : ColumnResult :=
  match column_pii with
  | _ :: _ =>
      {| has_pii := true; pii_count := List.length column_pii;
         pii_types := summarize_types column_pii;
         all_findings := column_pii |}
  | [] =>
      {| has_pii := false; pii_count := 0; pii_types := []; all_findings := [] |}
  end.

Definition enumerate {A} (l : list A) : list (nat * A) :=
  combine (seq 0 (List.length l)) l.

(** [for column in df_to_analyze.columns] *)
Fixpoint scan_columns (s : self) (threshold : Q) (entities : option (list pystr))
  (df_to_analyze : DataFrame) (cols : list (nat * pystr))
  (column_results : list (pystr * ColumnResult))
  : M (list (pystr * ColumnResult)) :=
  match cols with
  | [] => ret column_results
  | (j, column) :: rest =>
      column_pii <- scan_column s threshold entities (index df_to_analyze)
                      (enumerate (column_values df_to_analyze j)) [] ;;
      scan_columns s threshold entities df_to_analyze rest
        (column_results ++ [(column, column_result column_pii)])
  end.

Definition analyze_dataframe (s : self) (np : Numpy) (df : DataFrame)
  (sample_size : option Z) (threshold : Q) (entities : option (list pystr))
  : M Analysis :=
  sel <- select_rows np df sample_size ;;
  let (df_to_analyze, sampled) := sel in
  column_results <- scan_columns s threshold entities df_to_analyze
                      (enumerate (columns df_to_analyze)) [] ;;
  ret {| total_columns := List.length (columns df);
         total_rows := len df;
         analyzed_rows := len df_to_analyze;
         is_sampled := sampled;
         column_results := column_results |}.

(** The body of the two loops of [anonymize_dataframe] at one cell. *)
Definition anonymize_cell (s : self) (threshold : Q)
  (entities : option (list pystr)) (j i : nat) (rs : list (list cell))
  : M (list (list cell)) :=
  let v := at_get rs i j in
  if notna v then
    let value_str := str v in
    found <- analyze_text s value_str en threshold entities ;;
    match found with
    | [] => ret rs
    | _ :: _ =>
        let recognizer_results := to_recognizer_results found in
        anonymized <- call_anonymize (anonymizer s) value_str recognizer_results ;;
        lift (at_set_str rs i j anonymized)
    end
  else ret rs.

(** What the loop body leaves in a cell that held [v], when the assignment
    goes through: the anonymized text when the cell is present, passes the
    guard of [analyze_text] and has findings; [v] itself otherwise. *)
Definition redact_cell (s : self) (threshold : Q)
  (entities : option (list pystr)) (v : cell) : result cell :=
  if notna v then
    if negb (truthy (str v)) || negb (truthy (strip (str v))) then Ok v
    else
      match analyze (analyzer s) (str v) en entities (Some threshold) with
      | Raise e => Raise e
      | Ok results =>
          match to_findings (str v) results with
          | [] => Ok v
          | found =>
              match anonymize (anonymizer s) (str v)
                      (to_recognizer_results found) with
              | Ok t => Ok (CStr t)
              | Raise e => Raise e
              end
          end
      end
  else Ok v.

(** The state of the frame while the loops of [anonymize_dataframe] run
    over [df]: the shape is the original one, visited cells hold their
    redaction, the others their original value. *)
Definition progress (s : self) (threshold : Q) (entities : option (list pystr))
  (df : DataFrame) (visited : nat -> nat -> bool) (rs : list (list cell))
  : Prop :=
  map (@List.length cell) rs = map (@List.length cell) (rows df) /\
  forall i j, i < List.length (rows df) -> j < List.length (columns df) ->
    if visited i j
    then redact_cell s threshold entities (at_get (rows df) i j)
         = Ok (at_get rs i j)
    else at_get rs i j = at_get (rows df) i j.

(** A [for] loop that threads the value it updates. *)
Fixpoint for_each {A S} (l : list A) (body : A -> S -> M S) (acc : S) : M S :=
  match l with
  | [] => ret acc
  | a :: l' => acc' <- body a acc ;; for_each l' body acc'
  end.

Definition anonymize_dataframe (s : self) (df : DataFrame) (threshold : Q)
  (entities : option (list pystr)) : M DataFrame :=
  let df_anonymized := rows df in
  rs <- for_each (seq 0 (List.length (columns df)))
          (fun j => for_each (seq 0 (List.length (index df)))
                      (anonymize_cell s threshold entities j))
          df_anonymized ;;
  ret {| columns := columns df; index := index df; rows := rs |}.

(** Both engines answer every call. *)
Definition never_raises (s : self) : Prop :=
  (forall text language entities threshold,
     exists results,
       analyze (analyzer s) text language entities threshold = Ok results) /\
  (forall text analyzer_results,
     exists anonymized,
       anonymize (anonymizer s) text analyzer_results = Ok anonymized).

(** Every cell that is not its own redaction lies in a column that holds
    strings, so that the assignment of the anonymized text is accepted. *)
Definition writable (s : self) (threshold : Q)
  (entities : option (list pystr)) (df : DataFrame) : Prop :=
  forall i j, i < List.length (rows df) -> j < List.length (columns df) ->
    redact_cell s threshold entities (at_get (rows df) i j)
    <> Ok (at_get (rows df) i j) ->
    holds_str (rows df) j = true.

(** A sample size that [DataFrame.sample] accepts. *)
Definition sample_size_ok (sample_size : option Z) : Prop :=
  match sample_size with
  | None => True
  | Some n => (0 <= n)%Z
  end.

(** What [to_csv(output_path, index=False)] writes: the header and the rows. *)
Record CsvFile := { header : list pystr; body : list (list cell) }.

Definition to_csv (df : DataFrame) : CsvFile :=
  {| header := columns df; body := rows df |}.

(** [df.head(10)] *)
Definition head10 (df : DataFrame) : DataFrame :=
  {| columns := columns df; index := firstn 10 (index df);
     rows := firstn 10 (rows df) |}.

Record CsvResult := {
  analysis : Analysis;
  columns_with_pii : nat;
  total_pii_instances : nat;
  anonymized_file : option (pystr * CsvFile);
  anonymized_preview : option DataFrame
}.

(** [analyze_csv], from the frame that [read_csv(csv_path)] returned. *)
Definition analyze_csv (s : self) (np : Numpy) (df : DataFrame)
  (anonymize : bool) (output_path : option pystr) (sample_size : option Z)
  (threshold : Q) (entities : option (list pystr)) : M CsvResult :=
  analysis_results <- analyze_dataframe s np df sample_size threshold entities ;;
  let with_pii := List.length (filter (fun cr => has_pii (snd cr))
                                 (column_results analysis_results)) in
  let instances := list_sum (map (fun cr => pii_count (snd cr))
                                 (column_results analysis_results)) in
  if anonymize then
    df_anonymized <- anonymize_dataframe s df threshold entities ;;
    let file := match output_path with
                | Some path => if truthy path then Some (path, to_csv df_anonymized)
                               else None
                | None => None
                end in
    ret {| analysis := analysis_results; columns_with_pii := with_pii;
           total_pii_instances := instances; anonymized_file := file;
           anonymized_preview := Some (head10 df_anonymized) |}
  else
    ret {| analysis := analysis_results; columns_with_pii := with_pii;
           total_pii_instances := instances; anonymized_file := None;
           anonymized_preview := None |}.

End CSVAnalyzer.

(* ================================================================= *)
(** ** maskers/pdf_masker.py *)

Module PDFMasker.

Definition LF : ascii := "010"%char.

(** What [create_masked_pdf] appends to [story]: a [Paragraph] of markup in
    the custom style, or the fixed [Spacer(1, 0.1*inch)]. *)
Inductive Flowable :=
| Paragraph (markup : pystr)
| Spacer.

(** reportlab parses the markup of a [Paragraph] when the object is
    constructed and raises [ValueError] on markup that it cannot parse:
    [paragraph_error markup] is the message of that exception, [None] for
    markup that parses. *)
Record Reportlab := {
  paragraph_error : pystr -> option string
}.

(** [Paragraph(text, custom_style)] *)
Definition new_Paragraph (rl : Reportlab) (text : pystr) : result Flowable :=
  match paragraph_error rl text with
  | None => Ok (Paragraph text)
  | Some msg => Raise (ValueError msg)
  end.

Definition escape_html_entities (text : pystr) : pystr :=
  let text := replace (lit "<") (lit "&lt;") text in
  let text := replace (lit ">") (lit "&gt;") text in
  text.

(** The markup [cleaned_para] that the loop body makes of [para]. *)
Definition cleaned_para (para : pystr) : pystr :=
  let lines := split [LF] para in
  let cleaned_lines :=
    map (fun line => join (lit " ") (split_ws line))
        (filter (fun line => truthy (strip line)) lines) in
  join (lit "<br/>") cleaned_lines.

(** The body of [for para in paragraphs], with the story so far. *)
Definition render_paragraph (rl : Reportlab) (para : pystr)
  (story : list Flowable) : result (list Flowable) :=
  if truthy (strip para) then
    match new_Paragraph rl (cleaned_para para) with
    | Ok p => Ok (story ++ [p; Spacer])
    | Raise e => Raise e
    end
  else Ok story.

(** The loop [for para in paragraphs]. *)
Fixpoint render_paragraphs (rl : Reportlab) (paragraphs : list pystr)
  (story : list Flowable) : result (list Flowable) :=
  match paragraphs with
  | [] => Ok story
  | para :: rest =>
      match render_paragraph rl para story with
      | Ok story' => render_paragraphs rl rest story'
      | Raise e => Raise e
      end
  end.

(** [create_masked_pdf]: the story that it hands to [doc.build], or the
    exception that ends it before. *)
Definition create_masked_pdf (rl : Reportlab) (anonymized_text : pystr)
  : result (list Flowable) :=
  let anonymized_text := escape_html_entities anonymized_text in
  let paragraphs := split [LF; LF] anonymized_text in
  render_paragraphs rl paragraphs [].

End PDFMasker.

(* ================================================================= *)
(** ** The PDF re-render as the specification words it *)

Module PDFSpec.
Import PDFMasker.

(** The characters that the code escapes: the two angle brackets.  The
    ampersand is not among them. *)
Definition escape_char (c : ascii) : pystr :=
  if Ascii.eqb c "<" then lit "&lt;"
  else if Ascii.eqb c ">" then lit "&gt;"
  else [c].

Definition escape_markup (s : pystr) : pystr := flat_map escape_char s.

(** The markup-significant characters of the claim: what reportlab's
    paragraph markup gives a meaning to, the angle brackets of a tag and
    the ampersand of an entity. *)
Definition escape_significant_char (c : ascii) : pystr :=
  if Ascii.eqb c "&" then lit "&amp;"
  else if Ascii.eqb c "<" then lit "&lt;"
  else if Ascii.eqb c ">" then lit "&gt;"
  else [c].

Definition escape_significant (s : pystr) : pystr :=
  flat_map escape_significant_char s.

(** The words of a line, one space between them. *)
Definition collapse_whitespace (line : pystr) : pystr :=
  join (lit " ") (split_ws line).

(** One paragraph as one flowed block: its non-blank lines, collapsed and
    escaped by [escape], with a line break between them. *)
Definition block (escape : pystr -> pystr) (para : pystr) : pystr :=
  join (lit "<br/>")
    (map (fun line => escape (collapse_whitespace line))
         (filter (fun line => negb (blank line)) (split [LF] para))).

(** Split on blank-line breaks, drop the blank paragraphs, emit each
    remaining paragraph as one block followed by the spacer. *)
Definition reflow_with (escape : pystr -> pystr) (text : pystr)
  : list Flowable :=
  flat_map (fun para => [Paragraph (block escape para); Spacer])
    (filter (fun para => negb (blank para)) (split [LF; LF] text)).

(** The re-render with the angle brackets escaped. *)
Definition flowed_block (para : pystr) : pystr := block escape_markup para.

Definition reflow (text : pystr) : list Flowable :=
  reflow_with escape_markup text.

(** The re-render of the claim, with every markup-significant character
    escaped. *)
Definition claimed_reflow (text : pystr) : list Flowable :=
  reflow_with escape_significant text.

(** The story as reportlab takes it: the paragraphs are constructed in
    order, and the first whose markup does not parse ends the run with its
    [ValueError]. *)
Fixpoint built (rl : Reportlab) (story : list Flowable)
  : result (list Flowable) :=
  match story with
  | [] => Ok []
  | Paragraph markup :: rest =>
      match paragraph_error rl markup with
      | Some msg => Raise (ValueError msg)
      | None =>
          match built rl rest with
          | Ok story' => Ok (Paragraph markup :: story')
          | Raise e => Raise e
          end
      end
  | Spacer :: rest =>
      match built rl rest with
      | Ok story' => Ok (Spacer :: story')
      | Raise e => Raise e
      end
  end.

(** A word: non-empty and free of whitespace. *)
Definition is_word (u : pystr) : Prop :=
  u <> [] /\ forallb (fun c => negb (isspace c)) u = true.

End PDFSpec.

(* ================================================================= *)
(** ** The detect operation of the three analyzers *)

Inductive Detector :=
| CSV (s : CSVAnalyzer.self)
| PDF (s : OptimizedPDFAnalyzer.self)
| Image (s : OptimizedImageAnalyzer.self).

Definition detect (d : Detector) : pystr -> pystr -> Q ->
  option (list pystr) -> M (list Finding) :=
  match d with
  | CSV s => CSVAnalyzer.analyze_text s
  | PDF s => OptimizedPDFAnalyzer.analyze_text s
  | Image s => OptimizedImageAnalyzer.analyze_text s
  end.

Definition engine_of (d : Detector) : AnalyzerEngine :=
  match d with
  | CSV s => CSVAnalyzer.analyzer s
  | PDF s => OptimizedPDFAnalyzer.analyzer s
  | Image s => OptimizedImageAnalyzer.analyzer s
  end.

(* ================================================================= *)
(** ** Stand-ins for the external collaborators, for concrete runs *)

Module Fixture.

(** The spans of the maximal whitespace-free runs of [s] that hold an at
    sign, as (start, end) offsets; [pos] is the offset of the head of [s],
    [start] the offset at which the current run began. *)
Fixpoint at_sign_runs (s : pystr) (pos start : Z) (seen : bool)
  : list (Z * Z) :=
  match s with
  | [] => if seen then [(start, pos)] else []
  | c :: s' =>
      if isspace c
      then (if seen then [(start, pos)] else [])
           ++ at_sign_runs s' (pos + 1) (pos + 1) false
      else at_sign_runs s' (pos + 1) start (seen || Ascii.eqb c "@")
  end.

(** A detection engine that reports every such run as an e-mail address
    with score 1. *)
Definition email_engine : AnalyzerEngine :=
  {| analyze := fun text _ _ _ =>
       Ok (map (fun se => {| r_entity_type := lit "EMAIL_ADDRESS";
                             r_start := fst se; r_end := snd se;
                             r_score := 1%Q |})
               (at_sign_runs text 0 0 false)) |}.

(** A detection engine whose every call raises. *)
Definition broken_engine : AnalyzerEngine :=
  {| analyze := fun _ _ _ _ => Raise (EngineException "model not loaded") |}.

(** A detection engine that reports every text, from end to end, as an
    identifier. *)
Definition id_engine : AnalyzerEngine :=
  {| analyze := fun text _ _ _ =>
       Ok [ {| r_entity_type := lit "ID"; r_start := 0;
               r_end := Z.of_nat (List.length text); r_score := 1%Q |} ] |}.

(** An anonymization engine that answers with one placeholder. *)
Definition placeholder_engine : AnonymizerEngine :=
  {| anonymize := fun _ _ => Ok (lit "<EMAIL_ADDRESS>") |}.

Definition csv_self : CSVAnalyzer.self :=
  {| CSVAnalyzer.analyzer := email_engine;
     CSVAnalyzer.anonymizer := placeholder_engine |}.

Definition image_self : OptimizedImageAnalyzer.self :=
  {| OptimizedImageAnalyzer.analyzer := email_engine;
     OptimizedImageAnalyzer.anonymizer := placeholder_engine |}.

Definition contact_line : pystr := lit "Contact: john@example.com".

Definition john_finding : Finding :=
  {| entity_type := lit "EMAIL_ADDRESS"; f_text := lit "john@example.com";
     f_start := 9; f_end := 25; score := 1%Q |}.

(** A numpy whose choice of [n] out of [len] positions takes the last [n]
    positions, last first. *)
Definition numpy : Numpy :=
  {| seeded := fun seed => Z.to_N seed;
     choice := fun g len n => (firstn n (rev (seq 0 len)), N.succ g) |}.

(** A table of three rows and two columns. *)
Definition contacts : CSVAnalyzer.DataFrame :=
  {| CSVAnalyzer.columns := [lit "id"; lit "email"];
     CSVAnalyzer.index := [0%Z; 1%Z; 2%Z];
     CSVAnalyzer.rows :=
       [ [CSVAnalyzer.CInt 1; CSVAnalyzer.CStr (lit "ann@example.com")];
         [CSVAnalyzer.CInt 2; CSVAnalyzer.CStr (lit "bob@example.com")];
         [CSVAnalyzer.CInt 3; CSVAnalyzer.NaN] ] |}.

(** A table of three rows and one column, every cell an e-mail address. *)
Definition subscribers : CSVAnalyzer.DataFrame :=
  {| CSVAnalyzer.columns := [lit "email"];
     CSVAnalyzer.index := [0%Z; 1%Z; 2%Z];
     CSVAnalyzer.rows :=
       [ [CSVAnalyzer.CStr (lit "ann@example.com")];
         [CSVAnalyzer.CStr (lit "bob@example.com")];
         [CSVAnalyzer.CStr (lit "cat@example.com")] ] |}.

(** A table of one row and one column of numbers. *)
Definition badges : CSVAnalyzer.DataFrame :=
  {| CSVAnalyzer.columns := [lit "badge"];
     CSVAnalyzer.index := [0%Z];
     CSVAnalyzer.rows := [ [CSVAnalyzer.CInt 7] ] |}.

(** A library whose first detection engine fails its warm-up and whose later
    ones work. *)
Definition flaky_presidio : AnalyzerSingleton.Presidio :=
  {| AnalyzerSingleton.AnalyzerEngine_new := fun k =>
       match k with
       | O => Ok broken_engine
       | S _ => Ok email_engine
       end;
     AnalyzerSingleton.AnonymizerEngine_new := fun _ => Ok placeholder_engine |}.

Definition threshold : Q := (35 # 100)%Q.

(** The OCR words of the resolver scenario. *)
Definition john_doe : list ImageMasker.OCRWord :=
  [ {| ImageMasker.word_text := lit "JOHN";
       ImageMasker.word_box :=
         {| ImageMasker.x := 0; ImageMasker.y := 0;
            ImageMasker.w := 40; ImageMasker.h := 10 |} |};
    {| ImageMasker.word_text := lit "DOE";
       ImageMasker.word_box :=
         {| ImageMasker.x := 45; ImageMasker.y := 0;
            ImageMasker.w := 40; ImageMasker.h := 10 |} |} ].

(** Analysis of [contacts] with a sample of two rows, redaction requested
    and written to [out.csv]. *)
Definition contacts_run : M CSVAnalyzer.CsvResult :=
  CSVAnalyzer.analyze_csv csv_self numpy contacts true
    (Some (lit "out.csv")) (Some 2%Z) threshold None.

(** A schedule of three threads.  Threads 0 and 1 both find [_instance]
    empty before either takes the lock; thread 0 creates the object while
    thread 1 waits; thread 1 then runs a load that fails and leaves its call
    with the exception; thread 0 loads with success and returns; thread 1
    calls again, and thread 2 calls for the first time. *)
Definition racing_schedule : list (nat * bool) :=
  repeat (0, true) 3 ++ repeat (1, true) 3 ++ [(0, true); (1, true)] ++
  repeat (0, true) 3 ++ repeat (1, false) 5 ++ repeat (0, true) 2 ++
  [(1, false); (0, true)] ++ repeat (1, false) 3 ++ repeat (0, true) 7 ++
  repeat (1, true) 3 ++ repeat (2, true) 3.

End Fixture.

(* ================================================================= *)
(** ** maskers/image_masker.py: create_masked_image *)

Module MaskedImage.
Import ImageMasker.

(** The argument of one [draw.rectangle] call: [[x0, y0, x1, y1]]. *)
Definition Rect : Type := (Z * Z * Z * Z)%type.

(** What PIL and Tesseract do in one run of [create_masked_image]: each
    call returns or raises. *)
Record Imaging := {
  (* [Image.open(image_path)] and [ImageDraw.Draw(image)] *)
  Image_open : result unit;
  (* [self.get_text_boxes(image_path)]: [Image.open] and
     [pytesseract.image_to_data] *)
  get_text_boxes : result OcrData;
  (* [draw.rectangle(xy, fill=mask_color)] *)
  draw_rectangle : Rect -> result unit;
  (* [image.save(output_path)] of the image with the given rectangles
     filled *)
  image_save : list Rect -> result unit
}.

(** The loop [for pos in positions], with the rectangles filled so far. *)
Fixpoint draw_positions (im : Imaging) (positions : list Box)
  (drawn : list Rect) : result (list Rect) :=
  match positions with
  | [] => Ok drawn
  | pos :: rest =>
      match draw_rectangle im (mask_rectangle pos) with
      | Raise e => Raise e
      | Ok _ => draw_positions im rest (drawn ++ [mask_rectangle pos])
      end
  end.

(** The loop [for finding in pii_findings], with the rectangles filled so
    far. *)
Fixpoint mask_findings (im : Imaging) (ocr_data : OcrData)
  (pii_findings : list Finding) (drawn : list Rect) : result (list Rect) :=
  match pii_findings with
  | [] => Ok drawn
  | finding :: rest =>
      let text_to_mask := f_text finding in
      match find_text_positions ocr_data text_to_mask with
      | Raise e => Raise e
      | Ok positions =>
          match draw_positions im positions drawn with
          | Raise e => Raise e
          | Ok drawn' => mask_findings im ocr_data rest drawn'
          end
      end
  end.

(** [create_masked_image]: the rectangles filled, in order, on the image
    that [image.save(output_path)] has written; an exception ends the run
    before anything is saved. *)
Definition create_masked_image (im : Imaging) (pii_findings : list Finding)
  : result (list Rect) :=
  match Image_open im with
  | Raise e => Raise e
  | Ok _ =>
      match get_text_boxes im with
      | Raise e => Raise e
      | Ok ocr_data =>
          match mask_findings im ocr_data pii_findings [] with
          | Raise e => Raise e
          | Ok drawn =>
              match image_save im drawn with
              | Raise e => Raise e
              | Ok _ => Ok drawn
              end
          end
      end
  end.

(** The rectangles of the positions that the resolver gives for the
    findings, finding by finding; [None] when the resolver raises. *)
Fixpoint resolved (ocr_data : OcrData) (pii_findings : list Finding)
  : option (list Rect) :=
  match pii_findings with
  | [] => Some []
  | finding :: rest =>
      match find_text_positions ocr_data (f_text finding),
            resolved ocr_data rest with
      | Ok positions, Some rects => Some (map mask_rectangle positions ++ rects)
      | _, _ => None
      end
  end.

(** The pixel [(px, py)] lies in the rectangle, both corners included. *)
Definition inside (r : Rect) (px py : Z) : Prop :=
  let '(x0, y0, x1, y1) := r in
  (x0 <= px <= x1)%Z /\ (y0 <= py <= y1)%Z.

(** The pixel lies within two pixels of the box of the word. *)
Definition near_box (b : Box) (px py : Z) : Prop :=
  (x b - 2 <= px <= x b + w b + 2)%Z /\ (y b - 2 <= py <= y b + h b + 2)%Z.

(** The coordinates of entry [i], when all four lists have one. *)
Definition box_at (ocr_data : OcrData) (i : nat) : option Box :=
  match nth_error (left ocr_data) i, nth_error (top ocr_data) i,
        nth_error (width ocr_data) i, nth_error (height ocr_data) i with
  | Some x, Some y, Some w, Some h => Some {| x := x; y := y; w := w; h := h |}
  | _, _, _, _ => None
  end.

(** Entry [i] has a text that passes the test of the loop body. *)
Definition entry_matches (ocr_data : OcrData) (normalized_target : pystr)
  (i : nat) : bool :=
  match nth_error (text ocr_data) i with
  | Some t =>
      truthy (strip t) &&
      (contains (lower (strip t)) normalized_target
       || contains normalized_target (lower (strip t)))
  | None => false
  end.

(** The OCR data with every text in lower case. *)
Definition lower_texts (ocr_data : OcrData) : OcrData :=
  {| text := map lower (text ocr_data); left := left ocr_data;
     top := top ocr_data; width := width ocr_data;
     height := height ocr_data |}.

End MaskedImage.

(* ================================================================= *)
(** ** maskers/pdf_masker.py: what the story looks like *)

Module Story.
Import PDFMasker.

Definition is_angle (c : ascii) : bool :=
  Ascii.eqb c "<" || Ascii.eqb c ">".

(** The only whitespace in [m] is the plain space. *)
Definition plain_spaced (m : pystr) : Prop :=
  Forall (fun c => isspace c = true -> c = " "%char) m.

(** The story that holds the given markups, each followed by the spacer. *)
Definition blocks (markups : list pystr) : list Flowable :=
  flat_map (fun m => [Paragraph m; Spacer]) markups.

End Story.

(* ================================================================= *)
(** ** analyzers/csv_analyzer.py: what the loops do to the engines *)

Module CSVFacts.
Import CSVAnalyzer.

(** The world after the given calls were logged, oldest first. *)
Definition replay (cs : list call) (wd : world) : world :=
  fold_left (fun w c => log c w) cs wd.

(** A cell that reaches the detection engine: present and not blank. *)
Definition scanned (v : cell) : bool := notna v && negb (blank (str v)).

(** The texts of the cells of a list that reach the detection engine. *)
Definition texts_of (vs : list cell) : list pystr :=
  flat_map (fun v => if scanned v then [str v] else []) vs.

(** The texts that an analysis of the frame [d] sends to the detection
    engine: column by column, and in a column row by row. *)
Definition scanned_texts (d : DataFrame) : list pystr :=
  flat_map (fun j => texts_of (column_values d j))
           (seq 0 (List.length (columns d))).

(** The findings that [analyze_text] returns for the text of a cell. *)
Definition cell_findings (s : self) (threshold : Q)
  (entities : option (list pystr)) (v : cell) : result (list Finding) :=
  if scanned v then
    match analyze (analyzer s) (str v) en entities (Some threshold) with
    | Ok results => Ok (to_findings (str v) results)
    | Raise e => Raise e
    end
  else Ok [].

(** The calls that one turn of the loops of [anonymize_dataframe] makes for
    a cell that holds [v]. *)
Definition cell_calls (s : self) (threshold : Q)
  (entities : option (list pystr)) (v : cell) : list call :=
  if scanned v then
    CallAnalyze (str v) ::
    match cell_findings s threshold entities v with
    | Ok (_ :: _) => [CallAnonymize (str v)]
    | _ => []
    end
  else [].

(** The calls of a redaction of the frame [df], column by column. *)
Definition redaction_calls (s : self) (threshold : Q)
  (entities : option (list pystr)) (df : DataFrame) : list call :=
  flat_map (fun j =>
    flat_map (fun i => cell_calls s threshold entities (at_get (rows df) i j))
             (seq 0 (List.length (rows df))))
    (seq 0 (List.length (columns df))).

(** An item appended to [column_pii]: it has findings, and it is made of a
    present cell of the column, the label of its row and the findings of
    its text. *)
Definition item_ok (s : self) (threshold : Q) (entities : option (list pystr))
  (labels : list Z) (enumerated : list (nat * cell)) (item : Item) : Prop :=
  pii_findings item <> [] /\
  exists idx v,
    In (idx, v) enumerated /\ notna v = true /\ value item = str v /\
    nth_error labels idx = Some (row_index item) /\
    cell_findings s threshold entities v = Ok (pii_findings item).

(** The number of findings of type [k] in the items of a column. *)
Definition findings_of_type (k : pystr) (items : list Item) : nat :=
  List.length
    (filter (fun f => if list_eq_dec ascii_dec (entity_type f) k
                      then true else false)
            (flat_map pii_findings items)).

(** The count that the dict [pii_types] holds for [k], 0 without the key. *)
Fixpoint dict_get (k : pystr) (d : list (pystr * nat)) : nat :=
  match d with
  | [] => 0
  | (k', n) :: rest =>
      if list_eq_dec ascii_dec k' k then n else dict_get k rest
  end.

(** What [analyze_dataframe] guarantees of the entry of one column. *)
Definition column_summary_ok (cr : ColumnResult) : Prop :=
  pii_count cr = List.length (all_findings cr) /\
  (has_pii cr = true <-> all_findings cr <> []) /\
  Forall (fun item => pii_findings item <> []) (all_findings cr) /\
  NoDup (map fst (pii_types cr)) /\
  (forall k, dict_get k (pii_types cr)
             = findings_of_type k (all_findings cr)).

(** The positions that numpy chose are [n] positions of the frame. *)
Definition choice_valid (np : Numpy) (df : DataFrame) (n : Z) : Prop :=
  let positions := fst (choice np (seeded np 42) (len df) (Z.to_nat n)) in
  List.length positions = Z.to_nat n /\
  Forall (fun p => p < len df) positions.

End CSVFacts.

(* ================================================================= *)
(** ** analyzers/csv_analyzer.py: the workflow *)

Module CSVWorkflow.
Import CSVAnalyzer CSVFacts.

(** How redaction may change a cell: not at all, or, for a cell that
    reaches the engine, into a string. *)
Definition cell_change_ok (v v' : cell) : Prop :=
  notna v' = notna v /\
  (v' = v \/ (scanned v = true /\ exists t, v' = CStr t)).

(** [output_path] names a file: it is neither [None] nor empty. *)
Definition names_file (output_path : option pystr) : option pystr :=
  match output_path with
  | Some path => if truthy path then Some path else None
  | None => None
  end.

End CSVWorkflow.

(* ================================================================= *)
(** ** analyzers/singleton_analyzers.py, several threads: the lock and the
       loads *)

Module ThreadFacts.
Import Threads.

(** The number of loads that succeeded in a run: the steps taken at
    [_load_engines()] with a load that works. *)
Fixpoint successful_loads (schedule : list (nat * bool)) (s : state) : nat :=
  match schedule with
  | [] => 0
  | (t, load_ok) :: rest =>
      match step t load_ok s with
      | Some s' =>
          match pcs s t with
          | InitLoad _ => if load_ok then 1 else 0
          | _ => 0
          end + successful_loads rest s'
      | None => successful_loads rest s
      end
  end.

(** What the program point of a thread tells about the loads, [n] of which
    have succeeded so far. *)
Definition phase_at (s : state) (n : nat) (p : pc) : Prop :=
  match p with
  | InitLoad _ => n = 0
  | InitSetFlag _ => n = 1 /\ initialized s = false
  | InitRelease _ | GetAssign _ | GetReturn => initialized s = true
  | _ => True
  end.

(** How the flag, the global and the returns depend on the loads. *)
Record load_phase (s : state) (n : nat) : Prop := {
  phase_threads : forall t, phase_at s n (pcs s t);
  phase_flag : initialized s = true -> n = 1;
  phase_count : n = 0 \/
                (n = 1 /\ (initialized s = true \/
                           exists t o, pcs s t = InitSetFlag o));
  phase_global : forall o, global_ s = Some o -> initialized s = true;
  phase_returned : forall t r, In (t, r) (returned s) -> initialized s = true
}.

End ThreadFacts.

(* ================================================================= *)
(** ** analyzers/singleton_analyzers.py, one thread: the calls of a load *)

Module SingletonFacts.
Import AnalyzerSingleton.

(** The engine calls of the [k]-th load of the process: the warm-up call,
    which is reached when both constructors return. *)
Definition load_calls (pr : Presidio) (k : nat) : list call :=
  match AnalyzerEngine_new pr k, AnonymizerEngine_new pr k with
  | Ok _, Ok _ => [CallAnalyze warmup_text]
  | _, _ => []
  end.

End SingletonFacts.

(* ================================================================= *)
(** ** The workflows of the PDF and image analyzers *)

(** What a call into pdfplumber, PIL or Tesseract comes to: a value, or an
    exception, of which the code reads only the message [str(e)]. *)
Inductive attempt (A : Type) :=
| Done (a : A)
| Failed (message : string).

Arguments Done {A} a.
Arguments Failed {A} message.

(** How a workflow ends when it does not return: with the [Exception] that
    a failed extraction raises, or with an exception of an engine, which
    nothing catches. *)
Inductive failure :=
| Exception (message : string)
| Uncaught (e : exn).

(** The argument [analyzer_results] of [anonymize_text]: the dicts that
    [analyze_text] returns, or the objects of the detection engine. *)
Inductive analyzer_results :=
| Dicts (l : list Finding)
| Objects (l : list RecognizerResult).

(** The truth value of a list. *)
Definition nonempty {A} (l : list A) : bool :=
  match l with
  | [] => false
  | _ :: _ => true
  end.

(** *** analyzers/optimized_pdf_analyzer.py *)

Module PDFWorkflow.
Import OptimizedPDFAnalyzer PDFMasker.

(** The loop of [extract_text_from_pdf] over the texts that
    [page.extract_text()] gives, [None] for a page without text. *)
Definition text_content (pages : list (option pystr)) : list pystr :=
  flat_map (fun page_text =>
              match page_text with
              | Some t => if truthy t then [t] else []
              | None => []
              end) pages.

(** [extract_text_from_pdf]; [pdf] is what [pdfplumber.open(pdf_path)] and
    the calls of [page.extract_text()] come to. *)
Definition extract_text_from_pdf (pdf : attempt (list (option pystr)))
  : attempt pystr :=
  match pdf with
  | Done pages => Done (join [LF; LF] (text_content pages))
  | Failed message => Failed ("Error extracting text from PDF: " ++ message)
  end.

(** [anonymize_text] *)
Definition anonymize_text (s : self) (text : pystr)
  (analyzer_results : analyzer_results) : M pystr :=
  let recognizer_results :=
    match analyzer_results with
    | Dicts (d :: rest) => to_recognizer_results (d :: rest)
    | Dicts [] => []
    | Objects l => l
    end in
  call_anonymize (anonymizer s) text recognizer_results.

(** The dict that [analyze_pdf] returns; the key ["anonymized_text"] may be
    absent. *)
Record PdfResult := {
  file_path : pystr;
  original_text : pystr;
  pii_found : bool;
  pii_count : nat;
  pii_findings : list Finding;
  anonymized_text : option pystr
}.

(** [analyze_pdf] *)
Definition analyze_pdf (s : self) (pdf : attempt (list (option pystr)))
  (pdf_path : pystr) (anonymize : bool) (threshold : Q)
  (entities : option (list pystr))
  : world -> (PdfResult + failure) * world :=
  fun wd =>
    match extract_text_from_pdf pdf with
    | Failed message => (inr (Exception message), wd)
    | Done text =>
        match
          (findings <- analyze_text s text en threshold entities ;;
           let result :=
             {| file_path := pdf_path;
                original_text := text;
                pii_found := 0 <? List.length findings;
                pii_count := List.length findings;
                pii_findings := findings;
                anonymized_text := None |} in
           if anonymize && nonempty findings then
             anonymized <- anonymize_text s text (Dicts findings) ;;
             ret {| file_path := file_path result;
                    original_text := original_text result;
                    pii_found := pii_found result;
                    pii_count := pii_count result;
                    pii_findings := pii_findings result;
                    anonymized_text := Some anonymized |}
           else ret result) wd
        with
        | (Ok result, wd') => (inl result, wd')
        | (Raise e, wd') => (inr (Uncaught e), wd')
        end
    end.

(** A page without text. *)
Definition no_text (page_text : option pystr) : Prop :=
  page_text = None \/ page_text = Some [].

End PDFWorkflow.

(** *** analyzers/optimized_image_analyzer.py *)

Module ImageWorkflow.
Import OptimizedImageAnalyzer.

(** The attributes of a PIL image that [get_image_info] reads. *)
Record PILImage := {
  format : option pystr;
  mode : pystr;
  size : Z * Z;
  width : Z;
  height : Z
}.

(** The dict that [get_image_info] returns. *)
Inductive ImageInfo :=
| Info (format : option pystr) (mode : pystr) (size : Z * Z) (width height : Z)
| InfoError (error : string).

(** [get_image_info]; [opened] is what [Image.open(image_path)] comes to. *)
Definition get_image_info (opened : attempt PILImage) : ImageInfo :=
  match opened with
  | Done image =>
      Info (format image) (mode image) (size image) (width image) (height image)
  | Failed message => InfoError message
  end.

(** [extract_text_from_image]; [ocr] is what [Image.open(image_path)] and
    [pytesseract.image_to_string(image)] come to. *)
Definition extract_text_from_image (ocr : attempt pystr) : attempt pystr :=
  match ocr with
  | Done text => Done (strip text)
  | Failed message => Failed ("Error extracting text from image: " ++ message)
  end.

(** [anonymize_text] *)
Definition anonymize_text (s : self) (text : pystr)
  (analyzer_results : analyzer_results) : M pystr :=
  match analyzer_results with
  | Dicts [] | Objects [] => ret text
  | Dicts (d :: rest) =>
      call_anonymize (anonymizer s) text (to_recognizer_results (d :: rest))
  | Objects (r :: rest) => call_anonymize (anonymizer s) text (r :: rest)
  end.

(** The dict that [analyze_image] returns; the key ["anonymized_text"] may
    be absent. *)
Record ImageResult := {
  file_path : pystr;
  image_info : ImageInfo;
  extracted_text : pystr;
  pii_found : bool;
  pii_count : nat;
  pii_findings : list Finding;
  anonymized_text : option pystr
}.

(** [analyze_image] *)
Definition analyze_image (s : self) (opened : attempt PILImage)
  (ocr : attempt pystr) (image_path : pystr) (anonymize : bool)
  (threshold : Q) (entities : option (list pystr))
  : world -> (ImageResult + failure) * world :=
  fun wd =>
    let info := get_image_info opened in
    match extract_text_from_image ocr with
    | Failed message => (inr (Exception message), wd)
    | Done text =>
        match
          (findings <- analyze_text s text en threshold entities ;;
           let result :=
             {| file_path := image_path;
                image_info := info;
                extracted_text := text;
                pii_found := 0 <? List.length findings;
                pii_count := List.length findings;
                pii_findings := findings;
                anonymized_text := None |} in
           if anonymize && nonempty findings then
             anonymized <- anonymize_text s text (Dicts findings) ;;
             ret {| file_path := file_path result;
                    image_info := image_info result;
                    extracted_text := extracted_text result;
                    pii_found := pii_found result;
                    pii_count := pii_count result;
                    pii_findings := pii_findings result;
                    anonymized_text := Some anonymized |}
           else ret result) wd
        with
        | (Ok result, wd') => (inl result, wd')
        | (Raise e, wd') => (inr (Uncaught e), wd')
        end
    end.

End ImageWorkflow.

(* ================================================================= *)
(** ** Further stand-ins for concrete runs *)

Module Fixture2.

(** Analysis of [Fixture.contacts] with the stand-in engines. *)
Definition contacts_analysis (sample_size : option Z)
  : M CSVAnalyzer.Analysis :=
  CSVAnalyzer.analyze_dataframe Fixture.csv_self Fixture.numpy
    Fixture.contacts sample_size Fixture.threshold None.

(** A library whose constructors always work. *)
Definition steady_presidio : AnalyzerSingleton.Presidio :=
  {| AnalyzerSingleton.AnalyzerEngine_new := fun _ => Ok Fixture.email_engine;
     AnalyzerSingleton.AnonymizerEngine_new :=
       fun _ => Ok Fixture.placeholder_engine |}.

Definition pdf_self : OptimizedPDFAnalyzer.self :=
  {| OptimizedPDFAnalyzer.analyzer := Fixture.email_engine;
     OptimizedPDFAnalyzer.anonymizer := Fixture.placeholder_engine |}.

(** A document of three pages, the second without text. *)
Definition three_pages : attempt (list (option pystr)) :=
  Done [Some Fixture.contact_line; None; Some (lit "Page three")].

(** A picture and what Tesseract reads in it. *)
Definition picture : attempt ImageWorkflow.PILImage :=
  Done {| ImageWorkflow.format := Some (lit "PNG");
          ImageWorkflow.mode := lit "RGB";
          ImageWorkflow.size := (640, 480)%Z;
          ImageWorkflow.width := 640;
          ImageWorkflow.height := 480 |}.

Definition picture_ocr : attempt pystr :=
  Done (lit " " ++ Fixture.contact_line ++ [PDFMasker.LF]).

(** A run in which PIL accepts every call and Tesseract reads the two
    words of [Fixture.john_doe]. *)
Definition john_doe_scan : MaskedImage.Imaging :=
  {| MaskedImage.Image_open := Ok tt;
     MaskedImage.get_text_boxes :=
       Ok (ImageMasker.ocr_of_words Fixture.john_doe);
     MaskedImage.draw_rectangle := fun _ => Ok tt;
     MaskedImage.image_save := fun _ => Ok tt |}.

(** The finding of a person's name in the text of that picture. *)
Definition john_doe_finding : Finding :=
  {| entity_type := lit "PERSON"; f_text := lit "John Doe";
     f_start := 0; f_end := 8; score := 1%Q |}.

End Fixture2.

(* ================================================================= *)
(** * Properties *)

(** ** Python string primitives on examples *)

Example split_nn_ex :
  split (lit (String "010" (String "010" EmptyString)))
        (lit ("a" ++ String "010" (String "010" (String "010" "b"))))
  = [lit "a"; lit (String "010" "b")].
Proof. reflexivity. Qed.

Example split_ws_ex : split_ws (lit "  John   Doe ") = [lit "John"; lit "Doe"].
Proof. reflexivity. Qed.

Example replace_ex : replace (lit "<") (lit "&lt;") (lit "a<b<") = lit "a&lt;b&lt;".
Proof. reflexivity. Qed.

Example slice_ex : slice (lit "Contact: john@example.com") 9 25 = lit "john@example.com".
Proof. reflexivity. Qed.

Example slice_neg_ex : slice (lit "abcdef") (-3) 100 = lit "def".
Proof. reflexivity. Qed.

(* ================================================================= *)
(** ** Facts about the string primitives *)

Section StringFacts.

Lemma prefixb_spec (a b : pystr) :
  prefixb a b = true <-> exists r, b = a ++ r.
Proof.
  revert b; induction a as [|c a IH]; intros b; simpl.
  - split; eauto.
  - destruct b as [|d b].
    + split; [discriminate | intros [r Hr]; discriminate].
    + rewrite andb_true_iff, Ascii.eqb_eq, IH. split.
      * intros [-> [r ->]]. now exists r.
      * intros [r Hr]. injection Hr as -> ->. eauto.
Qed.

Lemma contains_spec (a b : pystr) :
  contains a b = true <-> ImageMasker.Substring a b.
Proof.
  unfold ImageMasker.Substring.
  induction b as [|d b IH]; simpl; rewrite orb_true_iff, prefixb_spec.
  - split.
    + intros [[r Hr]|H]; [|discriminate]. exists [], r. exact Hr.
    + intros [l [r Hr]]. left.
      destruct l; [now exists r | discriminate].
  - rewrite IH. split.
    + intros [[r Hr]|[l [r Hr]]].
      * exists [], r. exact Hr.
      * exists (d :: l), r. simpl. now rewrite Hr.
    + intros [l [r Hr]]. destruct l as [|e l].
      * left. now exists r.
      * right. injection Hr as -> ->. eauto.
Qed.

Lemma contains_nil (b : pystr) : contains [] b = true.
Proof. destruct b; reflexivity. Qed.

Lemma truthy_spec (s : pystr) : truthy s = true <-> s <> [].
Proof. destruct s; simpl; split; congruence. Qed.

Lemma join_nil_concat (l : list pystr) : join [] l = List.concat l.
Proof.
  induction l as [|p l IH]; [reflexivity|].
  simpl. destruct l as [|q l].
  - now rewrite app_nil_r.
  - now rewrite IH.
Qed.

Lemma concat_cons_nonempty (u : pystr) (ws : list pystr) :
  List.concat (cons_nonempty u ws) = u ++ List.concat ws.
Proof. destruct u; reflexivity. Qed.

Lemma fields_concat (s : pystr) :
  fst (fields s) ++ List.concat (snd (fields s))
  = filter (fun c => negb (isspace c)) s.
Proof.
  induction s as [|c s IH]; [reflexivity|].
  simpl. destruct (fields s) as [u ws]. simpl in IH.
  destruct (isspace c); simpl.
  - now rewrite concat_cons_nonempty.
  - now rewrite IH.
Qed.

(** [''.join(s.split())] removes exactly the whitespace of [s]. *)
Lemma join_split_ws (s : pystr) :
  join [] (split_ws s) = filter (fun c => negb (isspace c)) s.
Proof.
  rewrite join_nil_concat. unfold split_ws.
  rewrite <- fields_concat. destruct (fields s) as [u ws].
  apply concat_cons_nonempty.
Qed.

Lemma lower_nil_iff (s : pystr) : lower s = [] <-> s = [].
Proof. destruct s; simpl; split; congruence. Qed.

End StringFacts.

(* ================================================================= *)
(** ** Position resolver *)

Section Resolver.
Import ImageMasker.

Lemma normalize_target_filter (t : pystr) :
  normalize_target t = lower (filter (fun c => negb (isspace c)) t).
Proof. unfold normalize_target. now rewrite join_split_ws. Qed.

Lemma index_ocr_of_words {A} (f : OCRWord -> A) pre wd ws :
  index (map f (pre ++ wd :: ws)) (List.length pre) = Ok (f wd).
Proof.
  unfold index. rewrite nth_error_map, nth_error_app2 by lia.
  now rewrite Nat.sub_diag.
Qed.

Lemma positions_loop_words (nt : pystr) (ws pre : list OCRWord)
  (acc : list Box) :
  positions_loop (ocr_of_words (pre ++ ws)) nt
    (seq (List.length pre) (List.length ws)) acc
  = Ok (acc ++ map word_box (filter (word_matches nt) ws)).
Proof.
  revert pre acc. induction ws as [|wd ws IH]; intros pre acc.
  - simpl. now rewrite app_nil_r.
  - cbn [List.length seq positions_loop ocr_of_words text left top width height].
    rewrite !index_ocr_of_words.
    specialize (IH (pre ++ [wd])).
    rewrite <- app_assoc, length_app, Nat.add_1_r in IH. simpl app in IH.
    unfold ocr_of_words in IH. cbn [filter].
    replace (word_matches nt wd)
      with (truthy (strip (word_text wd)) &&
            (contains (lower (strip (word_text wd))) nt
             || contains nt (lower (strip (word_text wd))))) by reflexivity.
    destruct (truthy (strip (word_text wd))); cbn [andb].
    + destruct (contains _ _ || contains _ _).
      * rewrite IH, <- app_assoc. simpl. now destruct (word_box wd).
      * apply IH.
    + apply IH.
Qed.

Lemma word_matches_spec (nt : pystr) (wd : OCRWord) :
  word_matches nt wd = true <->
  strip (word_text wd) <> [] /\
  (Substring (lower (strip (word_text wd))) nt \/
   Substring nt (lower (strip (word_text wd)))).
Proof.
  unfold word_matches.
  now rewrite andb_true_iff, orb_true_iff, truthy_spec, !contains_spec.
Qed.

Lemma find_text_positions_words (ws : list OCRWord) (t : pystr) :
  find_text_positions (ocr_of_words ws) t
  = Ok (map word_box (filter (word_matches (normalize_target t)) ws)).
Proof.
  unfold find_text_positions.
  change (text (ocr_of_words ws)) with (map word_text ws).
  rewrite length_map.
  exact (positions_loop_words (normalize_target t) ws [] []).
Qed.

(** C1 (as amended): on the OCR data of any word list and for any target,
    the resolver returns, in reading order, exactly the boxes of the words
    whose stripped text is non-empty and whose stripped, lowercased text is
    contained in the whitespace-free, lowercased target or contains it; for
    the words JOHN and DOE and the target [John Doe] both boxes are
    returned. *)
Theorem find_text_positions_spec (ws : list OCRWord) (t : pystr) :
  let nt := lower (filter (fun c => negb (isspace c)) t) in
  (exists matched,
     find_text_positions (ocr_of_words ws) t = Ok (map word_box matched) /\
     matched = filter (word_matches nt) ws /\
     forall wd, In wd matched <->
       In wd ws /\ strip (word_text wd) <> [] /\
       (Substring (lower (strip (word_text wd))) nt \/
        Substring nt (lower (strip (word_text wd))))) /\
  find_text_positions (ocr_of_words Fixture.john_doe) (lit "John Doe")
  = Ok (map word_box Fixture.john_doe).
Proof.
  intros nt. split.
  - exists (filter (word_matches nt) ws). split; [|split; [reflexivity|]].
    + unfold nt. rewrite <- normalize_target_filter.
      apply find_text_positions_words.
    + intros wd. now rewrite filter_In, word_matches_spec.
  - reflexivity.
Qed.

(** C1 (as stated) fails on a word whose text is empty: the empty string is
    contained in every target, yet the resolver skips the word. *)
Lemma find_text_positions_skips_empty_word :
  let b := {| x := 0; y := 0; w := 640; h := 480 |} in
  let ws := [ {| word_text := lit ""; word_box := b |} ] in
  let nt := normalize_target (lit "John") in
  filter (bidirectional nt) ws = ws /\
  find_text_positions (ocr_of_words ws) (lit "John") = Ok [] /\
  find_text_positions (ocr_of_words ws) (lit "John")
  <> Ok (map word_box (filter (bidirectional nt) ws)).
Proof.
  cbv zeta. split; [reflexivity|]. split; [reflexivity|].
  vm_compute. discriminate.
Qed.

(** C9: when the target normalizes to the empty string, the resolver
    returns one box for every OCR word whose stripped text is non-empty. *)
Theorem find_text_positions_empty_target (ws : list OCRWord) (t : pystr) :
  normalize_target t = [] ->
  find_text_positions (ocr_of_words ws) t
  = Ok (map word_box (filter (fun wd => truthy (strip (word_text wd))) ws)).
Proof.
  intros Hn.
  rewrite find_text_positions_words, Hn.
  do 2 f_equal. apply filter_ext. intros wd. unfold word_matches.
  now rewrite contains_nil, orb_true_r, andb_true_r.
Qed.

End Resolver.

Lemma find_text_positions_empty_target_witness :
  let ws := [ {| ImageMasker.word_text := lit " Total ";
                 ImageMasker.word_box :=
                   {| ImageMasker.x := 3; ImageMasker.y := 4;
                      ImageMasker.w := 50; ImageMasker.h := 12 |} |};
              {| ImageMasker.word_text := lit "  ";
                 ImageMasker.word_box :=
                   {| ImageMasker.x := 60; ImageMasker.y := 4;
                      ImageMasker.w := 9; ImageMasker.h := 12 |} |} ] in
  ImageMasker.find_text_positions (ImageMasker.ocr_of_words ws) (lit "  ")
  = Ok [ {| ImageMasker.x := 3; ImageMasker.y := 4;
            ImageMasker.w := 50; ImageMasker.h := 12 |} ].
Proof.
  cbv zeta.
  exact (find_text_positions_empty_target _ (lit "  ") eq_refl).
Defined.

(** A target normalizes to the empty string exactly when it is empty or
    consists of whitespace only. *)
Lemma normalize_target_nil_iff (t : pystr) :
  ImageMasker.normalize_target t = [] <-> forallb isspace t = true.
Proof.
  rewrite normalize_target_filter, lower_nil_iff.
  induction t as [|c t IH]; simpl; [tauto|].
  destruct (isspace c); simpl; [exact IH | split; discriminate].
Qed.

(* ================================================================= *)
(** ** Text-span detectors *)

Section Detectors.

Lemma lstrip_nil_iff (s : pystr) : lstrip s = [] <-> forallb isspace s = true.
Proof.
  induction s as [|c s IH]; simpl; [tauto|].
  destruct (isspace c); simpl; [exact IH | split; discriminate].
Qed.

(** [strip] leaves nothing exactly of the empty and the whitespace-only
    strings. *)
Lemma strip_nil_iff (s : pystr) : strip s = [] <-> forallb isspace s = true.
Proof.
  unfold strip, rstrip. split.
  - intros H. apply lstrip_nil_iff.
    destruct (lstrip s) as [|c u] eqn:E; [reflexivity|].
    exfalso.
    assert (Hc : isspace c = false).
    { clear H. induction s as [|d s IH]; simpl in E; [discriminate|].
      destruct (isspace d) eqn:Ed; [auto | congruence]. }
    apply (f_equal (@rev ascii)) in H. rewrite rev_involutive in H.
    simpl in H.
    assert (Hl : forall v, lstrip (v ++ [c]) <> []).
    { induction v as [|d v IHv]; simpl.
      - now rewrite Hc.
      - destruct (isspace d); [exact IHv | discriminate]. }
    exact (Hl _ H).
  - intros H. apply lstrip_nil_iff in H. now rewrite H.
Qed.

Lemma guard_blank (text : pystr) :
  negb (truthy text) || negb (truthy (strip text)) = blank text.
Proof.
  unfold blank. destruct (forallb isspace text) eqn:E.
  - apply strip_nil_iff in E. rewrite E. apply orb_true_r.
  - destruct text as [|c t]; [discriminate|].
    destruct (strip (c :: t)) eqn:Es.
    + apply strip_nil_iff in Es. congruence.
    + reflexivity.
Qed.

(** The CSV and the image analyzer answer an empty or whitespace-only text
    with [[]] and leave the world, hence the call log, as it was. *)
Lemma csv_analyze_text_blank s text language threshold entities wd :
  blank text = true ->
  CSVAnalyzer.analyze_text s text language threshold entities wd = (Ok [], wd).
Proof.
  intros H. unfold CSVAnalyzer.analyze_text. now rewrite guard_blank, H.
Qed.

Lemma image_analyze_text_blank s text language threshold entities wd :
  blank text = true ->
  OptimizedImageAnalyzer.analyze_text s text language threshold entities wd
  = (Ok [], wd).
Proof.
  intros H. unfold OptimizedImageAnalyzer.analyze_text.
  now rewrite guard_blank, H.
Qed.

(** What a detector does on a text that passes its guard. *)
Lemma detect_calls_engine d text language threshold entities wd :
  (match d with PDF _ => true | _ => negb (blank text) end) = true ->
  detect d text language threshold entities wd
  = (match analyze (engine_of d) text language entities (Some threshold) with
     | Ok results => Ok (to_findings text results)
     | Raise e => Raise e
     end, log (CallAnalyze text) wd).
Proof.
  intros H.
  destruct d as [s|s|s]; simpl;
    unfold CSVAnalyzer.analyze_text, OptimizedPDFAnalyzer.analyze_text,
           OptimizedImageAnalyzer.analyze_text;
    rewrite ?guard_blank;
    try (apply negb_true_iff in H; rewrite H);
    unfold bind, call_analyze, ret;
    now destruct (analyze _ text language entities (Some threshold)).
Qed.

(** C4 (the PDF analyzer): [OptimizedPDFAnalyzer.analyze_text] has no guard;
    on the empty text, as on any other, it calls the detection engine and
    returns what the engine answered. *)
Theorem pdf_analyze_text_empty_calls_engine s language threshold entities wd :
  let out := OptimizedPDFAnalyzer.analyze_text s [] language threshold entities wd in
  calls (snd out) = calls wd ++ [CallAnalyze []] /\
  analyze_calls (calls (snd out)) = analyze_calls (calls wd) ++ [[]] /\
  fst out = match analyze (OptimizedPDFAnalyzer.analyzer s) [] language
                          entities (Some threshold) with
            | Ok results => Ok (to_findings [] results)
            | Raise e => Raise e
            end.
Proof.
  cbv zeta.
  pose proof (detect_calls_engine (PDF s) [] language threshold entities wd
                eq_refl) as H.
  cbn [detect engine_of] in H. rewrite H.
  simpl. split; [reflexivity|]. split; [|reflexivity].
  unfold analyze_calls. now rewrite flat_map_app.
Qed.

Lemma slice_in_range (s : pystr) (a b : Z) :
  (0 <= a <= b)%Z -> (b <= Z.of_nat (List.length s))%Z ->
  exists pre post,
    s = pre ++ slice s a b ++ post /\
    Z.of_nat (List.length pre) = a /\
    Z.of_nat (List.length (slice s a b)) = (b - a)%Z.
Proof.
  intros Hab Hb. unfold slice, clamp.
  destruct (Z.ltb_spec a 0); [lia|]. destruct (Z.ltb_spec b 0); [lia|].
  rewrite !Z.min_l by lia.
  exists (firstn (Z.to_nat a) s),
         (skipn (Z.to_nat (b - a)) (skipn (Z.to_nat a) s)).
  split; [|split].
  - now rewrite !firstn_skipn.
  - rewrite length_firstn. lia.
  - rewrite length_firstn, length_skipn. lia.
Qed.

(** C10: every finding that a detect operation returns carries as its text
    the slice of the input text from its start to its end offset; with
    offsets inside the text that is the run of [end - start] characters that
    begins at position [start]. *)
Theorem detect_finding_text d text language threshold entities wd findings wd' :
  detect d text language threshold entities wd = (Ok findings, wd') ->
  forall f, In f findings ->
    f_text f = slice text (f_start f) (f_end f) /\
    ((0 <= f_start f <= f_end f)%Z ->
     (f_end f <= Z.of_nat (List.length text))%Z ->
     exists pre post,
       text = pre ++ f_text f ++ post /\
       Z.of_nat (List.length pre) = f_start f /\
       Z.of_nat (List.length (f_text f)) = (f_end f - f_start f)%Z).
Proof.
  intros Hd f Hf.
  assert (Hs : f_text f = slice text (f_start f) (f_end f)).
  { destruct (match d with PDF _ => true | _ => negb (blank text) end) eqn:G.
    - rewrite (detect_calls_engine d _ _ _ _ _ G) in Hd.
      destruct (analyze _ _ _ _ _) as [results|e]; [|discriminate].
      injection Hd as <- _. unfold to_findings in Hf.
      apply in_map_iff in Hf. destruct Hf as [r [<- _]]. reflexivity.
    - destruct d as [s|s|s]; try discriminate;
        apply negb_false_iff in G; simpl in Hd.
      + rewrite csv_analyze_text_blank in Hd by exact G.
        injection Hd as <- _. destruct Hf.
      + rewrite image_analyze_text_blank in Hd by exact G.
        injection Hd as <- _. destruct Hf. }
  split; [exact Hs|]. intros Hab Hb. rewrite Hs.
  now apply slice_in_range.
Qed.

Lemma detect_finding_text_witness :
  f_text Fixture.john_finding = slice Fixture.contact_line 9 25 /\
  ((0 <= 9 <= 25)%Z ->
   (25 <= Z.of_nat (List.length Fixture.contact_line))%Z ->
   exists pre post,
     Fixture.contact_line = pre ++ f_text Fixture.john_finding ++ post /\
     Z.of_nat (List.length pre) = 9%Z /\
     Z.of_nat (List.length (f_text Fixture.john_finding)) = (25 - 9)%Z).
Proof.
  refine (@detect_finding_text (Image Fixture.image_self) Fixture.contact_line
            en Fixture.threshold None (fresh_world 0%N) [Fixture.john_finding]
            (log (CallAnalyze Fixture.contact_line) (fresh_world 0%N))
            _ Fixture.john_finding _).
  - vm_compute. reflexivity.
  - left. reflexivity.
Defined.

(** The guarded analyzers on a blank text, and the unguarded one. *)
Example blank_text_runs :
  let wd := fresh_world 0%N in
  let pdf := {| OptimizedPDFAnalyzer.analyzer := Fixture.broken_engine;
                OptimizedPDFAnalyzer.anonymizer := Fixture.placeholder_engine |} in
  let img := {| OptimizedImageAnalyzer.analyzer := Fixture.broken_engine;
                OptimizedImageAnalyzer.anonymizer := Fixture.placeholder_engine |} in
  let csv := {| CSVAnalyzer.analyzer := Fixture.broken_engine;
                CSVAnalyzer.anonymizer := Fixture.placeholder_engine |} in
  detect (CSV csv) (lit "  ") en Fixture.threshold None wd = (Ok [], wd) /\
  detect (Image img) (lit "  ") en Fixture.threshold None wd = (Ok [], wd) /\
  detect (PDF pdf) (lit "  ") en Fixture.threshold None wd
  = (Raise (EngineException "model not loaded"),
     log (CallAnalyze (lit "  ")) wd).
Proof. repeat split. Qed.

End Detectors.

(* ================================================================= *)
(** ** The effect monad *)

Section MonadFacts.

Lemma bind_ok {A B} (m : M A) (k : A -> M B) wd b wd' :
  bind m k wd = (Ok b, wd') ->
  exists a wd1, m wd = (Ok a, wd1) /\ k a wd1 = (Ok b, wd').
Proof.
  unfold bind. destruct (m wd) as [[a|e] wd1]; [eauto | discriminate].
Qed.

Lemma bind_raise {A B} (m : M A) (k : A -> M B) wd e wd' :
  m wd = (Raise e, wd') -> bind m k wd = (Raise e, wd').
Proof. unfold bind. now intros ->. Qed.

Lemma bind_step {A B} (m : M A) (k : A -> M B) wd a wd1 :
  m wd = (Ok a, wd1) -> bind m k wd = k a wd1.
Proof. unfold bind. now intros ->. Qed.

Lemma for_each_seq_inv {S} (body : nat -> S -> M S) (P : nat -> S -> Prop)
  (n : nat) :
  forall a acc wd accf wdf,
    (forall k x x' w0 w1, a <= k < a + n -> P k x ->
       body k x w0 = (Ok x', w1) -> P (Datatypes.S k) x') ->
    P a acc ->
    CSVAnalyzer.for_each (seq a n) body acc wd = (Ok accf, wdf) ->
    P (a + n) accf.
Proof.
  induction n as [|n IH]; intros a acc wd accf wdf Hstep Ha Hrun.
  - simpl in Hrun. injection Hrun as <- _. now rewrite Nat.add_0_r.
  - simpl in Hrun. apply bind_ok in Hrun.
    destruct Hrun as [acc1 [wd1 [Hb Hrest]]].
    replace (a + Datatypes.S n) with (Datatypes.S a + n) by lia.
    eapply IH; [| |exact Hrest].
    + intros k x x' w0 w1 Hk. apply Hstep. lia.
    + eapply Hstep; [|exact Ha|exact Hb]. lia.
Qed.

Lemma for_each_seq_total {S} (body : nat -> S -> M S) (P : nat -> S -> Prop)
  (n : nat) :
  forall a acc wd,
    (forall k x w0, a <= k < a + n -> P k x ->
       exists x' w1, body k x w0 = (Ok x', w1) /\ P (Datatypes.S k) x') ->
    P a acc ->
    exists accf wdf,
      CSVAnalyzer.for_each (seq a n) body acc wd = (Ok accf, wdf) /\
      P (a + n) accf.
Proof.
  induction n as [|n IH]; intros a acc wd Hstep Ha.
  - exists acc, wd. split; [reflexivity|]. now rewrite Nat.add_0_r.
  - destruct (Hstep a acc wd ltac:(lia) Ha) as [x' [w1 [Hb Hp]]].
    destruct (IH (Datatypes.S a) x' w1) as [accf [wdf [Hrun Hend]]].
    + intros k x w0 Hk. apply Hstep. lia.
    + exact Hp.
    + exists accf, wdf. split.
      * cbn [seq CSVAnalyzer.for_each]. erewrite bind_step by exact Hb.
        exact Hrun.
      * now replace (a + Datatypes.S n) with (Datatypes.S a + n) by lia.
Qed.

End MonadFacts.

(* ================================================================= *)
(** ** CSV redaction *)

Section CsvRedaction.
Import CSVAnalyzer.

Lemma set_nth_length {A} (l : list A) n a :
  List.length (set_nth l n a) = List.length l.
Proof.
  revert n; induction l as [|b l IH]; intros [|n]; simpl; auto.
Qed.

Lemma nth_set_nth {A} (l : list A) n m a d :
  nth m (set_nth l n a) d
  = if (m =? n) && (n <? List.length l) then a else nth m l d.
Proof.
  revert n m; induction l as [|b l IH]; intros [|n] [|m]; simpl; auto;
    rewrite ?andb_false_r; auto.
Qed.

Lemma set_nth_same {A} (l : list A) n d : set_nth l n (nth n l d) = l.
Proof.
  revert n; induction l as [|b l IH]; intros [|n]; simpl; auto.
  now rewrite IH.
Qed.

Lemma at_set_same rs i j : at_set rs i j (at_get rs i j) = rs.
Proof.
  unfold at_set, at_get. now rewrite set_nth_same, set_nth_same.
Qed.

Lemma at_set_shape rs i j v :
  map (@List.length cell) (at_set rs i j v) = map (@List.length cell) rs.
Proof.
  unfold at_set. apply nth_ext with (d := 0) (d' := 0).
  - now rewrite !length_map, set_nth_length.
  - intros k _.
    change 0 with (List.length (@nil cell)).
    rewrite !map_nth, nth_set_nth.
    destruct ((k =? i) && (i <? List.length rs)) eqn:E; [|reflexivity].
    apply andb_true_iff in E. destruct E as [E _].
    apply Nat.eqb_eq in E. subst k. apply set_nth_length.
Qed.

Lemma at_get_at_set rs i j v i' j' :
  i < List.length rs -> j < List.length (nth i rs []) ->
  at_get (at_set rs i j v) i' j'
  = if (i' =? i) && (j' =? j) then v else at_get rs i' j'.
Proof.
  intros Hi Hj. unfold at_get, at_set. rewrite nth_set_nth.
  apply Nat.ltb_lt in Hi. rewrite Hi, andb_true_r.
  destruct (Nat.eqb_spec i' i) as [->|Hne]; simpl; [|reflexivity].
  rewrite nth_set_nth. apply Nat.ltb_lt in Hj. now rewrite Hj, andb_true_r.
Qed.

Variable s : self.
Variable threshold : Q.
Variable entities : option (list pystr).

Lemma analyze_text_run text wd :
  analyze_text s text en threshold entities wd
  = if negb (truthy text) || negb (truthy (strip text)) then (Ok [], wd)
    else (match analyze (analyzer s) text en entities (Some threshold) with
          | Ok results => Ok (to_findings text results)
          | Raise e => Raise e
          end, log (CallAnalyze text) wd).
Proof.
  unfold analyze_text.
  destruct (negb (truthy text) || negb (truthy (strip text))); [reflexivity|].
  unfold bind, call_analyze, ret.
  now destruct (analyze _ _ _ _ _).
Qed.

(** One turn of the inner loop writes into its cell what [redact_cell] says
    and touches no other cell. *)
Lemma anonymize_cell_ok j i rs wd rs' wd' :
  anonymize_cell s threshold entities j i rs wd = (Ok rs', wd') ->
  exists v', redact_cell s threshold entities (at_get rs i j) = Ok v' /\
             rs' = at_set rs i j v'.
Proof.
  unfold anonymize_cell, redact_cell.
  destruct (notna (at_get rs i j)).
  2:{ intros H. injection H as <- _. eexists. split; [reflexivity|].
      now rewrite at_set_same. }
  intros H. apply bind_ok in H. destruct H as [found [wd1 [Ha Hk]]].
  rewrite analyze_text_run in Ha.
  destruct (negb (truthy _) || negb (truthy _)).
  - injection Ha as <- <-. injection Hk as <- _.
    eexists. split; [reflexivity|]. now rewrite at_set_same.
  - destruct (analyze _ _ _ _ _) as [results|e]; [|discriminate].
    injection Ha as <- <-.
    destruct (to_findings _ results) as [|f fs].
    + injection Hk as <- _. eexists. split; [reflexivity|].
      now rewrite at_set_same.
    + apply bind_ok in Hk. destruct Hk as [t [wd2 [Hz Hr]]].
      unfold call_anonymize in Hz. injection Hz as Hz _.
      unfold to_recognizer_results in Hz |- *. cbn [map] in Hz |- *.
      rewrite Hz.
      unfold lift, at_set_str in Hr.
      destruct (holds_str rs j); [|discriminate Hr].
      injection Hr as <- _. eexists. split; reflexivity.
Qed.

Variable df : DataFrame.
Hypothesis df_rect : rectangular df.

Let nrows := List.length (rows df).
Let ncols := List.length (columns df).

Let progress := CSVAnalyzer.progress s threshold entities df.

Lemma progress_ext v1 v2 rs :
  (forall i j, i < nrows -> j < ncols -> v1 i j = v2 i j) ->
  progress v1 rs -> progress v2 rs.
Proof.
  intros He [Hs Hc]. split; [exact Hs|].
  intros i j Hi Hj. rewrite <- (He i j Hi Hj). now apply Hc.
Qed.

Lemma row_length rs i :
  map (@List.length cell) rs = map (@List.length cell) (rows df) ->
  i < nrows ->
  i < List.length rs /\ List.length (nth i rs []) = ncols.
Proof.
  intros Hs Hi. destruct df_rect as [_ Hall].
  assert (Hl : List.length rs = nrows).
  { apply (f_equal (@List.length nat)) in Hs. now rewrite !length_map in Hs. }
  split; [lia|].
  apply (f_equal (fun l => nth i l 0)) in Hs.
  change 0 with (List.length (@nil cell)) in Hs.
  rewrite !map_nth in Hs. rewrite Hs.
  rewrite Forall_forall in Hall. apply Hall, nth_In. exact Hi.
Qed.

Lemma progress_step j i rs v' :
  i < nrows -> j < ncols ->
  progress (fun i' j' => (j' <? j) || ((j' =? j) && (i' <? i))) rs ->
  redact_cell s threshold entities (at_get rs i j) = Ok v' ->
  progress (fun i' j' => (j' <? j) || ((j' =? j) && (i' <? Datatypes.S i)))
           (at_set rs i j v').
Proof.
  intros Hi Hj [Hs Hc] Hv.
  destruct (row_length rs Hs Hi) as [Hix Hlen].
  split; [now rewrite at_set_shape|].
  intros i' j' Hi' Hj'.
  rewrite at_get_at_set by lia.
  specialize (Hc i' j' Hi' Hj').
  destruct (Nat.eqb_spec i' i) as [Ei|Hne];
    destruct (Nat.eqb_spec j' j) as [Ej|Hnj]; simpl;
    rewrite ?andb_false_r, ?orb_false_r in *.
  - rewrite Ei, Ej in *. rewrite Nat.ltb_irrefl in *. simpl in *.
    replace (i <? Datatypes.S i) with true
      by (symmetry; apply Nat.ltb_lt; lia).
    rewrite Nat.ltb_irrefl in Hc. now rewrite <- Hc.
  - exact Hc.
  - rewrite Ej in *. rewrite Nat.ltb_irrefl in *. simpl in *.
    replace (i' <? Datatypes.S i) with (i' <? i); [exact Hc|].
    destruct (Nat.ltb_spec i' i), (Nat.ltb_spec i' (Datatypes.S i));
      auto; lia.
  - exact Hc.
Qed.

Lemma inner_loop_progress j rs wd rs' wd' :
  j < ncols ->
  progress (fun _ j' => j' <? j) rs ->
  for_each (seq 0 (List.length (index df)))
    (anonymize_cell s threshold entities j) rs wd = (Ok rs', wd') ->
  progress (fun _ j' => j' <? Datatypes.S j) rs'.
Proof.
  intros Hj Hp Hrun.
  assert (Hn : List.length (index df) = nrows) by apply df_rect.
  rewrite Hn in Hrun.
  pose (P := fun i => progress (fun i' j' => (j' <? j) || ((j' =? j) && (i' <? i)))).
  assert (Hend : P (0 + nrows) rs').
  { eapply (for_each_seq_inv _ P); [| |exact Hrun].
    - intros i x x' w0 w1 Hi [Hs Hc] Hb.
      apply anonymize_cell_ok in Hb. destruct Hb as [v' [Hv ->]].
      destruct (row_length x Hs (proj2 Hi)) as [Hix Hlen].
      split; [now rewrite at_set_shape|].
      intros i' j' Hi' Hj'. rewrite at_get_at_set by lia.
      specialize (Hc i' j' Hi' Hj').
      destruct (Nat.eqb_spec i' i) as [Ei|Hne];
        destruct (Nat.eqb_spec j' j) as [Ej|Hnj]; simpl;
        rewrite ?andb_false_r, ?orb_false_r in *.
      + rewrite Ei, Ej in *. rewrite Nat.ltb_irrefl in *. simpl in *.
        replace (i <? Datatypes.S i) with true
          by (symmetry; apply Nat.ltb_lt; lia).
        rewrite Nat.ltb_irrefl in Hc. now rewrite <- Hc.
      + exact Hc.
      + rewrite Ej in *. rewrite Nat.ltb_irrefl in *. simpl in *.
        replace (i' <? Datatypes.S i) with (i' <? i); [exact Hc|].
        destruct (Nat.ltb_spec i' i), (Nat.ltb_spec i' (Datatypes.S i));
          auto; lia.
      + exact Hc.
    - unfold P. eapply progress_ext; [|exact Hp].
      intros i' j' _ _. simpl. now rewrite andb_false_r, orb_false_r. }
  unfold P in Hend. eapply progress_ext; [|exact Hend].
  intros i' j' Hi' _. simpl.
  apply Nat.ltb_lt in Hi'. rewrite Hi', andb_true_r.
  destruct (Nat.ltb_spec j' j), (Nat.eqb_spec j' j),
    (Nat.ltb_spec j' (Datatypes.S j)); simpl; auto; lia.
Qed.

Lemma Forall2_nth_intro {A B} (R : A -> B -> Prop) (l : list A) (l' : list B)
  d d' :
  List.length l = List.length l' ->
  (forall i, i < List.length l -> R (nth i l d) (nth i l' d')) ->
  Forall2 R l l'.
Proof.
  revert l'; induction l as [|a l IH]; intros [|b l'] Hl Hn;
    try discriminate; constructor.
  - apply (Hn 0). simpl. lia.
  - apply IH; [simpl in Hl; lia|].
    intros i Hi. apply (Hn (Datatypes.S i)). simpl. lia.
Qed.

(** [anonymize_dataframe], when it returns, returns the frame with the same
    labels in which every cell is the redaction of the cell it replaces. *)
Lemma anonymize_dataframe_cells wd df' wd' :
  anonymize_dataframe s df threshold entities wd = (Ok df', wd') ->
  columns df' = columns df /\ index df' = index df /\
  Forall2 (Forall2 (fun v v' => redact_cell s threshold entities v = Ok v'))
          (rows df) (rows df').
Proof.
  unfold anonymize_dataframe. intros H.
  apply bind_ok in H. destruct H as [rs [wd1 [Hrun Hret]]].
  injection Hret as <- _. simpl. split; [reflexivity|]. split; [reflexivity|].
  pose (Done := fun j => progress (fun _ j' => j' <? j)).
  assert (Hend : Done (0 + ncols) rs).
  { eapply (for_each_seq_inv _ Done); [| |exact Hrun].
    - intros j x x' w0 w1 Hj Hq Hb. cbv beta in Hb.
      eapply inner_loop_progress; [lia | exact Hq | exact Hb].
    - split; [reflexivity|]. intros i j _ _. reflexivity. }
  destruct Hend as [Hs Hc]. simpl in Hc.
  assert (Hl : List.length rs = nrows).
  { apply (f_equal (@List.length nat)) in Hs. now rewrite !length_map in Hs. }
  apply Forall2_nth_intro with (d := []) (d' := []); [now rewrite Hl|].
  intros i Hi.
  destruct (row_length rs Hs Hi) as [_ Hlen].
  destruct (row_length (rows df) eq_refl Hi) as [_ Hlen0].
  apply Forall2_nth_intro with (d := NaN) (d' := NaN); [congruence|].
  intros j Hj. rewrite Hlen0 in Hj.
  specialize (Hc i j Hi Hj). apply Nat.ltb_lt in Hj. rewrite Hj in Hc.
  exact Hc.
Qed.

End CsvRedaction.

Section CsvSteps.
Import CSVAnalyzer.

Lemma Forall2_length_eq {A B} (R : A -> B -> Prop) l l' :
  Forall2 R l l' -> List.length l = List.length l'.
Proof. induction 1; simpl; congruence. Qed.

Lemma Forall2_nth_error {A B} (R : A -> B -> Prop) l l' i a :
  Forall2 R l l' -> nth_error l i = Some a ->
  exists b, nth_error l' i = Some b /\ R a b.
Proof.
  intros H; revert i; induction H as [|x y l l' Hxy H IH]; intros [|i] Hi;
    simpl in *; try discriminate.
  - injection Hi as <-. eauto.
  - now apply IH.
Qed.

(** What [analyze_csv] writes when redaction is requested with an output
    path: the redaction of the whole frame it was given. *)
Lemma analyze_csv_written s np df path sample_size threshold entities
  wd res wd' :
  truthy path = true ->
  analyze_csv s np df true (Some path) sample_size threshold entities wd
  = (Ok res, wd') ->
  exists df' w0 w1,
    anonymize_dataframe s df threshold entities w0 = (Ok df', w1) /\
    anonymized_file res = Some (path, to_csv df').
Proof.
  intros Hp H. unfold analyze_csv in H.
  apply bind_ok in H. destruct H as [an [w0 [_ H]]].
  apply bind_ok in H. destruct H as [df' [w1 [Ha H]]].
  rewrite Hp in H. injection H as <- _. simpl. eauto.
Qed.

(** The sampling step with the sample size absent, zero, or not below the
    row count: all rows, no sampling, and the world untouched. *)
Lemma select_rows_all np df sample_size wd :
  match sample_size with
  | None => True
  | Some n => n = 0%Z \/ (Z.of_nat (len df) <= n)%Z
  end ->
  select_rows np df sample_size wd = (Ok (df, false), wd).
Proof.
  unfold select_rows. destruct sample_size as [n|]; [|reflexivity].
  intros [->|H]; [reflexivity|].
  destruct (Z.ltb_spec n (Z.of_nat (len df))); [lia|].
  now rewrite andb_false_r.
Qed.

(** The sampling step with a positive sample size below the row count: the
    rows that numpy chooses from a generator seeded with 42. *)
Lemma select_rows_sampled np df n wd :
  (0 < n < Z.of_nat (len df))%Z ->
  select_rows np df (Some n) wd
  = (Ok (take df (fst (choice np (seeded np 42) (len df) (Z.to_nat n))), true),
     wd).
Proof.
  intros H. unfold select_rows, sample, bind, ret.
  destruct (Z.eqb_spec n 0); [lia|].
  destruct (Z.ltb_spec n (Z.of_nat (len df))); [|lia]. simpl.
  destruct (Z.ltb_spec n 0); [lia|].
  destruct (Z.ltb_spec (Z.of_nat (len df)) n); [lia|].
  now destruct (choice np _ _ _).
Qed.

(** The outcome of the sampling step does not depend on the world it runs
    in, and the step leaves the world as it found it. *)
Lemma select_rows_world np df sample_size wd1 wd2 :
  fst (select_rows np df sample_size wd1) = fst (select_rows np df sample_size wd2)
  /\ snd (select_rows np df sample_size wd1) = wd1.
Proof.
  unfold select_rows. destruct sample_size as [n|]; [|split; reflexivity].
  destruct (negb (n =? 0)%Z && (n <? Z.of_nat (len df))%Z);
    [|split; reflexivity].
  unfold bind, sample, ret.
  destruct (n <? 0)%Z; [split; reflexivity|].
  destruct (Z.of_nat (len df) <? n)%Z; [split; reflexivity|].
  destruct (choice np _ _ _). split; reflexivity.
Qed.

Lemma for_each_returns {A S} (body : A -> S -> M S) :
  (forall a acc wd, exists acc' wd', body a acc wd = (Ok acc', wd')) ->
  forall l acc wd, exists acc' wd', for_each l body acc wd = (Ok acc', wd').
Proof.
  intros Hb. induction l as [|a l IH]; intros acc wd; simpl.
  - unfold ret. eauto.
  - destruct (Hb a acc wd) as [acc1 [wd1 H1]].
    erewrite bind_step by exact H1. apply IH.
Qed.

Lemma analyze_text_returns s text threshold entities wd :
  never_raises s ->
  exists found wd',
    analyze_text s text en threshold entities wd = (Ok found, wd').
Proof.
  intros [Ha _]. rewrite analyze_text_run.
  destruct (negb (truthy text) || negb (truthy (strip text))); [eauto|].
  destruct (Ha text en entities (Some threshold)) as [results ->]. eauto.
Qed.

End CsvSteps.

(** Redaction returns when the engines answer and every assignment is
    accepted. *)
Section RedactionReturns.
Import CSVAnalyzer.

Variable s : self.
Variable threshold : Q.
Variable entities : option (list pystr).
Variable df : DataFrame.
Hypothesis df_rect : rectangular df.
Hypothesis engines : never_raises s.
Hypothesis df_writable : writable s threshold entities df.

Let nrows := List.length (rows df).
Let ncols := List.length (columns df).
Let progress := CSVAnalyzer.progress s threshold entities df.

(** The redaction of a string is a string. *)
Lemma redact_cell_str v v' :
  is_str v = true -> redact_cell s threshold entities v = Ok v' ->
  is_str v' = true.
Proof.
  destruct v as [|z|t]; try discriminate. intros _.
  unfold redact_cell. cbn [notna str].
  destruct (negb (truthy t) || negb (truthy (strip t)));
    [intros H; now injection H as <-|].
  destruct (analyze _ _ _ _ _) as [results|e]; [|discriminate].
  destruct (to_findings t results) as [|f fs];
    [intros H; now injection H as <-|].
  destruct (anonymize _ _ _) as [a|e]; [|discriminate].
  intros H. now injection H as <-.
Qed.

Lemma holds_str_intro rs i j :
  i < List.length rs -> is_str (at_get rs i j) = true -> holds_str rs j = true.
Proof.
  intros Hi Hs. unfold holds_str. apply existsb_exists.
  exists (nth i rs []). split; [now apply nth_In|exact Hs].
Qed.

Lemma holds_str_elim rs j :
  holds_str rs j = true ->
  exists i, i < List.length rs /\ is_str (at_get rs i j) = true.
Proof.
  unfold holds_str. intros H. apply existsb_exists in H.
  destruct H as [r [Hin Hs]].
  destruct (In_nth _ _ [] Hin) as [i [Hi Hr]].
  exists i. split; [exact Hi|]. unfold at_get. now rewrite Hr.
Qed.

(** A column that holds strings keeps holding them while the loops run. *)
Lemma progress_holds_str visited rs j :
  j < ncols -> progress visited rs -> holds_str (rows df) j = true ->
  holds_str rs j = true.
Proof.
  intros Hj [Hs Hc] H. apply holds_str_elim in H. destruct H as [i [Hi Hstr]].
  destruct (row_length df_rect rs Hs Hi) as [Hix _].
  apply holds_str_intro with (i := i); [exact Hix|].
  specialize (Hc i j Hi Hj). destruct (visited i j).
  - eapply redact_cell_str; [exact Hstr|exact Hc].
  - now rewrite Hc.
Qed.

Lemma anonymize_cell_returns j i rs wd :
  i < nrows -> j < ncols ->
  progress (fun i' j' => (j' <? j) || ((j' =? j) && (i' <? i))) rs ->
  exists rs' wd',
    anonymize_cell s threshold entities j i rs wd = (Ok rs', wd').
Proof.
  intros Hi Hj Hp. pose proof Hp as [Hs Hc]. specialize (Hc i j Hi Hj).
  rewrite !Nat.ltb_irrefl, andb_false_r in Hc. cbn [orb] in Hc.
  unfold anonymize_cell.
  destruct (notna (at_get rs i j)) eqn:Hn; [|unfold ret; eauto].
  destruct (analyze_text_returns (str (at_get rs i j)) threshold entities wd
              engines) as [found [w1 Hf]].
  erewrite bind_step by exact Hf.
  destruct found as [|f fs]; [unfold ret; eauto|].
  destruct engines as [_ Hz].
  destruct (Hz (str (at_get rs i j)) (to_recognizer_results (f :: fs)))
    as [t Ht].
  unfold bind, call_anonymize, lift, at_set_str. rewrite Ht.
  assert (Hh : holds_str rs j = true).
  { destruct (is_str (at_get rs i j)) eqn:Es.
    - destruct (row_length df_rect rs Hs Hi) as [Hix _].
      now apply holds_str_intro with (i := i).
    - apply progress_holds_str with (visited :=
        fun i' j' => (j' <? j) || ((j' =? j) && (i' <? i)));
        [exact Hj|exact Hp|].
      apply (df_writable Hi Hj). rewrite <- Hc.
      rewrite analyze_text_run in Hf. unfold redact_cell. rewrite Hn.
      destruct (negb (truthy _) || negb (truthy _)); [discriminate Hf|].
      destruct (analyze _ _ _ _ _) as [results|e]; [|discriminate Hf].
      injection Hf as Hf _. rewrite Hf, Ht.
      intros Heq. injection Heq as Heq. rewrite <- Heq in Es.
      discriminate Es. }
  rewrite Hh. eauto.
Qed.

Lemma inner_loop_returns j rs wd :
  j < ncols -> progress (fun _ j' => j' <? j) rs ->
  exists rs' wd',
    for_each (seq 0 (List.length (index df)))
      (anonymize_cell s threshold entities j) rs wd = (Ok rs', wd').
Proof.
  intros Hj Hp.
  assert (Hn : List.length (index df) = nrows) by apply df_rect.
  rewrite Hn.
  destruct (@for_each_seq_total _ (anonymize_cell s threshold entities j)
              (fun i => progress (fun i' j' =>
                          (j' <? j) || ((j' =? j) && (i' <? i))))
              nrows 0 rs wd) as [rs' [wd' [Hrun _]]].
  - intros i x w0 Hi Hx.
    destruct (@anonymize_cell_returns j i x w0 (proj2 Hi) Hj Hx)
      as [x' [w1 Hb]].
    exists x', w1. split; [exact Hb|].
    apply anonymize_cell_ok in Hb. destruct Hb as [v' [Hv ->]].
    apply (progress_step df_rect); [exact (proj2 Hi)|exact Hj|exact Hx|exact Hv].
  - eapply progress_ext; [|exact Hp].
    intros i' j' _ _. simpl. now rewrite andb_false_r, orb_false_r.
  - eauto.
Qed.

Lemma anonymize_dataframe_returns wd :
  exists df' wd',
    anonymize_dataframe s df threshold entities wd = (Ok df', wd').
Proof.
  unfold anonymize_dataframe.
  destruct (@for_each_seq_total _
              (fun j => for_each (seq 0 (List.length (index df)))
                          (anonymize_cell s threshold entities j))
              (fun j => progress (fun _ j' => j' <? j))
              ncols 0 (rows df) wd) as [rs [wd' [Hrun _]]].
  - intros j x w0 Hj Hx.
    destruct (@inner_loop_returns j x w0 (proj2 Hj) Hx) as [x' [w1 Hb]].
    exists x', w1. split; [exact Hb|].
    exact (@inner_loop_progress s threshold entities df df_rect j x w0 x' w1
             (proj2 Hj) Hx Hb).
  - split; [reflexivity|]. intros i j _ _. reflexivity.
  - erewrite bind_step by exact Hrun. unfold ret. eauto.
Qed.

End RedactionReturns.

Section CsvClaims.
Import CSVAnalyzer.

Lemma scan_column_returns s threshold entities labels enumerated column_pii wd :
  never_raises s ->
  Forall (fun p => fst p < List.length labels) enumerated ->
  exists items wd',
    scan_column s threshold entities labels enumerated column_pii wd
    = (Ok items, wd').
Proof.
  intros Hs H. revert column_pii wd.
  induction H as [|[idx v] rest Hidx Hrest IH]; intros column_pii wd; simpl.
  - unfold ret. eauto.
  - destruct (notna v); [|apply IH].
    destruct (analyze_text_returns (str v) threshold entities wd Hs)
      as [found [w1 Hf]].
    erewrite bind_step by exact Hf.
    destruct found as [|f fs]; [apply IH|].
    simpl in Hidx. apply nth_error_Some in Hidx.
    destruct (nth_error labels idx); [apply IH|congruence].
Qed.

Lemma enumerate_bound {A} (l : list A) :
  Forall (fun p => fst p < List.length l) (enumerate l).
Proof.
  apply Forall_forall. intros [i a] Hin. unfold enumerate in Hin.
  apply in_combine_l in Hin. apply in_seq in Hin. simpl. lia.
Qed.

Lemma scan_columns_returns s threshold entities d cols acc wd :
  never_raises s ->
  List.length (index d) = List.length (rows d) ->
  exists results wd',
    scan_columns s threshold entities d cols acc wd = (Ok results, wd').
Proof.
  intros Hs Hlen. revert acc wd.
  induction cols as [|[j column] rest IH]; intros acc wd; simpl.
  - unfold ret. eauto.
  - destruct (@scan_column_returns s threshold entities (index d)
                (enumerate (column_values d j)) [] wd Hs) as [items [w1 Hc]].
    { rewrite Hlen.
      replace (List.length (rows d)) with (List.length (column_values d j))
        by apply length_map.
      apply enumerate_bound. }
    erewrite bind_step by exact Hc. apply IH.
Qed.

Lemma select_rows_returns np df sample_size wd :
  sample_size_ok sample_size ->
  List.length (index df) = List.length (rows df) ->
  exists d sampled,
    select_rows np df sample_size wd = (Ok (d, sampled), wd) /\
    List.length (index d) = List.length (rows d).
Proof.
  intros Hok Hlen. destruct sample_size as [n|].
  - simpl in Hok.
    destruct (Z.eq_dec n 0) as [->|Hn].
    { exists df, false. split; [|exact Hlen].
      apply select_rows_all. now left. }
    destruct (Z_lt_le_dec n (Z.of_nat (len df))) as [Hlt|Hge].
    + eexists _, true. split; [apply select_rows_sampled; lia|].
      unfold take. cbn [index rows]. now rewrite !length_map.
    + exists df, false. split; [|exact Hlen].
      apply select_rows_all. now right.
  - exists df, false. split; [reflexivity|exact Hlen].
Qed.

(** With engines that answer every call and a sample size that pandas
    accepts, [analyze_csv] returns. *)
Lemma analyze_csv_returns s np df anonymize output_path sample_size threshold
  entities wd :
  never_raises s -> sample_size_ok sample_size -> rectangular df ->
  (anonymize = true -> writable s threshold entities df) ->
  exists res wd',
    analyze_csv s np df anonymize output_path sample_size threshold entities wd
    = (Ok res, wd').
Proof.
  intros Hs Hok Hrect Hw. pose proof Hrect as [Hlen _].
  destruct (select_rows_returns np df sample_size wd Hok Hlen)
    as [d [sampled [Hsel Hd]]].
  destruct (@scan_columns_returns s threshold entities d
              (enumerate (columns d)) [] wd Hs Hd) as [results [w1 Hscan]].
  assert (Han : exists an,
             analyze_dataframe s np df sample_size threshold entities wd
             = (Ok an, w1)).
  { unfold analyze_dataframe. erewrite bind_step by exact Hsel.
    cbv beta iota. erewrite bind_step by exact Hscan.
    unfold ret. eauto. }
  destruct Han as [an Han].
  unfold analyze_csv. erewrite bind_step by exact Han.
  destruct anonymize; [|unfold ret; eauto].
  destruct (@anonymize_dataframe_returns s threshold entities df Hrect Hs
              (Hw eq_refl) w1) as [df' [w2 Ha]].
  erewrite bind_step by exact Ha. unfold ret. eauto.
Qed.

Lemma csv_self_never_raises : never_raises Fixture.csv_self.
Proof. split; intros; eexists; reflexivity. Qed.

Lemma contacts_rectangular : rectangular Fixture.contacts.
Proof. split; [reflexivity|]. repeat constructor. Qed.

Lemma contacts_writable :
  writable Fixture.csv_self Fixture.threshold None Fixture.contacts.
Proof.
  intros i j Hi Hj H. destruct j as [|[|j]]; [|reflexivity|simpl in Hj; lia].
  exfalso. apply H.
  destruct i as [|[|[|i]]]; [reflexivity..|simpl in Hi; lia].
Qed.



(** A finding in a column of numbers: the assignment of the anonymized
    text is refused and the redaction ends with [TypeError], after both
    engines were called. *)
Example numeric_column_refuses_text :
  anonymize_dataframe
    {| analyzer := Fixture.id_engine; anonymizer := Fixture.placeholder_engine |}
    Fixture.badges Fixture.threshold None (fresh_world 0%N)
  = (Raise TypeError,
     log (CallAnonymize (lit "7")) (log (CallAnalyze (lit "7"))
                                        (fresh_world 0%N))).
Proof. reflexivity. Qed.

(** A missing cell, and a cell in which the engine finds nothing, is its own
    redaction. *)
Lemma redact_cell_no_findings s threshold entities v :
  notna v = false \/
  analyze (analyzer s) (str v) en entities (Some threshold) = Ok [] ->
  redact_cell s threshold entities v = Ok v.
Proof.
  unfold redact_cell. intros [->| ->]; [reflexivity|].
  destruct (notna v); [|reflexivity].
  now destruct (negb (truthy (str v)) || negb (truthy (strip (str v)))).
Qed.



Lemma subscribers_rectangular : rectangular Fixture.subscribers.
Proof. split; [reflexivity|]. repeat constructor. Qed.

Lemma subscribers_writable :
  writable Fixture.csv_self Fixture.threshold None Fixture.subscribers.
Proof.
  intros i j Hi Hj _. destruct j as [|j]; [reflexivity|simpl in Hj; lia].
Qed.

(** Two positions leave one of three rows out. *)
Lemma outside_two (l : list nat) :
  List.length l = 2 -> exists i, i < 3 /\ ~ In i l.
Proof.
  destruct l as [|a [|b [|c l]]]; try discriminate. intros _.
  destruct (in_dec Nat.eq_dec 0 [a; b]) as [H0|H0];
    [|exists 0; split; [lia|exact H0]].
  destruct (in_dec Nat.eq_dec 1 [a; b]) as [H1|H1];
    [|exists 1; split; [lia|exact H1]].
  exists 2. split; [lia|]. intros H2. simpl in H0, H1, H2. lia.
Qed.


(** C6: the sampling step of [analyze_dataframe] samples only when the row
    count strictly exceeds the sample size; it then takes the rows that the
    generator seeded with 42 chooses; and two runs on the same table with
    the same sample size, in whatever state numpy's global generator and
    the rest of the process are, select the same rows. *)
Theorem sampling_is_deterministic np df sample_size :
  (forall wd df_to_analyze wd',
     select_rows np df sample_size wd = (Ok (df_to_analyze, true), wd') ->
     exists n, sample_size = Some n /\ (n < Z.of_nat (len df))%Z /\
       df_to_analyze
       = take df (fst (choice np (seeded np 42) (len df) (Z.to_nat n)))) /\
  (forall n wd, sample_size = Some n -> (0 < n < Z.of_nat (len df))%Z ->
     select_rows np df sample_size wd
     = (Ok (take df (fst (choice np (seeded np 42) (len df) (Z.to_nat n))),
            true), wd)) /\
  (forall wd1 wd2,
     fst (select_rows np df sample_size wd1)
     = fst (select_rows np df sample_size wd2)).
Proof.
  split; [|split].
  - intros wd d wd' H. destruct sample_size as [n|].
    + destruct (Z.eq_dec n 0) as [->|Hn0].
      { rewrite select_rows_all in H by (left; reflexivity). discriminate. }
      destruct (Z_lt_le_dec n (Z.of_nat (len df))) as [Hlt|Hge].
      * exists n. split; [reflexivity|]. split; [exact Hlt|].
        destruct (Z_lt_le_dec n 0) as [Hneg|Hpos].
        -- unfold select_rows, sample, bind in H.
           destruct (Z.eqb_spec n 0); [lia|].
           destruct (Z.ltb_spec n (Z.of_nat (len df))); [|lia]. simpl in H.
           destruct (Z.ltb_spec n 0); [discriminate|lia].
        -- rewrite select_rows_sampled in H by lia. now injection H as <- _.
      * rewrite select_rows_all in H by (right; exact Hge). discriminate.
    + discriminate.
  - intros n wd -> H. now apply select_rows_sampled.
  - intros wd1 wd2. apply select_rows_world.
Qed.

Lemma sampling_is_deterministic_witness :
  select_rows Fixture.numpy Fixture.contacts (Some 2%Z) (fresh_world 7%N)
  = (Ok ({| columns := [lit "id"; lit "email"];
            index := [2%Z; 1%Z];
            rows := [ [CInt 3; NaN];
                      [CInt 2; CStr (lit "bob@example.com")] ] |}, true),
     fresh_world 7%N).
Proof.
  exact (proj1 (proj2 (sampling_is_deterministic Fixture.numpy
                         Fixture.contacts (Some 2%Z)))
           2%Z (fresh_world 7%N) eq_refl (conj eq_refl eq_refl)).
Defined.

End CsvClaims.

(* ================================================================= *)
(** ** PDF re-render *)

Section PdfReflow.
Import PDFMasker PDFSpec.

Lemma split_from_nonempty sep skip s : split_from sep skip s <> [].
Proof.
  revert skip; induction s as [|c s IH]; intros skip; simpl; [discriminate|].
  destruct skip; [|apply IH].
  destruct (prefixb sep (c :: s)); [discriminate|].
  specialize (IH 0). destruct (split_from sep 0 s); [congruence|discriminate].
Qed.

Lemma join_cons sep p l :
  l <> [] -> join sep (p :: l) = p ++ sep ++ join sep l.
Proof. destruct l; [congruence|reflexivity]. Qed.

Lemma join_add_to_head sep c l :
  l <> [] -> join sep (add_to_head c l) = c :: join sep l.
Proof.
  destruct l as [|p l]; [congruence|]. intros _. simpl.
  now destruct l.
Qed.

(** [s.replace(c, new)] for a one-character [c] rewrites character by
    character. *)
Lemma replace_char c new s :
  replace [c] new s = flat_map (fun x => if Ascii.eqb x c then new else [x]) s.
Proof.
  unfold replace, split. induction s as [|x s IH]; [reflexivity|].
  cbn [split_from prefixb List.length Nat.sub flat_map].
  rewrite Ascii.eqb_sym.
  destruct (Ascii.eqb x c); cbn [andb].
  - destruct s; cbn [prefixb] in *;
      rewrite join_cons by apply split_from_nonempty; now rewrite IH.
  - replace (match s with [] => false | _ :: _ => false end) with false
      by now destruct s.
    rewrite join_add_to_head by apply split_from_nonempty. now rewrite IH.
Qed.

(** The two passes of [escape_html_entities] escape each angle bracket
    once and leave every other character alone. *)
Lemma escape_html_entities_chars s :
  escape_html_entities s = escape_markup s.
Proof.
  unfold escape_html_entities, escape_markup.
  change (lit "<") with ["<"%char]. change (lit ">") with [">"%char].
  rewrite !replace_char.
  induction s as [|x s IH]; [reflexivity|].
  cbn [flat_map]. rewrite flat_map_app, IH. f_equal.
  unfold escape_char.
  destruct (Ascii.eqb x "<"); [reflexivity|].
  cbn [flat_map]. now rewrite app_nil_r.
Qed.

Lemma escape_markup_app a b :
  escape_markup (a ++ b) = escape_markup a ++ escape_markup b.
Proof. apply flat_map_app. Qed.

Lemma escape_char_space c : isspace c = true -> escape_char c = [c].
Proof.
  intros H. unfold escape_char.
  destruct (Ascii.eqb_spec c "<") as [->|_]; [discriminate H|].
  destruct (Ascii.eqb_spec c ">") as [->|_]; [discriminate H|reflexivity].
Qed.

Lemma escape_char_nonspace c :
  isspace c = false ->
  escape_char c <> [] /\ forallb (fun x => negb (isspace x)) (escape_char c) = true.
Proof.
  intros H. unfold escape_char.
  destruct (Ascii.eqb c "<"); [split; [discriminate|reflexivity]|].
  destruct (Ascii.eqb c ">"); [split; [discriminate|reflexivity]|].
  split; [discriminate|]. simpl. now rewrite H.
Qed.

Lemma escape_char_not_lf c :
  c <> LF -> Forall (fun x => x <> LF) (escape_char c).
Proof.
  intros H. unfold escape_char.
  destruct (Ascii.eqb c "<"); [repeat constructor; discriminate|].
  destruct (Ascii.eqb c ">"); [repeat constructor; discriminate|].
  repeat constructor. exact H.
Qed.

Lemma escape_char_head c :
  exists d u, escape_char c = d :: u /\ (c = LF <-> d = LF).
Proof.
  unfold escape_char.
  destruct (Ascii.eqb_spec c "<") as [->|_].
  { eexists _, _. split; [reflexivity|]. split; discriminate. }
  destruct (Ascii.eqb_spec c ">") as [->|_].
  { eexists _, _. split; [reflexivity|]. split; discriminate. }
  eexists _, _. split; [reflexivity|]. tauto.
Qed.

(** Escaping keeps blank strings blank and the others not. *)
Lemma blank_escape s : blank (escape_markup s) = blank s.
Proof.
  unfold blank, escape_markup. induction s as [|c s IH]; [reflexivity|].
  cbn [flat_map forallb]. rewrite forallb_app, IH. f_equal.
  destruct (isspace c) eqn:E.
  - rewrite escape_char_space by exact E. simpl. now rewrite E.
  - destruct (escape_char_nonspace c E) as [Hne Hall].
    destruct (escape_char c) as [|d u]; [congruence|].
    simpl in Hall |- *. apply andb_true_iff in Hall.
    destruct Hall as [Hd _]. apply negb_true_iff in Hd. now rewrite Hd.
Qed.

Lemma truthy_strip s : truthy (strip s) = negb (blank s).
Proof.
  unfold blank. destruct (forallb isspace s) eqn:E.
  - apply strip_nil_iff in E. now rewrite E.
  - destruct (strip s) eqn:Es; [|reflexivity].
    apply strip_nil_iff in Es. congruence.
Qed.

Lemma prefixb_escape sep s :
  Forall (eq LF) sep ->
  prefixb sep (escape_markup s) = prefixb sep s.
Proof.
  intros Hsep. revert s. induction Hsep as [|c sep <- Hsep IH]; intros s.
  - reflexivity.
  - destruct s as [|x s]; [reflexivity|].
    cbn [escape_markup flat_map prefixb].
    destruct (escape_char_head x) as [d [u [Hx Hlf]]].
    destruct (Ascii.eqb_spec LF x) as [<-|Hne].
    + change (escape_char LF) with [LF]. cbn [app prefixb].
      rewrite Ascii.eqb_refl. apply IH.
    + rewrite Hx. cbn [app prefixb].
      destruct (Ascii.eqb_spec LF d) as [<-|_]; [|reflexivity].
      exfalso. apply Hne. symmetry. now apply Hlf.
Qed.

Lemma split_from_prepend sep u t :
  Forall (fun x => x <> LF) u ->
  split_from (LF :: sep) 0 (u ++ t) = prepend u (split_from (LF :: sep) 0 t).
Proof.
  induction 1 as [|x u Hx Hu IH].
  - simpl. destruct (split_from (LF :: sep) 0 t) eqn:E; [|reflexivity].
    now apply split_from_nonempty in E.
  - cbn [app split_from prefixb].
    destruct (Ascii.eqb_spec LF x) as [<-|_]; [congruence|].
    cbn [andb]. rewrite IH.
    destruct (split_from (LF :: sep) 0 t) eqn:E; [|reflexivity].
    now apply split_from_nonempty in E.
Qed.

Lemma map_escape_add_to_head c l :
  l <> [] ->
  map escape_markup (add_to_head c l)
  = prepend (escape_char c) (map escape_markup l).
Proof. destruct l; [congruence|reflexivity]. Qed.

Lemma firstn_repeat_prefix (sep r : pystr) :
  Forall (eq LF) sep ->
  firstn (List.length sep) (sep ++ r) = repeat LF (List.length sep).
Proof.
  induction 1 as [|c sep <- Hs IH]; [reflexivity|].
  simpl. now rewrite IH.
Qed.

(** Escaping commutes with splitting on a separator made of line feeds. *)
Lemma split_from_escape sep :
  Forall (eq LF) sep -> sep <> [] ->
  forall s skip,
    firstn skip s = repeat LF skip ->
    split_from sep skip (escape_markup s)
    = map escape_markup (split_from sep skip s).
Proof.
  intros Hsep Hne. destruct sep as [|c0 sep0]; [congruence|].
  assert (c0 = LF) by (inversion Hsep; congruence). subst c0.
  assert (Hsep0 : Forall (eq LF) sep0) by now inversion Hsep.
  induction s as [|c s IH]; intros skip Hskip.
  - destruct skip; [reflexivity|discriminate].
  - destruct skip as [|k].
    + destruct (prefixb (LF :: sep0) (c :: s)) eqn:Hp.
      * pose proof Hp as Hp'. apply prefixb_spec in Hp'.
        destruct Hp' as [r Hr]. injection Hr as -> ->.
        change (escape_markup (LF :: sep0 ++ r))
          with (LF :: escape_markup (sep0 ++ r)).
        cbn [split_from].
        pose proof (prefixb_escape (LF :: sep0 ++ r) Hsep) as He.
        change (escape_markup (LF :: sep0 ++ r))
          with (LF :: escape_markup (sep0 ++ r)) in He.
        rewrite He, Hp. cbn [map]. f_equal.
        cbn [List.length].
        replace (S (List.length sep0) - 1) with (List.length sep0) by lia.
        apply IH.
        now apply firstn_repeat_prefix.
      * cbn [split_from]. rewrite Hp.
        rewrite map_escape_add_to_head by apply split_from_nonempty.
        rewrite <- (IH 0 eq_refl).
        destruct (Ascii.eqb_spec c LF) as [->|Hc].
        -- change (escape_markup (LF :: s)) with (LF :: escape_markup s).
           cbn [split_from].
           pose proof (prefixb_escape (LF :: s) Hsep) as He.
           change (escape_markup (LF :: s)) with (LF :: escape_markup s) in He.
           rewrite He, Hp. change (escape_char LF) with [LF].
           destruct (split_from (LF :: sep0) 0 (escape_markup s)) eqn:E;
             [|reflexivity].
           now apply split_from_nonempty in E.
        -- cbn [escape_markup flat_map].
           apply split_from_prepend. now apply escape_char_not_lf.
    + simpl in Hskip. injection Hskip as -> Hk.
      change (escape_markup (LF :: s)) with (LF :: escape_markup s).
      cbn [split_from]. now apply IH.
Qed.

Lemma split_escape sep s :
  Forall (eq LF) sep -> sep <> [] ->
  split sep (escape_markup s) = map escape_markup (split sep s).
Proof. intros H1 H2. now apply split_from_escape. Qed.

Lemma fields_app_nonspace u t :
  forallb (fun x => negb (isspace x)) u = true ->
  fields (u ++ t) = (u ++ fst (fields t), snd (fields t)).
Proof.
  induction u as [|x u IH]; intros H.
  - simpl. now destruct (fields t).
  - simpl in H. apply andb_true_iff in H. destruct H as [Hx Hu].
    apply negb_true_iff in Hx. cbn [app fields].
    rewrite (IH Hu), Hx. reflexivity.
Qed.

Lemma truthy_escape u : truthy (escape_markup u) = truthy u.
Proof.
  destruct u as [|c u]; [reflexivity|]. cbn [escape_markup flat_map].
  destruct (escape_char_head c) as [d [v [-> _]]]. reflexivity.
Qed.

Lemma map_escape_cons_nonempty u ws :
  map escape_markup (cons_nonempty u ws)
  = cons_nonempty (escape_markup u) (map escape_markup ws).
Proof.
  unfold cons_nonempty. rewrite truthy_escape. now destruct (truthy u).
Qed.

Lemma fields_escape l :
  fields (escape_markup l)
  = (escape_markup (fst (fields l)), map escape_markup (snd (fields l))).
Proof.
  induction l as [|c l IH]; [reflexivity|].
  cbn [escape_markup flat_map fields]. fold (escape_markup l).
  destruct (fields l) as [u ws] eqn:E. simpl in IH.
  destruct (isspace c) eqn:Ec.
  - rewrite escape_char_space by exact Ec. cbn [app fields].
    rewrite IH, Ec. simpl. now rewrite map_escape_cons_nonempty.
  - rewrite fields_app_nonspace by now apply escape_char_nonspace.
    rewrite IH. simpl. unfold escape_markup. simpl. reflexivity.
Qed.

(** Escaping commutes with splitting into words. *)
Lemma split_ws_escape l :
  split_ws (escape_markup l) = map escape_markup (split_ws l).
Proof.
  unfold split_ws. rewrite fields_escape.
  destruct (fields l) as [u ws]. simpl.
  now rewrite map_escape_cons_nonempty.
Qed.

Lemma escape_join sep ws :
  escape_markup (join sep ws)
  = join (escape_markup sep) (map escape_markup ws).
Proof.
  induction ws as [|p ws IH]; [reflexivity|].
  destruct ws as [|q ws]; [reflexivity|].
  change (join sep (p :: q :: ws)) with (p ++ sep ++ join sep (q :: ws)).
  rewrite !escape_markup_app, IH. reflexivity.
Qed.

Lemma filter_map_comm {A B} (f : A -> B) (P : B -> bool) l :
  filter P (map f l) = map f (filter (fun a => P (f a)) l).
Proof.
  induction l as [|a l IH]; [reflexivity|].
  simpl. destruct (P (f a)); simpl; now rewrite IH.
Qed.

Lemma cleaned_para_escape para :
  cleaned_para (escape_markup para) = flowed_block para.
Proof.
  unfold cleaned_para, flowed_block, block, collapse_whitespace.
  rewrite split_escape by (try discriminate; repeat constructor).
  rewrite filter_map_comm, map_map.
  rewrite (filter_ext (fun a => truthy (strip (escape_markup a)))
                      (fun line => negb (blank line)))
    by (intros line; now rewrite truthy_strip, blank_escape).
  f_equal. apply map_ext. intros line.
  now rewrite split_ws_escape, escape_join.
Qed.

(** The loop over the escaped paragraphs constructs, in order, the blocks
    of the paragraphs that are not blank. *)
Lemma render_paragraphs_escape rl paras story :
  render_paragraphs rl (map escape_markup paras) story
  = match built rl (flat_map (fun para => [Paragraph (flowed_block para); Spacer])
                      (filter (fun para => negb (blank para)) paras)) with
    | Ok story' => Ok (story ++ story')
    | Raise e => Raise e
    end.
Proof.
  revert story. induction paras as [|para paras IH]; intros story.
  - simpl. now rewrite app_nil_r.
  - cbn [map render_paragraphs filter]. unfold render_paragraph.
    rewrite truthy_strip, blank_escape, cleaned_para_escape.
    destruct (negb (blank para)); [|apply IH].
    cbn [flat_map app built]. unfold new_Paragraph.
    destruct (paragraph_error rl (flowed_block para)); [reflexivity|].
    rewrite IH.
    destruct (built rl _) as [story'|e]; [|reflexivity].
    now rewrite <- app_assoc.
Qed.

Lemma create_masked_pdf_built rl text :
  create_masked_pdf rl text = built rl (reflow text).
Proof.
  unfold create_masked_pdf, reflow, reflow_with.
  rewrite escape_html_entities_chars.
  rewrite split_escape by (try discriminate; repeat constructor).
  rewrite render_paragraphs_escape.
  now destruct (built rl _).
Qed.

Lemma fields_words l :
  forallb (fun c => negb (isspace c)) (fst (fields l)) = true /\
  Forall is_word (snd (fields l)).
Proof.
  induction l as [|c l [IHu IHw]]; [split; [reflexivity|constructor]|].
  simpl. destruct (fields l) as [u ws]. simpl in *.
  destruct (isspace c) eqn:E; simpl.
  - split; [reflexivity|]. unfold cons_nonempty.
    destruct u as [|d u]; [exact IHw|].
    constructor; [|exact IHw]. split; [discriminate|exact IHu].
  - rewrite E. simpl. split; [exact IHu|exact IHw].
Qed.

Lemma split_ws_words l : Forall is_word (split_ws l).
Proof.
  unfold split_ws. pose proof (fields_words l) as [Hu Hw].
  destruct (fields l) as [u ws]. simpl in *. unfold cons_nonempty.
  destruct u as [|d u]; [exact Hw|].
  constructor; [|exact Hw]. split; [discriminate|exact Hu].
Qed.

(** Words joined by single spaces split back into the same words. *)
Lemma split_ws_join ws :
  Forall is_word ws -> split_ws (join (lit " ") ws) = ws.
Proof.
  induction 1 as [|u ws [Hne Hu] Hws IH]; [reflexivity|].
  destruct ws as [|v ws].
  - simpl. unfold split_ws.
    rewrite <- (app_nil_r u), fields_app_nonspace by exact Hu.
    simpl. rewrite app_nil_r. unfold cons_nonempty.
    destruct u; [congruence|reflexivity].
  - change (join (lit " ") (u :: v :: ws))
      with (u ++ lit " " ++ join (lit " ") (v :: ws)).
    unfold split_ws in *. rewrite fields_app_nonspace by exact Hu.
    change (lit " " ++ join (lit " ") (v :: ws))
      with (" "%char :: join (lit " ") (v :: ws)).
    cbn [fields].
    destruct (fields (join (lit " ") (v :: ws))) as [x xs].
    change (isspace " ") with true. cbn iota. simpl fst. simpl snd.
    rewrite app_nil_r, IH. unfold cons_nonempty.
    destruct u; [congruence|reflexivity].
Qed.

(** C5 (as amended): [create_masked_pdf] splits the text on blank-line
    breaks, drops the empty and whitespace-only paragraphs, and constructs
    for each remaining paragraph, in order, one block (its non-blank lines
    with the runs of whitespace collapsed to single spaces and the two
    angle brackets escaped, joined by line breaks) followed by the spacer;
    it ends with the [ValueError] of reportlab at the first block whose
    markup does not parse.  Only the angle brackets are escaped.
    Collapsing a line keeps its words, which are non-empty, free of
    whitespace and together the line without its whitespace. *)
Theorem create_masked_pdf_reflows (rl : Reportlab) (anonymized_text : pystr) :
  create_masked_pdf rl anonymized_text = built rl (reflow anonymized_text) /\
  (forall line,
     Forall is_word (split_ws line) /\
     split_ws (collapse_whitespace line) = split_ws line /\
     List.concat (split_ws line) = filter (fun c => negb (isspace c)) line) /\
  (forall s, escape_html_entities s = flat_map escape_char s).
Proof.
  split; [|split].
  - apply create_masked_pdf_built.
  - intros line. split; [apply split_ws_words|]. split.
    + apply split_ws_join, split_ws_words.
    + rewrite <- join_nil_concat. apply join_split_ws.
  - apply escape_html_entities_chars.
Qed.

(** C5 (as stated) fails on the ampersand, which reportlab's markup gives a
    meaning to and the code does not escape.  Of the text [a & b] the claim
    makes the markup [a &amp; b]; the code hands reportlab [a & b], so that
    whenever a story is built it is not the one of the claim.  Of the text
    [a &#; b] the code hands reportlab the text itself, and ends with the
    [ValueError] of reportlab when that markup does not parse. *)
Lemma ampersand_is_not_escaped :
  claimed_reflow (lit "a & b") = [Paragraph (lit "a &amp; b"); Spacer] /\
  (forall rl,
     create_masked_pdf rl (lit "a & b")
     = built rl [Paragraph (lit "a & b"); Spacer]) /\
  (forall rl story,
     create_masked_pdf rl (lit "a & b") = Ok story ->
     story <> claimed_reflow (lit "a & b")) /\
  claimed_reflow (lit "a &#; b") = [Paragraph (lit "a &amp;#; b"); Spacer] /\
  (forall rl msg,
     paragraph_error rl (lit "a &#; b") = Some msg ->
     create_masked_pdf rl (lit "a &#; b") = Raise (ValueError msg)).
Proof.
  split; [reflexivity|]. split; [intros rl; apply create_masked_pdf_built|].
  split; [|split; [reflexivity|]].
  - intros rl story H. rewrite create_masked_pdf_built in H.
    change (reflow (lit "a & b")) with [Paragraph (lit "a & b"); Spacer] in H.
    cbn [built] in H.
    destruct (paragraph_error rl (lit "a & b")); [discriminate H|].
    injection H as <-. discriminate.
  - intros rl msg H. rewrite create_masked_pdf_built.
    change (reflow (lit "a &#; b"))
      with [Paragraph (lit "a &#; b"); Spacer].
    cbn [built]. now rewrite H.
Qed.

(** A reportlab that parses every markup. *)
Example create_masked_pdf_run :
  create_masked_pdf {| paragraph_error := fun _ => None |}
    (lit "Name:   <PERSON>" ++ [LF] ++ lit "  Mail: <EMAIL_ADDRESS> "
     ++ [LF; LF] ++ lit "   " ++ [LF; LF; LF] ++ lit "A & B")
  = Ok [ Paragraph (lit "Name: &lt;PERSON&gt;<br/>Mail: &lt;EMAIL_ADDRESS&gt;");
         Spacer;
         Paragraph (lit "A & B"); Spacer ].
Proof. reflexivity. Qed.

End PdfReflow.

(* ================================================================= *)
(** ** The shared engines, one thread *)

Section Singleton.
Import AnalyzerSingleton.

Lemma nth_error_update_nth {A} (l : list A) n f :
  nth_error (update_nth l n f) n = option_map f (nth_error l n).
Proof.
  revert n; induction l as [|a l IH]; intros [|n]; simpl; auto.
Qed.

Lemma update_nth_length {A} (l : list A) n f :
  List.length (update_nth l n f) = List.length l.
Proof.
  revert n; induction l as [|a l IH]; intros [|n]; simpl; auto.
Qed.

(** The frame of a load: it changes the heap cell of [o], the load counter
    and the call log, nothing else; it succeeds exactly when
    [load_outcome] does, and then leaves both engines in [o]. *)
Lemma load_engines_run pr o wd :
  let out := load_engines pr o wd in
  cls_instance (snd out) = cls_instance wd /\
  cls_initialized (snd out) = cls_initialized wd /\
  singleton_instance (snd out) = singleton_instance wd /\
  loads (snd out) = S (loads wd) /\
  List.length (heap (snd out)) = List.length (heap wd) /\
  match load_outcome pr (loads wd) with
  | Ok (a, z) =>
      fst out = Ok tt /\
      (o < List.length (heap wd) ->
       nth_error (heap (snd out)) o
       = Some {| analyzer_engine := Some (Some a);
                 anonymizer_engine := Some (Some z) |})
  | Raise e => fst out = Raise e
  end.
Proof.
  unfold load_engines, load_outcome, bind, get, modify, lift, setattr_analyzer,
    setattr_anonymizer, call_analyze, ret.
  generalize warmup_text en. intros wt lang.
  cbn [loads set_loads].
  destruct (AnalyzerEngine_new pr (loads wd)) as [a|e]; cbn;
    [|repeat split; reflexivity].
  destruct (AnonymizerEngine_new pr (loads wd)) as [z|e]; cbn;
    [|repeat split; auto using update_nth_length].
  destruct (analyze a wt lang None None) as [r|e]; cbn;
    rewrite ?update_nth_length; repeat split; auto.
  all: intros Ho; rewrite !nth_error_update_nth;
    destruct (nth_error (heap wd) o) eqn:E; [reflexivity|];
    apply nth_error_None in E; lia.
Qed.

Lemma dunder_new_run wd :
  dunder_new wd
  = match cls_instance wd with
    | Some o => (Ok (Some o), wd)
    | None =>
        (Ok (Some (List.length (heap wd))),
         set_cls_instance (Some (List.length (heap wd)))
           (set_heap (heap wd ++ [{| analyzer_engine := None;
                                     anonymizer_engine := None |}]) wd))
    end.
Proof.
  unfold dunder_new, bind, get, modify, allocate, ret.
  destruct wd as [cs g hp ci init si k]. cbn.
  destruct ci; reflexivity.
Qed.

Lemma dunder_init_initialized pr o wd :
  cls_initialized wd = true -> dunder_init pr o wd = (Ok tt, wd).
Proof.
  intros H. unfold dunder_init, bind, get. rewrite H. reflexivity.
Qed.

Lemma dunder_init_run pr o wd :
  cls_initialized wd = false -> o < List.length (heap wd) ->
  let out := dunder_init pr o wd in
  cls_instance (snd out) = cls_instance wd /\
  singleton_instance (snd out) = singleton_instance wd /\
  loads (snd out) = S (loads wd) /\
  List.length (heap (snd out)) = List.length (heap wd) /\
  match load_outcome pr (loads wd) with
  | Ok (a, z) =>
      fst out = Ok tt /\ cls_initialized (snd out) = true /\
      nth_error (heap (snd out)) o
      = Some {| analyzer_engine := Some (Some a);
                anonymizer_engine := Some (Some z) |}
  | Raise e => fst out = Raise e /\ cls_initialized (snd out) = false
  end.
Proof.
  intros Hinit Ho.
  pose (hp2 := update_nth
                 (update_nth (heap wd) o (fun inst =>
                    {| analyzer_engine := Some None;
                       anonymizer_engine := anonymizer_engine inst |}))
                 o (fun inst =>
                    {| analyzer_engine := analyzer_engine inst;
                       anonymizer_engine := Some None |})).
  pose (w2 := set_heap hp2 wd).
  assert (Hrun : dunder_init pr o wd
                 = match load_engines pr o w2 with
                   | (Ok _, w3) => (Ok tt, set_cls_initialized true w3)
                   | (Raise e, w3) => (Raise e, w3)
                   end).
  { unfold dunder_init, bind, get, modify, setattr_analyzer,
      setattr_anonymizer.
    unfold w2, hp2. destruct wd as [cs g hp ci init si k].
    cbn -[load_engines update_nth] in *. subst init.
    cbn -[load_engines update_nth].
    destruct (load_engines pr o _) as [[[]|e] w3]; reflexivity. }
  assert (Hl2 : List.length (heap w2) = List.length (heap wd)).
  { unfold w2, hp2. destruct wd. cbn. now rewrite !update_nth_length. }
  pose proof (load_engines_run pr o w2) as Hload. cbv zeta in Hload |- *.
  rewrite Hrun.
  replace (loads w2) with (loads wd) in Hload by now destruct wd.
  replace (cls_instance w2) with (cls_instance wd) in Hload by now destruct wd.
  replace (cls_initialized w2) with false in Hload by now destruct wd.
  replace (singleton_instance w2) with (singleton_instance wd) in Hload
    by now destruct wd.
  rewrite Hl2 in Hload.
  destruct Hload as [H1 [H2 [H3 [H4 [H5 H6]]]]].
  destruct (load_engines pr o w2) as [[u|e] w3]; cbn [fst snd] in *.
  - destruct (load_outcome pr (loads wd)) as [[a z]|e]; [|discriminate H6].
    destruct H6 as [_ Hn]. destruct w3. cbn in *. repeat split; auto.
  - destruct (load_outcome pr (loads wd)) as [[a z]|e'];
      [destruct H6; discriminate|].
    repeat split; auto.
Qed.

Lemma get_analyzer_singleton_run pr wd :
  get_analyzer_singleton pr wd
  = match singleton_instance wd with
    | Some o => (Ok (Some o), wd)
    | None =>
        match dunder_new wd with
        | (Ok (Some o), w1) =>
            match dunder_init pr o w1 with
            | (Ok _, w2) => (Ok (Some o), set_singleton_instance (Some o) w2)
            | (Raise e, w2) => (Raise e, w2)
            end
        | (Ok None, w1) => (Ok None, set_singleton_instance None w1)
        | (Raise e, w1) => (Raise e, w1)
        end
    end.
Proof.
  unfold get_analyzer_singleton, construct, bind, get, modify, ret.
  destruct (singleton_instance wd) eqn:E.
  - now rewrite E.
  - destruct (dunder_new wd) as [[[o|]|e] w1]; try reflexivity.
    destruct (dunder_init pr o w1) as [[u|e] w2]; [|reflexivity].
    now destruct w2.
Qed.

Lemma load_outcome_warm pr k a z :
  load_outcome pr k = Ok (a, z) ->
  exists results, analyze a warmup_text en None None = Ok results.
Proof.
  unfold load_outcome.
  destruct (AnalyzerEngine_new pr k) as [a0|]; [|discriminate].
  destruct (AnonymizerEngine_new pr k) as [z0|]; [|discriminate].
  destruct (analyze a0 warmup_text en None None) as [r|] eqn:E;
    [|discriminate].
  intros H. injection H as <- <-. eauto.
Qed.

(** What one call of [get_analyzer_singleton] does in a consistent state.
    It returns an object only with both engines loaded and warmed up; it
    raises only when this call ran a load that failed, and then leaves the
    class not initialized and the module global unset. *)
Lemma get_analyzer_singleton_outcome pr wd :
  consistent wd ->
  let out := get_analyzer_singleton pr wd in
  consistent (snd out) /\
  match fst out with
  | Ok r =>
      exists o a z,
        r = Some o /\ singleton_instance (snd out) = Some o /\
        cls_initialized (snd out) = true /\ ready (snd out) o a z /\
        (cls_initialized wd = false -> load_outcome pr (loads wd) = Ok (a, z))
  | Raise e =>
      cls_initialized wd = false /\ load_outcome pr (loads wd) = Raise e /\
      cls_initialized (snd out) = false /\
      singleton_instance (snd out) = None /\
      loads (snd out) = S (loads wd)
  end.
Proof.
  intros Hcons. pose proof Hcons as [Hheap [Hsing Hinit]]. cbv zeta.
  rewrite get_analyzer_singleton_run.
  destruct (singleton_instance wd) as [o|] eqn:Es.
  - cbn [fst snd]. split; [exact Hcons|].
    destruct (Hsing o eq_refl) as [Hc Hi].
    destruct (Hinit Hi) as [o' [a [z [Hc' Hr]]]].
    assert (o' = o) by congruence. subst o'.
    exists o, a, z. repeat split; auto; try apply Hr. congruence.
  - rewrite dunder_new_run.
    destruct (cls_initialized wd) eqn:Ei.
    + destruct (Hinit eq_refl) as [o [a [z [Hc Hr]]]]. rewrite Hc.
      rewrite dunder_init_initialized by exact Ei. cbn [fst snd].
      assert (Hw : ready (set_singleton_instance (Some o) wd) o a z)
        by (destruct wd; exact Hr).
      split.
      * split; [|split].
        -- intros o'. destruct wd; cbn in *. apply Hheap.
        -- intros o'. destruct wd; cbn in *. intros H. split; congruence.
        -- intros _. exists o, a, z. split; [now destruct wd|exact Hw].
      * exists o, a, z. destruct wd; cbn in *. repeat split; auto; try apply Hr.
        discriminate.
    + set (w1 := match cls_instance wd with
                 | Some o => (Ok (Some o), wd)
                 | None => _
                 end).
      assert (Hw1 : exists o, w1 = (Ok (Some o), snd w1) /\
                  cls_instance (snd w1) = Some o /\
                  o < List.length (heap (snd w1)) /\
                  cls_initialized (snd w1) = false /\
                  singleton_instance (snd w1) = None /\
                  loads (snd w1) = loads wd).
      { unfold w1. destruct (cls_instance wd) as [o|] eqn:Ec.
        - exists o. cbn. repeat split; auto.
        - exists (List.length (heap wd)). destruct wd; cbn in *.
          repeat split; auto. rewrite length_app. simpl. lia. }
      destruct Hw1 as [o [Hw1 [Hc1 [Ho1 [Hi1 [Hs1 Hl1]]]]]].
      rewrite Hw1.
      pose proof (@dunder_init_run pr o (snd w1) Hi1 Ho1) as Hrun. cbv zeta in Hrun.
      rewrite Hl1 in Hrun.
      destruct Hrun as [Hc2 [Hs2 [Hl2 [Hh2 Hout]]]].
      destruct (dunder_init pr o (snd w1)) as [[u|e] w2]; cbn [fst snd] in *.
      * destruct (load_outcome pr (loads wd)) as [[a z]|e] eqn:El;
          [|destruct Hout; discriminate].
        destruct Hout as [_ [Hi2 Hn2]].
        assert (Hr : ready (set_singleton_instance (Some o) w2) o a z).
        { split; [now destruct w2|]. eapply load_outcome_warm, El. }
        split.
        -- split; [|split].
           ++ intros o'. destruct w2; cbn in *. intros H.
              assert (o' = o) by congruence. subst. lia.
           ++ intros o'. destruct w2; cbn in *. intros H.
              split; congruence.
           ++ intros _. exists o, a, z. split; [|exact Hr].
              destruct w2; cbn in *. congruence.
        -- exists o, a, z. destruct w2; cbn in *. repeat split; auto; apply Hr.
      * destruct (load_outcome pr (loads wd)) as [[a z]|e'] eqn:El;
          [destruct Hout; discriminate|].
        destruct Hout as [He Hi2]. injection He as ->.
        split.
        -- split; [|split].
           ++ intros o' H. assert (o' = o) by congruence. subst. lia.
           ++ intros o' H. congruence.
           ++ intros H. congruence.
        -- repeat split; auto. congruence.
Qed.

Lemma consistent_fresh g : consistent (fresh_world g).
Proof.
  split; [|split]; cbn; intros; discriminate.
Qed.

(** With the singleton ready, the two properties hand out its engines. *)
Lemma shared_engines_ready pr wd o a z wd' :
  get_analyzer_singleton pr wd = (Ok (Some o), wd') ->
  ready wd' o a z ->
  shared_engines pr wd = (Ok (a, z), wd').
Proof.
  intros Hget [Hn _]. unfold shared_engines.
  erewrite bind_step by exact Hget.
  unfold bind, analyzer, anonymizer, ret. rewrite Hn. cbn.
  rewrite ?Hn. reflexivity.
Qed.

(** C3 (as amended): when the load of the engines fails during the
    construction of the shared instance (a constructor or the warm-up call
    raises), [get_analyzer_singleton] raises that exception and leaves the
    class not initialized and the module global unset; whenever it returns,
    the object it returns holds both engines and the detection engine has
    passed the warm-up.  The failure is not remembered: the next call runs
    the load again; when that load fails too the call raises again, and when
    it succeeds the analyzer is built on the loaded engines and its detect
    calls go to the detection engine. *)
Theorem failed_load_is_raised_and_retried pr wd e :
  consistent wd -> cls_initialized wd = false ->
  load_outcome pr (loads wd) = Raise e ->
  (forall w r w', consistent w ->
     get_analyzer_singleton pr w = (Ok r, w') ->
     exists o a z, r = Some o /\ cls_initialized w' = true /\ ready w' o a z) /\
  exists wd1,
    get_analyzer_singleton pr wd = (Raise e, wd1) /\
    consistent wd1 /\ cls_initialized wd1 = false /\
    singleton_instance wd1 = None /\ loads wd1 = S (loads wd) /\
    (forall e', load_outcome pr (S (loads wd)) = Raise e' ->
       exists wd2, get_analyzer_singleton pr wd1 = (Raise e', wd2)) /\
    (forall a z, load_outcome pr (S (loads wd)) = Ok (a, z) ->
       exists wd2,
         OptimizedPDFAnalyzer.init pr wd1
         = (Ok {| OptimizedPDFAnalyzer.analyzer := a;
                  OptimizedPDFAnalyzer.anonymizer := z |}, wd2) /\
         forall text language threshold entities,
           OptimizedPDFAnalyzer.analyze_text
             {| OptimizedPDFAnalyzer.analyzer := a;
                OptimizedPDFAnalyzer.anonymizer := z |}
             text language threshold entities wd2
           = (match analyze a text language entities (Some threshold) with
              | Ok results => Ok (to_findings text results)
              | Raise e0 => Raise e0
              end, log (CallAnalyze text) wd2)).
Proof.
  intros Hcons Hinit Hload. split.
  - intros w r w' Hw Hget.
    pose proof (get_analyzer_singleton_outcome pr Hw) as [_ Hout].
    rewrite Hget in Hout. cbn [fst snd] in Hout.
    destruct Hout as [o [a [z [-> [_ [Hi [Hr _]]]]]]].
    exists o, a, z. repeat split; auto; apply Hr.
  - pose proof (get_analyzer_singleton_outcome pr Hcons) as [Hc1 Hout].
    destruct (get_analyzer_singleton pr wd) as [[r|e0] wd1] eqn:Hget;
      cbn [fst snd] in *.
    + destruct Hout as [o [a [z [_ [_ [_ [_ Hl]]]]]]].
      specialize (Hl Hinit). congruence.
    + destruct Hout as [_ [He [Hi1 [Hs1 Hl1]]]].
      assert (e0 = e) by congruence. subst e0.
      exists wd1. split; [reflexivity|]. split; [exact Hc1|].
      split; [exact Hi1|]. split; [exact Hs1|]. split; [exact Hl1|]. split.
      * intros e' He'.
        pose proof (get_analyzer_singleton_outcome pr Hc1) as [_ Hout2].
        destruct (get_analyzer_singleton pr wd1) as [[r|e2] wd2] eqn:Hget2;
          cbn [fst snd] in *.
        -- destruct Hout2 as [o [a [z [_ [_ [_ [_ Hl]]]]]]].
           specialize (Hl Hi1). rewrite Hl1 in Hl. congruence.
        -- destruct Hout2 as [_ [He2 _]]. rewrite Hl1 in He2.
           exists wd2. congruence.
      * intros a z Hok.
        pose proof (get_analyzer_singleton_outcome pr Hc1) as [_ Hout2].
        destruct (get_analyzer_singleton pr wd1) as [[r|e2] wd2] eqn:Hget2;
          cbn [fst snd] in *.
        -- destruct Hout2 as [o [a' [z' [-> [_ [_ [Hr Hl]]]]]]].
           specialize (Hl Hi1). rewrite Hl1, Hok in Hl.
           injection Hl as <- <-.
           exists wd2. split.
           ++ unfold OptimizedPDFAnalyzer.init.
              erewrite bind_step
                by exact (@shared_engines_ready pr wd1 o a z wd2 Hget2 Hr).
              reflexivity.
           ++ intros text language threshold entities.
              exact (detect_calls_engine (PDF _) text language threshold
                       entities wd2 eq_refl).
        -- destruct Hout2 as [_ [He2 _]]. rewrite Hl1 in He2. congruence.
Qed.

Lemma failed_load_is_raised_and_retried_witness :
  exists wd1,
    get_analyzer_singleton Fixture.flaky_presidio (fresh_world 0%N)
    = (Raise (EngineException "model not loaded"), wd1) /\
    cls_initialized wd1 = false /\ singleton_instance wd1 = None /\
    exists wd2,
      OptimizedPDFAnalyzer.init Fixture.flaky_presidio wd1
      = (Ok {| OptimizedPDFAnalyzer.analyzer := Fixture.email_engine;
               OptimizedPDFAnalyzer.anonymizer := Fixture.placeholder_engine |},
         wd2).
Proof.
  destruct (@failed_load_is_raised_and_retried Fixture.flaky_presidio
              (fresh_world 0%N) (EngineException "model not loaded")
              (consistent_fresh 0%N) eq_refl eq_refl)
    as [_ [wd1 [Hget [_ [Hi [Hs [_ [_ Hnext]]]]]]]].
  exists wd1. split; [exact Hget|]. split; [exact Hi|]. split; [exact Hs|].
  destruct (Hnext Fixture.email_engine Fixture.placeholder_engine eq_refl)
    as [wd2 [Hinit _]].
  exists wd2. exact Hinit.
Defined.

(** C3 (as stated) fails: a detect call made after a construction that
    raised does not raise; the analyzer is built by a second load and the
    call returns the finding of the engine. *)
Lemma detect_after_failed_load_returns :
  ~ (forall pr wd e wd1,
       consistent wd ->
       get_analyzer_singleton pr wd = (Raise e, wd1) ->
       forall text language threshold entities,
       exists wd2,
         bind (OptimizedImageAnalyzer.init pr)
              (fun s => OptimizedImageAnalyzer.analyze_text s text language
                          threshold entities) wd1
         = (Raise not_initialized, wd2)).
Proof.
  intros claim.
  destruct (get_analyzer_singleton Fixture.flaky_presidio (fresh_world 0%N))
    as [[r|e] wd1] eqn:Hget; [vm_compute in Hget; discriminate Hget|].
  destruct (claim Fixture.flaky_presidio (fresh_world 0%N) e wd1
              (consistent_fresh 0%N) Hget
              (lit "Contact: john@example.com") en Fixture.threshold None)
    as [wd2 H].
  vm_compute in Hget. injection Hget as _ <-.
  vm_compute in H. discriminate H.
Qed.

Example second_load_serves_detect :
  let wd1 := snd (get_analyzer_singleton Fixture.flaky_presidio
                    (fresh_world 0%N)) in
  fst (bind (OptimizedImageAnalyzer.init Fixture.flaky_presidio)
         (fun s => OptimizedImageAnalyzer.analyze_text s
                     (lit "Contact: john@example.com") en
                     Fixture.threshold None) wd1)
  = Ok [ {| entity_type := lit "EMAIL_ADDRESS";
            f_text := lit "john@example.com";
            f_start := 9; f_end := 25; score := 1%Q |} ].
Proof. vm_compute. reflexivity. Qed.

End Singleton.

(* ================================================================= *)
(** ** The shared engines, several threads *)

Section ThreadsInvariant.
Import Threads.

Lemma upd_same f t p : upd f t p t = p.
Proof. unfold upd. now rewrite Nat.eqb_refl. Qed.

Lemma upd_other f t p t' : t' <> t -> upd f t p t' = f t'.
Proof. unfold upd. intros H. apply Nat.eqb_neq in H. now rewrite H. Qed.

Lemma invariant_init : invariant init.
Proof.
  constructor; simpl; intros; try reflexivity; try discriminate;
    try contradiction.
  destruct H; discriminate.
Qed.

Section Step.

Variable s : state.
Hypothesis Hinv : invariant s.

(** Everything the invariant says about one thread. *)
Lemma invariant_at t :
  (holds (pcs s t) = true <-> lock s = Some t) /\
  (pcs s t = NewCreate -> instance_ s = None) /\
  (pcs s t = NewRelease \/ pcs s t = NewReturn -> instance_ s <> None) /\
  (forall obj, carried (pcs s t) = Some obj ->
     obj = instance_ s /\ obj <> None) /\
  (pcs s t = GetReturn -> global_ s <> None).
Proof.
  destruct Hinv as [_ Hh Hl Hc Hm Hcar _ Hget _].
  split; [split; [apply Hh | apply Hl]|].
  split; [apply Hc|]. split; [apply Hm|]. split; [apply Hcar | apply Hget].
Qed.

End Step.

(** Case analysis on whether a thread is the one that moved, with the facts
    of the invariant about it. *)
Ltac moved Hinv t t' :=
  pose proof (invariant_at Hinv t');
  destruct (Nat.eq_dec t' t) as [->|?];
  [rewrite ?upd_same in * | rewrite ?upd_other in * by assumption].

Ltac settle Hr Hg :=
  repeat match goal with
  | H : pcs _ _ = _, H' : context [pcs _ _] |- _ => rewrite H in H'
  end;
  cbn [holds carried In] in *;
  repeat match goal with
  | H : _ /\ _ |- _ => destruct H
  | H : _ <-> _ |- _ => destruct H
  | H : (_, _) = (_, _) |- _ => injection H as ? ?
  | H : Some _ = Some _ |- _ => injection H as ?
  | H : In _ (returned _) |- _ => apply Hr in H
  | H : global_ _ = Some _ |- _ => apply Hg in H
  | H : forall obj, Some ?x = Some obj -> _ |- _ => specialize (H _ eq_refl)
  | H : carried _ = Some ?obj, H' : forall obj, carried _ = Some obj -> _ |- _ =>
      apply H' in H
  end;
  subst;
  try solve [intuition (subst; try discriminate; try congruence; eauto)];
  try solve [destruct (instance_ _) eqn:?;
             intuition (subst; try discriminate; try congruence; try lia; eauto)].

Lemma invariant_step t load_ok s s' :
  invariant s -> step t load_ok s = Some s' -> invariant s'.
Proof.
  intros Hinv Hstep.
  pose proof (invariant_at Hinv t) as Ht.
  pose proof (inv_alloc Hinv) as Ha.
  pose proof (inv_global Hinv) as Hg.
  pose proof (inv_returned Hinv) as Hr.
  unfold step in Hstep.
  destruct (pcs s t) eqn:Hpc;
    repeat match type of Hstep with
    | context [match ?x with _ => _ end] => destruct x eqn:?
    end;
    try discriminate Hstep;
    injection Hstep as <-;
    constructor; cbn [instance_ initialized global_ lock allocated returned
                      pcs goto set_lock create set_initialized set_global
                      record_return];
    intros;
    repeat match goal with
    | H : context [upd _ t _ ?t'] |- _ => moved Hinv t t'
    | |- context [upd _ t _ ?t'] => moved Hinv t t'
    end;
    settle Hr Hg.
  destruct H as [H|H]; [|exact (Hr _ _ H)].
  injection H as _ <-.
  destruct (global_ s) as [o|] eqn:Eg; [|now specialize (H4 eq_refl)].
  rewrite (Hg o eq_refl). split; [reflexivity|discriminate].
Qed.

Lemma invariant_run schedule s : invariant s -> invariant (run schedule s).
Proof.
  revert s. induction schedule as [|[t load_ok] rest IH]; intros s Hs;
    [exact Hs|].
  simpl. destruct (step t load_ok s) as [s'|] eqn:E.
  - apply IH. exact (@invariant_step t load_ok s s' Hs E).
  - now apply IH.
Qed.

(** C7: in every state that any number of threads calling
    [get_analyzer_singleton] can reach, under any interleaving and any
    outcomes of the loads, at most one [AnalyzerSingleton] object has been
    created and every call that returned, returned that one object. *)
Theorem one_instance_per_process (schedule : list (nat * bool)) :
  let s := run schedule init in
  allocated s <= 1 /\
  (forall t r, In (t, r) (returned s) -> r = Some 0 /\ instance_ s = Some 0) /\
  (forall t1 r1 t2 r2,
     In (t1, r1) (returned s) -> In (t2, r2) (returned s) -> r1 = r2) /\
  returned (run Fixture.racing_schedule init)
  = [(2, Some 0); (1, Some 0); (0, Some 0)].
Proof.
  cbv zeta.
  pose proof (invariant_run schedule invariant_init) as Hinv.
  pose proof (inv_alloc Hinv) as Ha.
  pose proof (inv_returned Hinv) as Hr.
  assert (Hone : forall t r, In (t, r) (returned (run schedule init)) ->
                   r = Some 0 /\ instance_ (run schedule init) = Some 0).
  { intros t r H. destruct (Hr t r H) as [-> Hn].
    destruct (instance_ (run schedule init)) as [o|]; [|congruence].
    destruct Ha as [-> _]. split; reflexivity. }
  split; [|split; [exact Hone|split]].
  - destruct (instance_ (run schedule init)); lia.
  - intros t1 r1 t2 r2 H1 H2.
    destruct (Hone _ _ H1) as [-> _]. destruct (Hone _ _ H2) as [-> _].
    reflexivity.
  - vm_compute. reflexivity.
Qed.

End ThreadsInvariant.

(* ================================================================= *)
(** * Further properties *)

(** ** The position resolver on arbitrary OCR data *)

Section ResolverEdges.
Import ImageMasker MaskedImage.

Lemma index_box_at ocr_data i :
  match box_at ocr_data i with
  | Some b =>
      index (left ocr_data) i = Ok (x b) /\ index (top ocr_data) i = Ok (y b) /\
      index (width ocr_data) i = Ok (w b) /\ index (height ocr_data) i = Ok (h b)
  | None =>
      index (left ocr_data) i = Raise IndexError \/
      index (top ocr_data) i = Raise IndexError \/
      index (width ocr_data) i = Raise IndexError \/
      index (height ocr_data) i = Raise IndexError
  end.
Proof.
  unfold box_at, index.
  destruct (nth_error (left ocr_data) i); [|now left].
  destruct (nth_error (top ocr_data) i); [|now right; left].
  destruct (nth_error (width ocr_data) i); [|now right; right; left].
  destruct (nth_error (height ocr_data) i); [|now right; right; right].
  simpl. repeat split.
Qed.

(** The loop over a range inside the text list: it returns the boxes of the
    matching entries when each of them has coordinates, and raises
    [IndexError] at the first that has not. *)
Lemma positions_loop_outcome ocr_data nt range acc :
  Forall (fun i => i < List.length (text ocr_data)) range ->
  positions_loop ocr_data nt range acc
  = if forallb (fun i => match box_at ocr_data i with
                         | Some _ => true
                         | None => false
                         end)
               (filter (entry_matches ocr_data nt) range)
    then Ok (acc ++ flat_map (fun i => match box_at ocr_data i with
                                       | Some b => [b]
                                       | None => []
                                       end)
                             (filter (entry_matches ocr_data nt) range))
    else Raise IndexError.
Proof.
  intros H. revert acc. induction H as [|i range Hi Hr IH]; intros acc.
  - simpl. now rewrite app_nil_r.
  - destruct (nth_error (text ocr_data) i) as [t|] eqn:Et.
    2:{ apply nth_error_None in Et. lia. }
    assert (Hm : entry_matches ocr_data nt i
                 = truthy (strip t) &&
                   (contains (lower (strip t)) nt
                    || contains nt (lower (strip t))))
      by (unfold entry_matches; now rewrite Et).
    cbn [positions_loop filter]. rewrite Hm.
    unfold index at 1. rewrite Et.
    destruct (truthy (strip t)); cbn [andb]; [|apply IH].
    destruct (contains _ _ || contains _ _); [|apply IH].
    cbn [forallb flat_map].
    pose proof (index_box_at ocr_data i) as Hb.
    destruct (box_at ocr_data i) as [b|].
    + destruct Hb as [-> [-> [-> ->]]]. rewrite IH. cbn [andb].
      destruct (forallb _ _); [|reflexivity].
      rewrite <- app_assoc. simpl. now destruct b.
    + cbn [andb].
      destruct (index (left ocr_data) i) as [?|e1] eqn:E1;
        destruct (index (top ocr_data) i) as [?|e2] eqn:E2;
        destruct (index (width ocr_data) i) as [?|e3] eqn:E3;
        destruct (index (height ocr_data) i) as [?|e4] eqn:E4;
        try (destruct Hb as [Hb|[Hb|[Hb|Hb]]]; discriminate Hb);
        repeat match goal with
        | H : index _ _ = Raise ?e |- _ =>
            unfold index in H;
            destruct (nth_error _ _) in H; [discriminate H|];
            injection H as <-
        end; reflexivity.
Qed.

Lemma find_text_positions_loop ocr_data t :
  find_text_positions ocr_data t
  = let hits := filter (entry_matches ocr_data (normalize_target t))
                       (seq 0 (List.length (text ocr_data))) in
    if forallb (fun i => match box_at ocr_data i with
                         | Some _ => true
                         | None => false
                         end) hits
    then Ok (flat_map (fun i => match box_at ocr_data i with
                                | Some b => [b]
                                | None => []
                                end) hits)
    else Raise IndexError.
Proof.
  unfold find_text_positions. cbv zeta.
  rewrite positions_loop_outcome; [reflexivity|].
  apply Forall_forall. intros i Hi. apply in_seq in Hi. lia.
Qed.

Lemma box_at_some ocr_data i :
  i < List.length (left ocr_data) -> i < List.length (top ocr_data) ->
  i < List.length (width ocr_data) -> i < List.length (height ocr_data) ->
  exists b, box_at ocr_data i = Some b.
Proof.
  intros H1 H2 H3 H4. unfold box_at.
  apply nth_error_Some in H1, H2, H3, H4.
  destruct (nth_error (left ocr_data) i); [|congruence].
  destruct (nth_error (top ocr_data) i); [|congruence].
  destruct (nth_error (width ocr_data) i); [|congruence].
  destruct (nth_error (height ocr_data) i); [|congruence]. eauto.
Qed.

Lemma find_text_positions_raises_index_error ocr_data t e :
  find_text_positions ocr_data t = Raise e -> e = IndexError.
Proof.
  rewrite find_text_positions_loop. cbv zeta.
  destruct (forallb _ _); congruence.
Qed.

Lemma boxes_length ocr_data l :
  (forall i, In i l -> exists b, box_at ocr_data i = Some b) ->
  List.length (flat_map (fun i => match box_at ocr_data i with
                                  | Some b => [b]
                                  | None => []
                                  end) l)
  = List.length l.
Proof.
  induction l as [|i l IH]; intros Hin; [reflexivity|].
  simpl. destruct (Hin i (or_introl eq_refl)) as [b ->]. simpl.
  f_equal. apply IH. intros k Hk. apply Hin. now right.
Qed.

(** X1: [find_text_positions] raises only [IndexError], and does so exactly
    when some entry whose text matches has no coordinate in one of the four
    lists; on OCR data whose coordinate lists are as long as the text list
    it always returns, with at most one box per entry. *)
Theorem find_text_positions_raises_only_on_short_lists ocr_data t :
  let hits := filter (entry_matches ocr_data (normalize_target t))
                     (seq 0 (List.length (text ocr_data))) in
  (find_text_positions ocr_data t = Raise IndexError <->
   exists i, In i hits /\ box_at ocr_data i = None) /\
  (forall e, find_text_positions ocr_data t = Raise e -> e = IndexError) /\
  (List.length (text ocr_data) <= List.length (left ocr_data) ->
   List.length (text ocr_data) <= List.length (top ocr_data) ->
   List.length (text ocr_data) <= List.length (width ocr_data) ->
   List.length (text ocr_data) <= List.length (height ocr_data) ->
   exists positions,
     find_text_positions ocr_data t = Ok positions /\
     List.length positions = List.length hits /\
     List.length positions <= List.length (text ocr_data)).
Proof.
  cbv zeta. rewrite find_text_positions_loop. cbv zeta.
  set (hits := filter _ _).
  set (has := fun i => match box_at ocr_data i with
                       | Some _ => true
                       | None => false
                       end).
  assert (Hall : forallb has hits = false <->
                 exists i, In i hits /\ box_at ocr_data i = None).
  { split.
    - intros H. destruct (forallb has hits) eqn:E; [discriminate|].
      clear H. induction hits as [|i l IH]; [discriminate|].
      simpl in E. apply andb_false_iff in E. destruct E as [E|E].
      + exists i. split; [now left|]. unfold has in E.
        now destruct (box_at ocr_data i).
      + destruct (IH E) as [k [Hk Hb]]. exists k. split; [now right|exact Hb].
    - intros [i [Hi Hb]].
      destruct (forallb has hits) eqn:E; [|reflexivity].
      rewrite forallb_forall in E. specialize (E i Hi).
      unfold has in E. now rewrite Hb in E. }
  split; [|split].
  - rewrite <- Hall. destruct (forallb has hits); split; congruence.
  - intros e. destruct (forallb has hits); congruence.
  - intros H1 H2 H3 H4.
    assert (Hin : forall i, In i hits -> exists b, box_at ocr_data i = Some b).
    { intros i Hi. apply filter_In in Hi. destruct Hi as [Hi _].
      apply in_seq in Hi. apply box_at_some; lia. }
    assert (Hf : forallb has hits = true).
    { apply forallb_forall. intros i Hi. destruct (Hin i Hi) as [b Hb].
      unfold has. now rewrite Hb. }
    rewrite Hf. eexists. split; [reflexivity|].
    pose proof (boxes_length ocr_data hits Hin) as Hlen.
    split; [exact Hlen|]. rewrite Hlen. unfold hits.
    etransitivity; [apply filter_length_le|]. now rewrite length_seq.
Qed.

Lemma find_text_positions_raises_only_on_short_lists_witness :
  exists positions,
    find_text_positions
      {| text := [lit "JOHN"; lit ""; lit "DOE"]; left := [0; 41; 45]%Z;
         top := [0; 0; 0]%Z; width := [40; 3; 40]%Z; height := [10; 10; 10]%Z |}
      (lit "John Doe") = Ok positions /\
    List.length positions
    = List.length
        (filter (entry_matches
                   {| text := [lit "JOHN"; lit ""; lit "DOE"];
                      left := [0; 41; 45]%Z; top := [0; 0; 0]%Z;
                      width := [40; 3; 40]%Z; height := [10; 10; 10]%Z |}
                   (normalize_target (lit "John Doe")))
                (seq 0 3)) /\
    List.length positions <= 3.
Proof.
  exact (proj2 (proj2 (find_text_positions_raises_only_on_short_lists
           {| text := [lit "JOHN"; lit ""; lit "DOE"]; left := [0; 41; 45]%Z;
              top := [0; 0; 0]%Z; width := [40; 3; 40]%Z;
              height := [10; 10; 10]%Z |} (lit "John Doe")))
           (le_n 3) (le_n 3) (le_n 3) (le_n 3)).
Defined.

Lemma lower_char_idem c : lower_char (lower_char c) = lower_char c.
Proof.
  destruct c as [[] [] [] [] [] [] [] []]; reflexivity.
Qed.

Lemma isspace_lower_char c : isspace (lower_char c) = isspace c.
Proof.
  destruct c as [[] [] [] [] [] [] [] []]; reflexivity.
Qed.

Lemma lower_idem s : lower (lower s) = lower s.
Proof.
  unfold lower. rewrite map_map. apply map_ext, lower_char_idem.
Qed.

Lemma lstrip_lower s : lstrip (lower s) = lower (lstrip s).
Proof.
  induction s as [|c s IH]; [reflexivity|].
  simpl. rewrite isspace_lower_char. now destruct (isspace c).
Qed.

Lemma strip_lower s : strip (lower s) = lower (strip s).
Proof.
  assert (Hrev : forall u, rev (lower u) = lower (rev u))
    by (intros u; unfold lower; symmetry; apply map_rev).
  unfold strip, rstrip.
  now rewrite lstrip_lower, Hrev, lstrip_lower, Hrev.
Qed.

Lemma truthy_lower s : truthy (lower s) = truthy s.
Proof. now destruct s. Qed.

Lemma entry_matches_lower_texts ocr_data nt i :
  entry_matches (lower_texts ocr_data) nt i = entry_matches ocr_data nt i.
Proof.
  unfold entry_matches, lower_texts. cbn [text].
  rewrite nth_error_map.
  destruct (nth_error (text ocr_data) i) as [t|]; [|reflexivity].
  simpl. now rewrite strip_lower, truthy_lower, lower_idem.
Qed.

(** X2: matching ignores the case of the OCR texts, and of the target it
    sees only what is left once the whitespace is removed and the rest put
    in lower case: the resolver answers the same on the OCR data with every
    text in lower case, and the same on two targets that agree once their
    whitespace is removed and the rest put in lower case. *)
Theorem find_text_positions_ignores_case_and_spacing ocr_data t :
  find_text_positions (lower_texts ocr_data) t = find_text_positions ocr_data t /\
  (forall t',
     lower (filter (fun c => negb (isspace c)) t')
     = lower (filter (fun c => negb (isspace c)) t) ->
     find_text_positions ocr_data t' = find_text_positions ocr_data t).
Proof.
  split.
  - rewrite !find_text_positions_loop. cbv zeta.
    change (text (lower_texts ocr_data)) with (map lower (text ocr_data)).
    rewrite length_map.
    rewrite (filter_ext (entry_matches (lower_texts ocr_data) (normalize_target t))
                        (entry_matches ocr_data (normalize_target t)))
      by (intros i; apply entry_matches_lower_texts).
    reflexivity.
  - intros t' H. unfold find_text_positions.
    now rewrite !normalize_target_filter, H.
Qed.

Lemma find_text_positions_ignores_case_and_spacing_witness :
  find_text_positions (ocr_of_words Fixture.john_doe) (lit "JOHN  doe")
  = find_text_positions (ocr_of_words Fixture.john_doe) (lit "John Doe").
Proof.
  exact (proj2 (find_text_positions_ignores_case_and_spacing
           (ocr_of_words Fixture.john_doe) (lit "John Doe"))
           (lit "JOHN  doe") eq_refl).
Defined.

End ResolverEdges.

(* ================================================================= *)
(** ** create_masked_image *)

Section MaskedImageFacts.
Import ImageMasker MaskedImage.

Lemma inside_mask_rectangle b px py :
  inside (mask_rectangle b) px py <-> near_box b px py.
Proof.
  unfold inside, mask_rectangle, near_box. cbv zeta. split; intros [H1 H2]; split; lia.
Qed.

Lemma unit_result (r : result unit) a : r = Ok a <-> r = Ok tt.
Proof. now destruct a. Qed.

(** The inner loop returns exactly when PIL accepts every rectangle. *)
Lemma draw_positions_ok im positions drawn rects :
  draw_positions im positions drawn = Ok rects <->
  Forall (fun r => draw_rectangle im r = Ok tt) (map mask_rectangle positions) /\
  rects = drawn ++ map mask_rectangle positions.
Proof.
  revert drawn. induction positions as [|pos positions IH]; intros drawn.
  - simpl. rewrite app_nil_r. split.
    + intros H. injection H as <-. split; [constructor|reflexivity].
    + now intros [_ ->].
  - cbn [draw_positions map].
    destruct (draw_rectangle im (mask_rectangle pos)) as [[]|e] eqn:E.
    + rewrite IH, <- app_assoc. cbn [app]. split.
      * intros [Hall ->]. split; [constructor; [exact E|exact Hall]|reflexivity].
      * intros [Hall ->]. split; [now inversion Hall|reflexivity].
    + split; [discriminate|]. intros [Hall _]. inversion Hall; congruence.
Qed.

Lemma draw_positions_raise im positions drawn e :
  draw_positions im positions drawn = Raise e ->
  exists r, draw_rectangle im r = Raise e.
Proof.
  revert drawn. induction positions as [|pos positions IH]; intros drawn;
    [discriminate|].
  cbn [draw_positions].
  destruct (draw_rectangle im (mask_rectangle pos)) as [[]|e'] eqn:E.
  - apply IH.
  - intros H. injection H as <-. eauto.
Qed.

(** The outer loop returns exactly when the resolver returns for every
    finding and PIL accepts every rectangle. *)
Lemma mask_findings_ok im ocr_data fs drawn rects :
  mask_findings im ocr_data fs drawn = Ok rects <->
  exists new,
    resolved ocr_data fs = Some new /\
    Forall (fun r => draw_rectangle im r = Ok tt) new /\
    rects = drawn ++ new.
Proof.
  revert drawn. induction fs as [|f fs IH]; intros drawn.
  - simpl. split.
    + intros H. injection H as <-. exists []. rewrite app_nil_r.
      split; [reflexivity|]. split; [constructor|reflexivity].
    + intros [new [H [_ ->]]]. injection H as <-. now rewrite app_nil_r.
  - cbn [mask_findings resolved].
    destruct (find_text_positions ocr_data (f_text f)) as [positions|e];
      [|split; [discriminate|intros [new [H _]]; discriminate H]].
    destruct (draw_positions im positions drawn) as [drawn'|e] eqn:Ed.
    + apply draw_positions_ok in Ed. destruct Ed as [Hall ->].
      rewrite IH. split.
      * intros [new [Hr [Hn ->]]]. rewrite Hr.
        exists (map mask_rectangle positions ++ new).
        split; [reflexivity|]. split; [now apply Forall_app|].
        now rewrite app_assoc.
      * intros [new [Hr [Hn ->]]].
        destruct (resolved ocr_data fs) as [rest|]; [|discriminate Hr].
        injection Hr as <-. apply Forall_app in Hn. destruct Hn as [_ Hn].
        exists rest. split; [reflexivity|]. split; [exact Hn|].
        now rewrite app_assoc.
    + split; [discriminate|]. intros [new [Hr [Hn _]]]. exfalso.
      destruct (resolved ocr_data fs) as [rest|]; [|discriminate Hr].
      injection Hr as <-. apply Forall_app in Hn. destruct Hn as [Hn _].
      assert (H : draw_positions im positions drawn
                  = Ok (drawn ++ map mask_rectangle positions))
        by (apply draw_positions_ok; auto).
      congruence.
Qed.

Lemma mask_findings_raise im ocr_data fs drawn e :
  mask_findings im ocr_data fs drawn = Raise e ->
  (e = IndexError /\
   exists f, In f fs /\
     find_text_positions ocr_data (f_text f) = Raise IndexError) \/
  (exists r, draw_rectangle im r = Raise e).
Proof.
  revert drawn. induction fs as [|f fs IH]; intros drawn; [discriminate|].
  cbn [mask_findings].
  destruct (find_text_positions ocr_data (f_text f)) as [positions|e'] eqn:E.
  - destruct (draw_positions im positions drawn) as [drawn'|e''] eqn:Ed.
    + intros H. destruct (IH _ H) as [[-> [f' [Hf' Hr]]]|Hd]; [left|now right].
      split; [reflexivity|]. exists f'. split; [now right|exact Hr].
    + intros H. injection H as <-. right.
      now apply draw_positions_raise in Ed.
  - intros H. injection H as <-.
    assert (e' = IndexError)
      by (eapply find_text_positions_raises_index_error, E).
    subst e'. left. split; [reflexivity|].
    exists f. split; [now left|exact E].
Qed.

(** On the OCR data of a word list the resolver returns for every
    finding. *)
Lemma resolved_words ws fs :
  resolved (ocr_of_words ws) fs
  = Some (flat_map (fun f =>
            map mask_rectangle
              (map word_box
                 (filter (word_matches (normalize_target (f_text f))) ws))) fs).
Proof.
  induction fs as [|f fs IH]; [reflexivity|].
  cbn [resolved flat_map]. now rewrite find_text_positions_words, IH.
Qed.

Lemma filter_none {A} (P : A -> bool) l :
  (forall a, In a l -> P a = false) -> filter P l = [].
Proof.
  induction l as [|a l IH]; [reflexivity|]. intros H.
  simpl. rewrite (H a (or_introl eq_refl)). apply IH.
  intros b Hb. apply H. now right.
Qed.

(** X3: let Tesseract read a list of words.  Then [create_masked_image]
    saves whenever PIL accepts every call; and whenever it saves, a pixel
    lies in one of the rectangles it filled exactly when it lies within two
    pixels of the box of an OCR word that matches the text of one of the
    findings, so that findings whose text matches no word add no
    rectangle. *)
Theorem create_masked_image_pixels im ws fs :
  get_text_boxes im = Ok (ocr_of_words ws) ->
  (Image_open im = Ok tt -> (forall r, draw_rectangle im r = Ok tt) ->
   (forall drawn, image_save im drawn = Ok tt) ->
   exists rects, create_masked_image im fs = Ok rects) /\
  (forall rects,
     create_masked_image im fs = Ok rects ->
     (forall px py,
        (exists r, In r rects /\ inside r px py) <->
        (exists f wd,
           In f fs /\ In wd ws /\
           word_matches (normalize_target (f_text f)) wd = true /\
           near_box (word_box wd) px py)) /\
     ((forall f wd, In f fs -> In wd ws ->
         word_matches (normalize_target (f_text f)) wd = false) ->
      rects = [])).
Proof.
  intros Hocr.
  set (all := flat_map (fun f =>
                map mask_rectangle
                  (map word_box
                     (filter (word_matches (normalize_target (f_text f))) ws)))
                fs).
  split.
  { intros Hopen Hdraw Hsave. exists all. unfold create_masked_image.
    rewrite Hopen, Hocr.
    assert (Hm : mask_findings im (ocr_of_words ws) fs [] = Ok all).
    { apply mask_findings_ok. exists all. split; [apply resolved_words|].
      split; [|reflexivity]. apply Forall_forall. intros r _. apply Hdraw. }
    now rewrite Hm, Hsave. }
  intros rects H. unfold create_masked_image in H.
  destruct (Image_open im) as [u|e]; [|discriminate H].
  rewrite Hocr in H.
  destruct (mask_findings im (ocr_of_words ws) fs []) as [drawn|e] eqn:Em;
    [|discriminate H].
  destruct (image_save im drawn) as [u'|e]; [|discriminate H].
  injection H as <-.
  apply mask_findings_ok in Em. destruct Em as [new [Hr [_ ->]]].
  rewrite resolved_words in Hr. injection Hr as <-. cbn [app]. fold all.
  split.
  - intros px py. split.
    + intros [r [Hr Hin]]. apply in_flat_map in Hr.
      destruct Hr as [f [Hf Hr]].
      apply in_map_iff in Hr. destruct Hr as [b [<- Hb]].
      apply in_map_iff in Hb. destruct Hb as [wd [<- Hwd]].
      apply filter_In in Hwd. destruct Hwd as [Hwd Hm].
      exists f, wd. split; [exact Hf|]. split; [exact Hwd|].
      split; [exact Hm|]. now apply inside_mask_rectangle.
    + intros [f [wd [Hf [Hwd [Hm Hn]]]]].
      exists (mask_rectangle (word_box wd)). split.
      * apply in_flat_map. exists f. split; [exact Hf|].
        apply in_map, in_map, filter_In. now split.
      * now apply inside_mask_rectangle.
  - intros Hnone. unfold all. clear all.
    induction fs as [|f fs IH]; [reflexivity|].
    cbn [flat_map].
    rewrite IH by (intros f' wd Hf'; apply Hnone; now right).
    rewrite app_nil_r.
    replace (filter (word_matches (normalize_target (f_text f))) ws)
      with (@nil OCRWord); [reflexivity|].
    symmetry. apply filter_none.
    intros wd Hwd. apply Hnone; [now left|exact Hwd].
Qed.

Lemma create_masked_image_pixels_witness :
  exists rects,
    create_masked_image Fixture2.john_doe_scan [Fixture2.john_doe_finding]
    = Ok rects /\
    rects = [ (-2, -2, 42, 12)%Z; (43, -2, 87, 12)%Z ] /\
    exists r, In r rects /\ inside r 85 5.
Proof.
  destruct (@create_masked_image_pixels Fixture2.john_doe_scan
              Fixture.john_doe [Fixture2.john_doe_finding] eq_refl)
    as [Hret Hpix].
  destruct (Hret eq_refl (fun _ => eq_refl) (fun _ => eq_refl))
    as [rects Hrun].
  exists rects. split; [exact Hrun|].
  destruct (Hpix rects Hrun) as [Hiff _].
  split; [vm_compute in Hrun; now injection Hrun as <-|].
  apply Hiff.
  exists Fixture2.john_doe_finding, (nth 1 Fixture.john_doe
                                       (nth 0 Fixture.john_doe
                                          {| word_text := []; word_box :=
                                             {| x := 0; y := 0; w := 0; h := 0 |} |})).
  split; [now left|]. split; [right; now left|].
  split; [reflexivity|]. unfold near_box. cbn. lia.
Defined.

(** X4: [create_masked_image] saves exactly when [Image.open] and the OCR
    return, the resolver returns for every finding, PIL accepts every
    rectangle and the save; the rectangles filled are then those of the
    positions that the resolver returned, finding by finding.  When it
    raises, the exception is that of [Image.open], of the OCR, the
    [IndexError] of the resolver, that of a [draw.rectangle] or that of the
    save, and nothing is saved before the last rectangle is filled. *)
Theorem create_masked_image_outcome im fs :
  (forall rects,
     create_masked_image im fs = Ok rects <->
     Image_open im = Ok tt /\
     exists ocr_data,
       get_text_boxes im = Ok ocr_data /\
       resolved ocr_data fs = Some rects /\
       Forall (fun r => draw_rectangle im r = Ok tt) rects /\
       image_save im rects = Ok tt) /\
  (forall e,
     create_masked_image im fs = Raise e ->
     Image_open im = Raise e \/
     get_text_boxes im = Raise e \/
     (e = IndexError /\
      exists ocr_data f,
        get_text_boxes im = Ok ocr_data /\ In f fs /\
        find_text_positions ocr_data (f_text f) = Raise IndexError) \/
     (exists r, draw_rectangle im r = Raise e) \/
     (exists rects, image_save im rects = Raise e)).
Proof.
  unfold create_masked_image. split.
  - intros rects.
    destruct (Image_open im) as [[]|e];
      [|split; [discriminate|intros [H _]; discriminate H]].
    destruct (get_text_boxes im) as [ocr_data|e].
    2:{ split; [discriminate|]. intros [_ [o [H _]]]. discriminate H. }
    destruct (mask_findings im ocr_data fs []) as [drawn|e] eqn:Em.
    + apply mask_findings_ok in Em. destruct Em as [new [Hr [Hn ->]]].
      cbn [app]. split.
      * destruct (image_save im new) as [[]|e] eqn:Es; [|discriminate].
        intros H. injection H as <-. split; [reflexivity|].
        exists ocr_data. auto.
      * intros [_ [o [Ho [Hr' [_ Hs]]]]]. injection Ho as <-.
        assert (new = rects) by congruence. subst new. now rewrite Hs.
    + split; [discriminate|].
      intros [_ [o [Ho [Hr [Hn _]]]]]. injection Ho as <-. exfalso.
      assert (H : mask_findings im ocr_data fs [] = Ok rects)
        by (apply mask_findings_ok; exists rects; auto).
      congruence.
  - intros e.
    destruct (Image_open im) as [[]|e0];
      [|intros H; injection H as <-; now left].
    destruct (get_text_boxes im) as [ocr_data|e0];
      [|intros H; injection H as <-; right; now left].
    destruct (mask_findings im ocr_data fs []) as [drawn|e0] eqn:Em.
    + destruct (image_save im drawn) as [[]|e1] eqn:Es; [discriminate|].
      intros H. injection H as <-. do 4 right. eauto.
    + intros H. injection H as <-.
      destruct (mask_findings_raise _ _ _ _ Em) as [[-> [f [Hf Hr]]]|Hd].
      * do 2 right. left. split; [reflexivity|]. exists ocr_data, f. auto.
      * do 3 right. now left.
Qed.

End MaskedImageFacts.

(* ================================================================= *)
(** ** The PDF masker *)

Section PdfMaskerFacts.
Import PDFMasker PDFSpec Story.

Lemma escape_char_no_angle c :
  Forall (fun x => is_angle x = false) (escape_char c).
Proof.
  unfold escape_char, is_angle.
  destruct (Ascii.eqb c "<") eqn:E1; [repeat constructor|].
  destruct (Ascii.eqb c ">") eqn:E2; [repeat constructor|].
  constructor; [|constructor]. now rewrite E1, E2.
Qed.

Lemma escape_char_fixed c : is_angle c = false -> escape_char c = [c].
Proof.
  unfold escape_char, is_angle. intros H.
  apply orb_false_iff in H. destruct H as [-> ->]. reflexivity.
Qed.

Lemma escape_markup_fixed s :
  Forall (fun x => is_angle x = false) s -> escape_markup s = s.
Proof.
  induction 1 as [|c s Hc Hs IH]; [reflexivity|].
  unfold escape_markup in *. simpl. rewrite escape_char_fixed by exact Hc.
  simpl. now rewrite IH.
Qed.

Lemma escape_markup_no_angle s :
  Forall (fun x => is_angle x = false) (escape_markup s).
Proof.
  unfold escape_markup. induction s as [|c s IH]; [constructor|].
  simpl. apply Forall_app. split; [apply escape_char_no_angle|exact IH].
Qed.

Lemma escape_char_length c :
  List.length (escape_char c) = if is_angle c then 4 else 1.
Proof.
  unfold escape_char, is_angle.
  destruct (Ascii.eqb c "<"); [reflexivity|].
  destruct (Ascii.eqb c ">"); reflexivity.
Qed.

(** X5: the text that [escape_html_entities] returns holds no angle
    bracket; escaping it again changes nothing; and it is longer than the
    input by three characters for each angle bracket of the input. *)
Theorem escape_html_entities_properties s :
  Forall (fun c => c <> "<"%char /\ c <> ">"%char) (escape_html_entities s) /\
  escape_html_entities (escape_html_entities s) = escape_html_entities s /\
  List.length (escape_html_entities s)
  = List.length s + 3 * List.length (filter is_angle s).
Proof.
  rewrite !escape_html_entities_chars. split; [|split].
  - eapply Forall_impl; [|apply escape_markup_no_angle].
    intros c Hc. unfold is_angle in Hc. apply orb_false_iff in Hc.
    destruct Hc as [H1 H2]. split; intros ->; discriminate.
  - apply escape_markup_fixed, escape_markup_no_angle.
  - unfold escape_markup. induction s as [|c s IH]; [reflexivity|].
    cbn [flat_map filter]. rewrite length_app, escape_char_length, IH.
    destruct (is_angle c); simpl; lia.
Qed.

(** What reportlab makes of a story of blocks. *)
Lemma built_blocks rl markups :
  built rl (blocks markups)
  = match find (fun m => match paragraph_error rl m with
                         | Some _ => true
                         | None => false
                         end) markups with
    | Some m =>
        match paragraph_error rl m with
        | Some msg => Raise (ValueError msg)
        | None => Ok (blocks markups)
        end
    | None => Ok (blocks markups)
    end.
Proof.
  induction markups as [|m markups IH]; [reflexivity|].
  cbn [blocks flat_map app built find]. fold (blocks markups).
  destruct (paragraph_error rl m) as [msg|] eqn:E; [now rewrite E|].
  rewrite IH.
  destruct (find _ markups) as [m'|]; [|reflexivity].
  now destruct (paragraph_error rl m').
Qed.

Lemma built_ok rl story story' : built rl story = Ok story' -> story' = story.
Proof.
  revert story'. induction story as [|[m|] story IH]; intros story' H;
    simpl in H.
  - now injection H as <-.
  - destruct (paragraph_error rl m); [discriminate H|].
    destruct (built rl story) as [r|e]; [|discriminate H].
    injection H as <-. now rewrite (IH r eq_refl).
  - destruct (built rl story) as [r|e]; [|discriminate H].
    injection H as <-. now rewrite (IH r eq_refl).
Qed.

Lemma reflow_blocks text :
  reflow text
  = blocks (map flowed_block
              (filter (fun para => negb (blank para)) (split [LF; LF] text))).
Proof.
  unfold reflow, reflow_with, blocks, flowed_block.
  induction (filter _ _) as [|p l IH]; [reflexivity|].
  simpl. now rewrite IH.
Qed.

Lemma forallb_blank_add_to_head c l :
  l <> [] ->
  forallb blank (add_to_head c l) = isspace c && forallb blank l.
Proof.
  destruct l as [|p l]; [congruence|]. intros _. simpl.
  now rewrite andb_assoc.
Qed.

(** A text is blank exactly when every field between line-feed separators
    is. *)
Lemma forallb_blank_split_from sep :
  Forall (eq LF) sep -> sep <> [] ->
  forall s skip,
    firstn skip s = repeat LF skip ->
    forallb blank (split_from sep skip s) = blank s.
Proof.
  intros Hsep Hne. destruct sep as [|c0 sep0]; [congruence|].
  assert (c0 = LF) by (inversion Hsep; congruence). subst c0.
  assert (Hsep0 : Forall (eq LF) sep0) by now inversion Hsep.
  induction s as [|c s IH]; intros skip Hskip.
  - destruct skip; [reflexivity|discriminate].
  - destruct skip as [|k].
    + cbn [split_from].
      destruct (prefixb (LF :: sep0) (c :: s)) eqn:Hp.
      * pose proof Hp as Hp'. apply prefixb_spec in Hp'.
        destruct Hp' as [r Hr]. injection Hr as -> ->.
        cbn [forallb]. cbn [List.length].
        replace (S (List.length sep0) - 1) with (List.length sep0) by lia.
        rewrite IH by now apply firstn_repeat_prefix. reflexivity.
      * rewrite forallb_blank_add_to_head by apply split_from_nonempty.
        now rewrite (IH 0 eq_refl).
    + simpl in Hskip. injection Hskip as -> Hk.
      cbn [split_from]. rewrite IH by exact Hk. reflexivity.
Qed.

Lemma forallb_blank_split sep s :
  Forall (eq LF) sep -> sep <> [] ->
  forallb blank (split sep s) = blank s.
Proof. intros H1 H2. now apply forallb_blank_split_from. Qed.

Lemma filter_nil_forallb {A} (P : A -> bool) l :
  filter (fun a => negb (P a)) l = [] <-> forallb P l = true.
Proof.
  induction l as [|a l IH]; simpl; [tauto|].
  destruct (P a); simpl; [exact IH|]. split; discriminate.
Qed.

Lemma blocks_nil markups : blocks markups = [] <-> markups = [].
Proof.
  destruct markups; simpl; split; congruence.
Qed.

(** X6: the story of [create_masked_pdf] is empty exactly when the text is
    empty or whitespace-only. *)
Theorem create_masked_pdf_empty_iff_blank rl text :
  create_masked_pdf rl text = Ok [] <-> blank text = true.
Proof.
  rewrite create_masked_pdf_built.
  rewrite <- (@forallb_blank_split [LF; LF] text)
    by (try discriminate; repeat constructor).
  rewrite <- filter_nil_forallb. unfold reflow, reflow_with.
  destruct (filter (fun a => negb (blank a)) (split [LF; LF] text))
    as [|para paras].
  - simpl. split; reflexivity.
  - split; [|discriminate].
    intros H. apply built_ok in H. discriminate H.
Qed.

Lemma plain_spaced_join sep l :
  plain_spaced sep -> Forall plain_spaced l -> plain_spaced (join sep l).
Proof.
  intros Hsep Hl. induction Hl as [|p l Hp Hl IH]; [constructor|].
  destruct l as [|q l]; [exact Hp|].
  change (join sep (p :: q :: l)) with (p ++ sep ++ join sep (q :: l)).
  apply Forall_app. split; [exact Hp|].
  apply Forall_app. split; [exact Hsep|exact IH].
Qed.

Lemma is_word_plain u : is_word u -> plain_spaced u.
Proof.
  intros [_ H]. rewrite forallb_forall in H.
  apply Forall_forall. intros c Hc Hs.
  specialize (H c Hc). rewrite Hs in H. discriminate.
Qed.

Lemma plain_spaced_escape s : plain_spaced s -> plain_spaced (escape_markup s).
Proof.
  unfold plain_spaced, escape_markup.
  induction 1 as [|c s Hc Hs IH]; [constructor|].
  simpl. apply Forall_app. split; [|exact IH].
  destruct (isspace c) eqn:E.
  - rewrite escape_char_space by exact E.
    constructor; [intros _; now apply Hc|constructor].
  - destruct (escape_char_nonspace c E) as [_ Hall].
    rewrite forallb_forall in Hall. apply Forall_forall.
    intros x Hx Hsx. specialize (Hall x Hx). rewrite Hsx in Hall. discriminate.
Qed.

Lemma split_ws_nonblank line : blank line = false -> split_ws line <> [].
Proof.
  intros Hb Hnil.
  pose proof (join_split_ws line) as H. rewrite Hnil in H. simpl in H.
  symmetry in H. apply filter_nil_forallb in H. unfold blank in Hb. congruence.
Qed.

Lemma join_nonempty sep l :
  l <> [] -> Forall (fun p => p <> []) l -> join sep l <> [].
Proof.
  intros Hl Hall. destruct l as [|p l]; [congruence|].
  inversion Hall as [|? ? Hp _]; subst.
  destruct l as [|q l]; [exact Hp|].
  change (join sep (p :: q :: l)) with (p ++ sep ++ join sep (q :: l)).
  destruct p; [congruence|discriminate].
Qed.

Lemma collapse_line_tidy line :
  blank line = false ->
  escape_markup (collapse_whitespace line) <> [] /\
  plain_spaced (escape_markup (collapse_whitespace line)).
Proof.
  intros Hb. unfold collapse_whitespace. split.
  - intros H. apply (f_equal truthy) in H. rewrite truthy_escape in H.
    assert (Hj : join (lit " ") (split_ws line) <> []).
    { apply join_nonempty; [now apply split_ws_nonblank|].
      eapply Forall_impl; [|apply split_ws_words]. now intros u [Hu _]. }
    apply truthy_spec in Hj. rewrite Hj in H. discriminate H.
  - apply plain_spaced_escape, plain_spaced_join.
    + constructor; [reflexivity|constructor].
    + eapply Forall_impl; [|apply split_ws_words]. apply is_word_plain.
Qed.

Lemma flowed_block_tidy para :
  blank para = false ->
  flowed_block para <> [] /\ plain_spaced (flowed_block para).
Proof.
  intros Hb. unfold flowed_block, block.
  set (lines := filter (fun line => negb (blank line)) (split [LF] para)).
  assert (Hlines : Forall (fun line => blank line = false) lines).
  { apply Forall_forall. intros line Hl. apply filter_In in Hl.
    now apply negb_true_iff. }
  assert (Hne : lines <> []).
  { intros Hnil. unfold lines in Hnil. apply filter_nil_forallb in Hnil.
    rewrite forallb_blank_split in Hnil
      by (try discriminate; repeat constructor). congruence. }
  split.
  - apply join_nonempty.
    + destruct lines; [congruence|discriminate].
    + apply Forall_map. eapply Forall_impl; [|exact Hlines].
      intros line Hl. now apply collapse_line_tidy.
  - apply plain_spaced_join.
    + repeat constructor; discriminate.
    + apply Forall_map. eapply Forall_impl; [|exact Hlines].
      intros line Hl. now apply collapse_line_tidy.
Qed.

(** X7: [create_masked_pdf] makes one markup for each paragraph of the text
    that is not blank; every markup is non-empty and holds no whitespace
    other than the plain space, so no line feed reaches the document.  It
    builds a story exactly when reportlab parses every markup; the story is
    then one paragraph followed by one spacer for each markup, in order.
    Otherwise it ends with the [ValueError] of reportlab for one of the
    markups. *)
Theorem create_masked_pdf_story rl text :
  exists markups,
    List.length markups
    = List.length (filter (fun para => negb (blank para))
                          (split [LF; LF] text)) /\
    Forall (fun m => m <> [] /\ plain_spaced m) markups /\
    (forall story,
       create_masked_pdf rl text = Ok story <->
       story = blocks markups /\
       Forall (fun m => paragraph_error rl m = None) markups) /\
    (forall e,
       create_masked_pdf rl text = Raise e ->
       exists m msg,
         In m markups /\ paragraph_error rl m = Some msg /\
         e = ValueError msg).
Proof.
  exists (map flowed_block
            (filter (fun para => negb (blank para)) (split [LF; LF] text))).
  set (markups := map flowed_block _).
  assert (Hrun : create_masked_pdf rl text = built rl (blocks markups))
    by (rewrite create_masked_pdf_built; now rewrite reflow_blocks).
  rewrite Hrun, built_blocks.
  set (rejected := fun m => match paragraph_error rl m with
                            | Some _ => true
                            | None => false
                            end).
  split; [apply length_map|]. split.
  { apply Forall_map, Forall_forall. intros para Hp.
    apply filter_In in Hp. destruct Hp as [_ Hb].
    apply flowed_block_tidy. now apply negb_true_iff. }
  destruct (find rejected markups) as [m|] eqn:Ef.
  - destruct (find_some _ _ Ef) as [Hin Hr]. unfold rejected in Hr.
    destruct (paragraph_error rl m) as [msg|] eqn:Em; [|discriminate Hr].
    split.
    + intros story. split; [discriminate|].
      intros [_ Hall]. rewrite Forall_forall in Hall.
      specialize (Hall m Hin). congruence.
    + intros e H. injection H as <-. exists m, msg. auto.
  - split; [|discriminate].
    intros story. split.
    + intros H. injection H as <-. split; [reflexivity|].
      apply Forall_forall. intros m Hin.
      pose proof (find_none _ _ Ef m Hin) as Hr. unfold rejected in Hr.
      now destruct (paragraph_error rl m).
    + now intros [-> _].
Qed.

End PdfMaskerFacts.

(* ================================================================= *)
(** ** The CSV analyzer: analysis *)

Section CsvAnalysisFacts.
Import CSVAnalyzer CSVFacts.

Lemma map_snd_combine {A B} (l1 : list A) (l2 : list B) :
  List.length l1 = List.length l2 -> map snd (combine l1 l2) = l2.
Proof.
  revert l2. induction l1 as [|a l1 IH]; intros [|b l2] H; simpl in *;
    try discriminate; [reflexivity|].
  f_equal. apply IH. lia.
Qed.

Lemma replay_app a b wd : replay (a ++ b) wd = replay b (replay a wd).
Proof. unfold replay. apply fold_left_app. Qed.

Lemma calls_replay cs wd : calls (replay cs wd) = calls wd ++ cs.
Proof.
  revert wd. induction cs as [|c cs IH]; intros wd; simpl.
  - now rewrite app_nil_r.
  - rewrite IH. simpl. now rewrite <- app_assoc.
Qed.

Lemma replay_frame cs wd :
  np_global (replay cs wd) = np_global wd /\
  heap (replay cs wd) = heap wd /\
  cls_instance (replay cs wd) = cls_instance wd /\
  cls_initialized (replay cs wd) = cls_initialized wd /\
  singleton_instance (replay cs wd) = singleton_instance wd /\
  loads (replay cs wd) = loads wd.
Proof.
  revert wd. induction cs as [|c cs IH]; intros wd; simpl; [repeat split|].
  destruct (IH (log c wd)) as [H1 [H2 [H3 [H4 [H5 H6]]]]].
  rewrite H1, H2, H3, H4, H5, H6. repeat split.
Qed.

Variable s : self.
Variable threshold : Q.
Variable entities : option (list pystr).

(** [analyze_text] on the text of a present cell. *)
Lemma analyze_text_cell v wd :
  notna v = true ->
  analyze_text s (str v) en threshold entities wd
  = (cell_findings s threshold entities v,
     replay (map CallAnalyze (texts_of [v])) wd).
Proof.
  intros Hn. rewrite analyze_text_run, guard_blank.
  unfold cell_findings, texts_of, scanned. cbn [flat_map]. rewrite Hn.
  destruct (blank (str v)); reflexivity.
Qed.

Let item_ok := CSVFacts.item_ok s threshold entities.

Lemma scan_column_ok labels enumerated column_pii wd items wd' :
  scan_column s threshold entities labels enumerated column_pii wd
  = (Ok items, wd') ->
  wd' = replay (map CallAnalyze (texts_of (map snd enumerated))) wd /\
  exists new, items = column_pii ++ new /\
              Forall (item_ok labels enumerated) new.
Proof.
  revert column_pii wd.
  induction enumerated as [|[idx v] rest IH]; intros column_pii wd H.
  - simpl in H. injection H as <- <-. split; [reflexivity|].
    exists []. split; [now rewrite app_nil_r|constructor].
  - assert (Hweak : forall new,
              Forall (item_ok labels rest) new ->
              Forall (item_ok labels ((idx, v) :: rest)) new).
    { intros new. apply Forall_impl. intros it [H1 [i' [v' [H2 H3]]]].
      split; [exact H1|]. exists i', v'. split; [now right|exact H3]. }
    cbn [scan_column] in H.
    replace (texts_of (map snd ((idx, v) :: rest)))
      with (texts_of [v] ++ texts_of (map snd rest))
      by (unfold texts_of; simpl; now rewrite app_nil_r).
    rewrite map_app, replay_app.
    destruct (notna v) eqn:Hn.
    + apply bind_ok in H. destruct H as [found [w1 [Ha Hk]]].
      rewrite analyze_text_cell in Ha by exact Hn.
      injection Ha as Hf <-.
      destruct found as [|f fs].
      * apply IH in Hk. destruct Hk as [-> [new [-> Hnew]]].
        split; [reflexivity|]. exists new. split; [reflexivity|auto].
      * destruct (nth_error labels idx) as [label|] eqn:El;
          [|discriminate Hk].
        apply IH in Hk. destruct Hk as [-> [new [-> Hnew]]].
        split; [reflexivity|].
        eexists (_ :: new). split; [now rewrite <- app_assoc|].
        constructor; [|auto].
        split; [discriminate|]. exists idx, v. cbn.
        repeat split; auto; now left.
    + assert (Ht : texts_of [v] = []).
      { unfold texts_of, scanned. cbn [flat_map]. now rewrite Hn. }
      rewrite Ht. simpl. apply IH in H.
      destruct H as [-> [new [-> Hnew]]].
      split; [reflexivity|]. exists new. split; [reflexivity|auto].
Qed.

Lemma dict_get_count_type t k d :
  dict_get k (count_type t d)
  = dict_get k d + (if list_eq_dec ascii_dec t k then 1 else 0).
Proof.
  induction d as [|[k' n] rest IH]; simpl.
  - destruct (list_eq_dec ascii_dec t k); reflexivity.
  - destruct (list_eq_dec ascii_dec k' t) as [->|Hne]; simpl.
    + destruct (list_eq_dec ascii_dec t k); lia.
    + destruct (list_eq_dec ascii_dec k' k) as [->|Hk]; [|exact IH].
      destruct (list_eq_dec ascii_dec t k); [congruence|lia].
Qed.

Lemma in_keys_count_type t k d :
  In k (map fst (count_type t d)) <-> k = t \/ In k (map fst d).
Proof.
  induction d as [|[k' n] rest IH]; simpl.
  - intuition congruence.
  - destruct (list_eq_dec ascii_dec k' t) as [->|Hne]; simpl.
    + intuition congruence.
    + rewrite IH. intuition congruence.
Qed.

Lemma NoDup_count_type t d :
  NoDup (map fst d) -> NoDup (map fst (count_type t d)).
Proof.
  induction d as [|[k' n] rest IH]; simpl; intros H.
  - constructor; [intros []|constructor].
  - inversion H as [|? ? Hnin Hnd]; subst.
    destruct (list_eq_dec ascii_dec k' t) as [->|Hne]; simpl.
    + constructor; assumption.
    + constructor; [|now apply IH].
      rewrite in_keys_count_type. intros [->|Hin]; [congruence|contradiction].
Qed.

Lemma summarize_types_fold items :
  summarize_types items
  = fold_left (fun acc f => count_type (entity_type f) acc)
              (flat_map pii_findings items) [].
Proof.
  unfold summarize_types. generalize (@nil (pystr * nat)).
  induction items as [|it items IH]; intros acc; [reflexivity|].
  cbn [fold_left flat_map]. rewrite fold_left_app. apply IH.
Qed.

Lemma tally_fold fs acc k :
  NoDup (map fst acc) ->
  let d := fold_left (fun acc f => count_type (entity_type f) acc) fs acc in
  NoDup (map fst d) /\
  dict_get k d
  = dict_get k acc +
    List.length (filter (fun f => if list_eq_dec ascii_dec (entity_type f) k
                                  then true else false) fs).
Proof.
  revert acc. induction fs as [|f fs IH]; intros acc Hnd; cbv zeta.
  - simpl. split; [exact Hnd|lia].
  - cbn [fold_left filter].
    destruct (IH (count_type (entity_type f) acc)
                 (@NoDup_count_type (entity_type f) acc Hnd))
      as [H1 H2].
    split; [exact H1|]. rewrite H2, dict_get_count_type.
    destruct (list_eq_dec ascii_dec (entity_type f) k); simpl; lia.
Qed.

(** The entry that [analyze_dataframe] builds from the items of a column. *)
Lemma column_result_ok items :
  Forall (fun item => pii_findings item <> []) items ->
  column_summary_ok (column_result items).
Proof.
  intros Hitems. unfold column_summary_ok.
  destruct items as [|it items].
  - simpl. repeat split; try constructor; try discriminate; congruence.
  - cbn [column_result has_pii pii_count pii_types all_findings].
    split; [reflexivity|]. split; [split; [discriminate|reflexivity]|].
    split; [exact Hitems|].
    rewrite summarize_types_fold.
    pose proof (fun k => @tally_fold (flat_map pii_findings (it :: items))
                           [] k (NoDup_nil pystr)) as H.
    cbv zeta in H. split; [apply (H []) |].
    intros k. destruct (H k) as [_ ->]. reflexivity.
Qed.

Lemma scan_columns_ok d cols acc wd results wd' :
  scan_columns s threshold entities d cols acc wd = (Ok results, wd') ->
  wd' = replay (map CallAnalyze
                  (flat_map (fun jc => texts_of (column_values d (fst jc))) cols))
               wd /\
  exists new,
    results = acc ++ new /\ map fst new = map snd cols /\
    Forall column_summary_ok (map snd new).
Proof.
  revert acc wd. induction cols as [|[j column] rest IH]; intros acc wd H.
  - simpl in H. injection H as <- <-. split; [reflexivity|].
    exists []. split; [now rewrite app_nil_r|]. split; constructor.
  - cbn [scan_columns] in H. apply bind_ok in H.
    destruct H as [items [w1 [Hc Hk]]].
    apply scan_column_ok in Hc. destruct Hc as [-> [new [-> Hnew]]].
    apply IH in Hk. destruct Hk as [-> [more [-> [Hkeys Hok]]]].
    split.
    + cbn [flat_map fst]. rewrite map_app, replay_app.
      unfold enumerate. rewrite map_snd_combine; [reflexivity|].
      now rewrite length_seq.
    + eexists (_ :: more). split; [now rewrite <- app_assoc|].
      split; [simpl; now rewrite Hkeys|].
      simpl. constructor; [|exact Hok].
      apply column_result_ok. simpl.
      eapply Forall_impl; [|exact Hnew]. now intros it [Hne _].
Qed.

Lemma select_rows_ok np df sample_size wd d sampled wd' :
  select_rows np df sample_size wd = (Ok (d, sampled), wd') ->
  wd' = wd /\ columns d = columns df /\ (sampled = false -> d = df) /\
  (sampled = true ->
   exists n, sample_size = Some n /\ (0 < n < Z.of_nat (len df))%Z /\
     d = take df (fst (choice np (seeded np 42) (len df) (Z.to_nat n)))).
Proof.
  intros H. destruct sample_size as [n|].
  - destruct (Z.eq_dec n 0) as [->|Hn0].
    { rewrite select_rows_all in H by (left; reflexivity).
      injection H as <- <- <-. repeat split; auto. discriminate. }
    destruct (Z_lt_le_dec n (Z.of_nat (len df))) as [Hlt|Hge].
    + destruct (Z_lt_le_dec n 0) as [Hneg|Hpos].
      * unfold select_rows, sample, bind in H.
        destruct (Z.eqb_spec n 0); [lia|].
        destruct (Z.ltb_spec n (Z.of_nat (len df))); [|lia]. simpl in H.
        destruct (Z.ltb_spec n 0); [discriminate|lia].
      * rewrite select_rows_sampled in H by lia.
        injection H as <- <- <-. repeat split; try discriminate.
        intros _. exists n. repeat split; auto; lia.
    + rewrite select_rows_all in H by (right; exact Hge).
      injection H as <- <- <-. repeat split; auto. discriminate.
  - injection H as <- <- <-. repeat split; auto. discriminate.
Qed.

Lemma analyze_dataframe_ok np df sample_size wd a wd' :
  analyze_dataframe s np df sample_size threshold entities wd = (Ok a, wd') ->
  exists d sampled results,
    select_rows np df sample_size wd = (Ok (d, sampled), wd) /\
    scan_columns s threshold entities d (enumerate (columns d)) [] wd
    = (Ok results, wd') /\
    a = {| total_columns := List.length (columns df);
           total_rows := len df;
           analyzed_rows := len d;
           is_sampled := sampled;
           column_results := results |}.
Proof.
  intros H. unfold analyze_dataframe in H.
  apply bind_ok in H. destruct H as [[d sampled] [w1 [Hsel H]]].
  pose proof (select_rows_ok _ _ _ _ Hsel) as [-> _].
  apply bind_ok in H. destruct H as [results [w2 [Hscan H]]].
  injection H as <- <-. exists d, sampled, results. auto.
Qed.

Lemma enumerate_snd {A} (l : list A) : map snd (enumerate l) = l.
Proof. unfold enumerate. apply map_snd_combine. now rewrite length_seq. Qed.

(** The entries of an analysis, one per column. *)
Lemma analyze_dataframe_entries np df sample_size wd a wd' :
  analyze_dataframe s np df sample_size threshold entities wd = (Ok a, wd') ->
  total_columns a = List.length (columns df) /\
  map fst (column_results a) = columns df /\
  Forall column_summary_ok (map snd (column_results a)).
Proof.
  intros H. apply analyze_dataframe_ok in H.
  destruct H as [d [sampled [results [Hsel [Hscan ->]]]]].
  cbn [total_columns column_results].
  apply select_rows_ok in Hsel. destruct Hsel as [_ [Hcols _]].
  apply scan_columns_ok in Hscan.
  destruct Hscan as [_ [new [-> [Hkeys Hok]]]]. simpl.
  rewrite enumerate_snd in Hkeys.
  repeat split; auto; congruence.
Qed.

(** X8: the analysis that [analyze_dataframe] returns has the column and row
    counts of the table and one entry per column, in the order of the
    columns.  In every entry the count is the number of items, the flag
    tells whether there are items, every item has findings, and the type
    summary holds each entity type once, with the number of findings of
    that type in the column.  Without sampling all rows are analyzed. *)
Theorem analyze_dataframe_summary np df sample_size wd a wd' :
  analyze_dataframe s np df sample_size threshold entities wd = (Ok a, wd') ->
  total_columns a = List.length (columns df) /\
  total_rows a = len df /\
  map fst (column_results a) = columns df /\
  Forall column_summary_ok (map snd (column_results a)) /\
  (is_sampled a = false -> analyzed_rows a = total_rows a).
Proof.
  intros H. apply analyze_dataframe_ok in H.
  destruct H as [d [sampled [results [Hsel [Hscan ->]]]]].
  cbn [total_columns total_rows column_results is_sampled analyzed_rows].
  apply select_rows_ok in Hsel. destruct Hsel as [_ [Hcols [Hall _]]].
  apply scan_columns_ok in Hscan.
  destruct Hscan as [_ [new [-> [Hkeys Hok]]]]. simpl.
  rewrite enumerate_snd in Hkeys.
  repeat split; auto; try congruence.
  intros ->. now rewrite (Hall eq_refl).
Qed.

Lemma texts_of_length vs : List.length (texts_of vs) <= List.length vs.
Proof.
  unfold texts_of. induction vs as [|v vs IH]; [reflexivity|].
  simpl. rewrite length_app. destruct (scanned v); simpl; lia.
Qed.

Lemma scanned_texts_length d :
  List.length (scanned_texts d) <= List.length (columns d) * len d.
Proof.
  unfold scanned_texts.
  assert (H : forall js,
            List.length (flat_map (fun j => texts_of (column_values d j)) js)
            <= List.length js * len d).
  { induction js as [|j js IH]; [reflexivity|].
    simpl. rewrite length_app.
    pose proof (texts_of_length (column_values d j)) as Hj.
    assert (Hc : List.length (column_values d j) = len d)
      by apply length_map.
    simpl in IH. nia. }
  specialize (H (seq 0 (List.length (columns d)))).
  now rewrite length_seq in H.
Qed.

Lemma flat_map_enumerate_fst {A B} (f : nat -> list B) (l : list A) :
  flat_map (fun jc => f (fst jc)) (enumerate l)
  = flat_map f (seq 0 (List.length l)).
Proof.
  unfold enumerate. generalize 0.
  induction l as [|a l IH]; intros k; [reflexivity|].
  simpl. now rewrite IH.
Qed.

(** The world after an analysis that returned. *)
Lemma analyze_dataframe_world np df sample_size wd a wd' :
  analyze_dataframe s np df sample_size threshold entities wd = (Ok a, wd') ->
  exists d sampled,
    select_rows np df sample_size wd = (Ok (d, sampled), wd) /\
    wd' = replay (map CallAnalyze (scanned_texts d)) wd.
Proof.
  intros H. apply analyze_dataframe_ok in H.
  destruct H as [d [sampled [results [Hsel [Hscan ->]]]]].
  exists d, sampled. split; [exact Hsel|].
  apply scan_columns_ok in Hscan. destruct Hscan as [-> _].
  now rewrite (flat_map_enumerate_fst (fun j => texts_of (column_values d j))).
Qed.

(** X9: an analysis sends to the detection engine the text of every cell of
    the analyzed rows that is present and not blank, once, column by column,
    and makes no other call: missing and blank cells reach no engine, the
    anonymizer is not called, and there are at most as many calls as
    analyzed cells. *)
Theorem analyze_dataframe_calls np df sample_size wd a wd' :
  analyze_dataframe s np df sample_size threshold entities wd = (Ok a, wd') ->
  exists d sampled,
    select_rows np df sample_size wd = (Ok (d, sampled), wd) /\
    calls wd' = calls wd ++ map CallAnalyze (scanned_texts d) /\
    wd' = replay (map CallAnalyze (scanned_texts d)) wd /\
    List.length (scanned_texts d) <= total_columns a * analyzed_rows a.
Proof.
  intros H. apply analyze_dataframe_ok in H.
  destruct H as [d [sampled [results [Hsel [Hscan ->]]]]].
  exists d, sampled. split; [exact Hsel|].
  apply scan_columns_ok in Hscan. destruct Hscan as [-> _].
  rewrite (flat_map_enumerate_fst (fun j => texts_of (column_values d j))).
  fold (scanned_texts d). rewrite calls_replay.
  split; [reflexivity|]. split; [reflexivity|].
  cbn [total_columns analyzed_rows].
  apply select_rows_ok in Hsel. destruct Hsel as [_ [<- _]].
  apply scanned_texts_length.
Qed.

Lemma take_length df positions :
  List.length (index df) = List.length (rows df) ->
  Forall (fun p => p < len df) positions ->
  len (take df positions) = List.length positions.
Proof.
  intros Hlen Hall. unfold len, take. cbn [rows]. rewrite length_map.
  induction Hall as [|p ps Hp Hps IH]; [reflexivity|].
  cbn [flat_map]. rewrite length_app, IH.
  unfold len in Hp.
  destruct (nth_error (index df) p) eqn:E1.
  - destruct (nth_error (rows df) p) eqn:E2; [reflexivity|].
    apply nth_error_None in E2. lia.
  - apply nth_error_None in E1. lia.
Qed.

(** X10: when the table has more rows than a positive sample size [n] and
    numpy hands back [n] positions of the table, the analysis is flagged as
    sampled and covers exactly [n] rows, while the row count reported is
    that of the whole table. *)
Theorem analyze_dataframe_sample_rows np df n wd a wd' :
  rectangular df -> (0 < n < Z.of_nat (len df))%Z -> choice_valid np df n ->
  analyze_dataframe s np df (Some n) threshold entities wd = (Ok a, wd') ->
  is_sampled a = true /\ analyzed_rows a = Z.to_nat n /\
  total_rows a = len df.
Proof.
  intros [Hlen _] Hn [Hcl Hcv] H. apply analyze_dataframe_ok in H.
  destruct H as [d [sampled [results [Hsel [_ ->]]]]].
  rewrite select_rows_sampled in Hsel by exact Hn.
  injection Hsel as <- <-.
  cbn [is_sampled analyzed_rows total_rows].
  split; [reflexivity|]. split; [|reflexivity].
  rewrite take_length by assumption. exact Hcl.
Qed.

End CsvAnalysisFacts.

Section CsvAnalysisWitnesses.
Import CSVAnalyzer CSVFacts.

Lemma analyze_dataframe_summary_witness :
  exists a wd',
    Fixture2.contacts_analysis None (fresh_world 0%N) = (Ok a, wd') /\
    total_columns a = 2 /\ total_rows a = 3 /\
    map fst (column_results a) = [lit "id"; lit "email"] /\
    Forall column_summary_ok (map snd (column_results a)) /\
    (is_sampled a = false -> analyzed_rows a = total_rows a).
Proof.
  destruct (Fixture2.contacts_analysis None (fresh_world 0%N)) as [[a|e] wd'] eqn:E;
    [|vm_compute in E; discriminate E].
  exists a, wd'. split; [reflexivity|].
  exact (@analyze_dataframe_summary Fixture.csv_self Fixture.threshold None
           Fixture.numpy Fixture.contacts None (fresh_world 0%N) a wd' E).
Defined.

Lemma analyze_dataframe_calls_witness :
  exists a wd',
    Fixture2.contacts_analysis (Some 2%Z) (fresh_world 0%N) = (Ok a, wd') /\
    exists d sampled,
      select_rows Fixture.numpy Fixture.contacts (Some 2%Z) (fresh_world 0%N)
      = (Ok (d, sampled), fresh_world 0%N) /\
      calls wd' = calls (fresh_world 0%N) ++ map CallAnalyze (scanned_texts d) /\
      wd' = replay (map CallAnalyze (scanned_texts d)) (fresh_world 0%N) /\
      List.length (scanned_texts d) <= total_columns a * analyzed_rows a.
Proof.
  destruct (Fixture2.contacts_analysis (Some 2%Z) (fresh_world 0%N))
    as [[a|e] wd'] eqn:E; [|vm_compute in E; discriminate E].
  exists a, wd'. split; [reflexivity|].
  exact (@analyze_dataframe_calls Fixture.csv_self Fixture.threshold None
           Fixture.numpy Fixture.contacts (Some 2%Z) (fresh_world 0%N) a wd' E).
Defined.

Lemma analyze_dataframe_sample_rows_witness :
  exists a wd',
    Fixture2.contacts_analysis (Some 2%Z) (fresh_world 0%N) = (Ok a, wd') /\
    is_sampled a = true /\ analyzed_rows a = 2 /\ total_rows a = 3.
Proof.
  destruct (Fixture2.contacts_analysis (Some 2%Z) (fresh_world 0%N))
    as [[a|e] wd'] eqn:E; [|vm_compute in E; discriminate E].
  exists a, wd'. split; [reflexivity|].
  refine (@analyze_dataframe_sample_rows Fixture.csv_self Fixture.threshold
            None Fixture.numpy Fixture.contacts 2%Z (fresh_world 0%N) a wd'
            contacts_rectangular _ _ E).
  - split; reflexivity.
  - split; [reflexivity|]. repeat constructor.
Defined.

End CsvAnalysisWitnesses.

(* ================================================================= *)
(** ** The CSV analyzer: redaction *)

Section CsvRedactionFacts.
Import CSVAnalyzer CSVFacts.

Lemma for_each_seq_inv_world {S} (body : nat -> S -> M S)
  (P : nat -> S -> world -> Prop) (n : nat) :
  forall a acc wd accf wdf,
    (forall k x x' w0 w1, a <= k < a + n -> P k x w0 ->
       body k x w0 = (Ok x', w1) -> P (Datatypes.S k) x' w1) ->
    P a acc wd ->
    for_each (seq a n) body acc wd = (Ok accf, wdf) ->
    P (a + n) accf wdf.
Proof.
  induction n as [|n IH]; intros a acc wd accf wdf Hstep Ha Hrun.
  - simpl in Hrun. injection Hrun as <- <-. now rewrite Nat.add_0_r.
  - simpl in Hrun. apply bind_ok in Hrun.
    destruct Hrun as [acc1 [wd1 [Hb Hrest]]].
    replace (a + Datatypes.S n) with (Datatypes.S a + n) by lia.
    eapply IH; [| |exact Hrest].
    + intros k x x' w0 w1 Hk. apply Hstep. lia.
    + eapply Hstep; [|exact Ha|exact Hb]. lia.
Qed.

Variable s : self.
Variable threshold : Q.
Variable entities : option (list pystr).

Lemma redact_cell_cases v v' :
  redact_cell s threshold entities v = Ok v' ->
  v' = v \/
  (scanned v = true /\
   exists t f fs,
     v' = CStr t /\
     cell_findings s threshold entities v = Ok (f :: fs) /\
     anonymize (anonymizer s) (str v) (to_recognizer_results (f :: fs)) = Ok t).
Proof.
  unfold redact_cell, cell_findings, scanned. rewrite guard_blank.
  destruct (notna v); [|intros H; injection H as <-; now left].
  destruct (blank (str v)); [intros H; injection H as <-; now left|].
  cbn [andb negb].
  destruct (analyze _ _ _ _ _) as [results|e]; [|discriminate].
  destruct (to_findings (str v) results) as [|f fs] eqn:Ef;
    [intros H; injection H as <-; now left|].
  destruct (anonymize _ _ _) as [t|e] eqn:Ez; [|discriminate].
  intros H. injection H as <-. right. split; [reflexivity|].
  exists t, f, fs. auto.
Qed.

(** The calls of one turn of the loops. *)
Lemma anonymize_cell_calls j i rs wd rs' wd' :
  anonymize_cell s threshold entities j i rs wd = (Ok rs', wd') ->
  wd' = replay (cell_calls s threshold entities (at_get rs i j)) wd.
Proof.
  unfold anonymize_cell, cell_calls, cell_findings, scanned.
  destruct (notna (at_get rs i j)) eqn:Hn.
  2:{ intros H. now injection H as _ <-. }
  intros H. apply bind_ok in H. destruct H as [found [w1 [Ha Hk]]].
  rewrite analyze_text_run, guard_blank in Ha. cbn [andb].
  destruct (blank (str (at_get rs i j))); cbn [negb].
  - injection Ha as <- <-. now injection Hk as _ <-.
  - destruct (analyze _ _ _ _ _) as [results|e]; [|discriminate].
    injection Ha as <- <-.
    destruct (to_findings _ results) as [|f fs].
    + now injection Hk as _ <-.
    + apply bind_ok in Hk. destruct Hk as [t [w2 [Hz Hr]]].
      unfold call_anonymize in Hz. injection Hz as _ <-.
      unfold lift in Hr. now injection Hr as _ <-.
Qed.

Variable df : DataFrame.
Hypothesis df_rect : rectangular df.

Let nrows := List.length (rows df).
Let ncols := List.length (columns df).
Let progress := CSVAnalyzer.progress s threshold entities df.
Let orig (i j : nat) := at_get (rows df) i j.
Let column_calls (j n : nat) : list call :=
  flat_map (fun i => cell_calls s threshold entities (orig i j)) (seq 0 n).

Lemma inner_loop_calls j rs wd rs' wd' :
  j < ncols ->
  progress (fun _ j' => j' <? j) rs ->
  for_each (seq 0 (List.length (index df)))
    (anonymize_cell s threshold entities j) rs wd = (Ok rs', wd') ->
  progress (fun _ j' => j' <? Datatypes.S j) rs' /\
  wd' = replay (column_calls j nrows) wd.
Proof.
  intros Hj Hp Hrun.
  assert (Hn : List.length (index df) = nrows) by apply df_rect.
  rewrite Hn in Hrun.
  pose (P := fun i rs0 w =>
    progress (fun i' j' => (j' <? j) || ((j' =? j) && (i' <? i))) rs0 /\
    w = replay (column_calls j i) wd).
  assert (Hend : P (0 + nrows) rs' wd').
  { eapply (for_each_seq_inv_world _ P); [| |exact Hrun].
    - intros i x x' w0 w1 Hi [Hpx Hw] Hb.
      pose proof (anonymize_cell_calls _ _ _ _ Hb) as Hcalls.
      apply anonymize_cell_ok in Hb. destruct Hb as [v' [Hv ->]].
      split; [apply (@progress_step s threshold entities df df_rect);
              auto; unfold nrows in *; lia|].
      rewrite Hcalls, Hw. unfold column_calls.
      rewrite seq_S, flat_map_app, replay_app. cbn [flat_map Nat.add].
      rewrite app_nil_r. f_equal. f_equal.
      destruct Hpx as [_ Hc]. specialize (Hc i j (proj2 Hi) Hj).
      replace ((j <? j) || (j =? j) && (i <? i)) with false in Hc; [exact Hc|].
      now rewrite !Nat.ltb_irrefl, andb_false_r.
    - split; [|reflexivity].
      eapply (@progress_ext s threshold entities df); [|exact Hp].
      intros i' j' _ _. simpl. now rewrite andb_false_r, orb_false_r. }
  destruct Hend as [Hpe Hwe]. split; [|exact Hwe].
  eapply (@progress_ext s threshold entities df); [|exact Hpe].
  intros i' j' Hi' _. simpl.
  apply Nat.ltb_lt in Hi'. fold nrows in Hi'. rewrite Hi', andb_true_r.
  destruct (Nat.ltb_spec j' j), (Nat.eqb_spec j' j),
    (Nat.ltb_spec j' (Datatypes.S j)); simpl; auto; lia.
Qed.

(** The world after a redaction that returned. *)
Lemma anonymize_dataframe_world wd df' wd' :
  anonymize_dataframe s df threshold entities wd = (Ok df', wd') ->
  wd' = replay (redaction_calls s threshold entities df) wd.
Proof.
  unfold anonymize_dataframe. intros H.
  apply bind_ok in H. destruct H as [rs [wd1 [Hrun Hret]]].
  injection Hret as _ <-.
  pose (P := fun j rs0 w =>
    progress (fun _ j' => j' <? j) rs0 /\
    w = replay (flat_map (fun j0 => column_calls j0 nrows) (seq 0 j)) wd).
  assert (Hend : P (0 + ncols) rs wd1).
  { eapply (for_each_seq_inv_world _ P); [| |exact Hrun].
    - intros j x x' w0 w1 Hj [Hpx Hw] Hb. cbv beta in Hb.
      destruct (@inner_loop_calls j x w0 x' w1 (proj2 Hj) Hpx Hb) as [Hp' Hw'].
      split; [exact Hp'|].
      rewrite Hw', Hw, seq_S, flat_map_app, replay_app.
      cbn [flat_map Nat.add]. now rewrite app_nil_r.
    - split; [|reflexivity]. split; [reflexivity|].
      intros i j _ _. reflexivity. }
  destruct Hend as [_ Hw]. exact Hw.
Qed.

End CsvRedactionFacts.

Section CsvWorkflowFacts.
Import CSVAnalyzer CSVFacts CSVWorkflow.

Variable s : self.
Variable threshold : Q.
Variable entities : option (list pystr).

(** X11: redaction keeps the missing values where they are and creates
    none: in the frame that [anonymize_dataframe] returns a cell is missing
    exactly when the input cell is, every cell that differs from the input
    cell is a string, and only cells that are present and not blank
    differ. *)
Theorem anonymize_dataframe_keeps_missing df wd df' wd' :
  rectangular df ->
  anonymize_dataframe s df threshold entities wd = (Ok df', wd') ->
  Forall2 (Forall2 cell_change_ok) (rows df) (rows df').
Proof.
  intros Hrect H.
  destruct (@anonymize_dataframe_cells s threshold entities df Hrect wd df' wd' H)
    as [_ [_ Hcells]].
  eapply Forall2_impl; [|exact Hcells].
  intros r r' Hr. eapply Forall2_impl; [|exact Hr].
  intros v v' Hv. apply redact_cell_cases in Hv.
  destruct Hv as [->|[Hs [t [f [fs [-> _]]]]]].
  - split; [reflexivity|now left].
  - split.
    + unfold scanned in Hs. apply andb_true_iff in Hs. now destruct Hs as [-> _].
    + right. split; [exact Hs|]. now exists t.
Qed.

Lemma in_cell_calls v c :
  In c (cell_calls s threshold entities v) ->
  scanned v = true /\
  (c = CallAnalyze (str v) \/
   (c = CallAnonymize (str v) /\
    exists f fs, cell_findings s threshold entities v = Ok (f :: fs))).
Proof.
  unfold cell_calls. destruct (scanned v); [|intros []].
  intros [<-|H]; [split; [reflexivity|now left]|].
  split; [reflexivity|].
  destruct (cell_findings s threshold entities v) as [[|f fs]|e];
    try destruct H as [<-|[]]; try destruct H.
  right. split; [reflexivity|]. eauto.
Qed.

(** X12: a redaction that returns has made, column by column and row by
    row, one call of the detection engine for every cell that is present
    and not blank, followed by one call of the anonymizer exactly when the
    cell has findings; missing and blank cells reach no engine, and the
    anonymizer sees only texts of cells with findings. *)
Theorem anonymize_dataframe_calls df wd df' wd' :
  rectangular df ->
  anonymize_dataframe s df threshold entities wd = (Ok df', wd') ->
  calls wd' = calls wd ++ redaction_calls s threshold entities df /\
  (forall c, In c (redaction_calls s threshold entities df) ->
     exists i j,
       i < List.length (rows df) /\ j < List.length (columns df) /\
       let v := at_get (rows df) i j in
       scanned v = true /\
       (c = CallAnalyze (str v) \/
        (c = CallAnonymize (str v) /\
         exists f fs, cell_findings s threshold entities v = Ok (f :: fs)))) /\
  (forall i j,
     i < List.length (rows df) -> j < List.length (columns df) ->
     scanned (at_get (rows df) i j) = true ->
     In (CallAnalyze (str (at_get (rows df) i j)))
        (redaction_calls s threshold entities df)).
Proof.
  intros Hrect H.
  rewrite (@anonymize_dataframe_world s threshold entities df Hrect wd df' wd' H).
  split; [apply calls_replay|]. split.
  - intros c Hc. unfold redaction_calls in Hc.
    apply in_flat_map in Hc. destruct Hc as [j [Hj Hc]].
    apply in_flat_map in Hc. destruct Hc as [i [Hi Hc]].
    apply in_seq in Hi, Hj. exists i, j.
    split; [lia|]. split; [lia|]. cbv zeta. now apply in_cell_calls.
  - intros i j Hi Hj Hs. unfold redaction_calls.
    apply in_flat_map. exists j. split; [apply in_seq; lia|].
    apply in_flat_map. exists i. split; [apply in_seq; lia|].
    unfold cell_calls. rewrite Hs. now left.
Qed.

Lemma analyze_csv_ok np df anonymize output_path sample_size wd res wd' :
  analyze_csv s np df anonymize output_path sample_size threshold entities wd
  = (Ok res, wd') ->
  exists an w1,
    analyze_dataframe s np df sample_size threshold entities wd = (Ok an, w1) /\
    analysis res = an /\
    columns_with_pii res
    = List.length (filter (fun cr => has_pii (snd cr)) (column_results an)) /\
    total_pii_instances res
    = list_sum (map (fun cr => pii_count (snd cr)) (column_results an)) /\
    if anonymize then
      exists df',
        anonymize_dataframe s df threshold entities w1 = (Ok df', wd') /\
        anonymized_preview res = Some (head10 df') /\
        anonymized_file res
        = option_map (fun path => (path, to_csv df')) (names_file output_path)
    else
      wd' = w1 /\ anonymized_file res = None /\ anonymized_preview res = None.
Proof.
  intros H. unfold analyze_csv in H.
  apply bind_ok in H. destruct H as [an [w1 [Han H]]].
  exists an, w1. split; [exact Han|].
  destruct anonymize.
  - apply bind_ok in H. destruct H as [df' [w2 [Ha H]]].
    injection H as <- <-. cbn. repeat split.
    exists df'. repeat split; auto.
    unfold names_file. destruct output_path as [path|]; [|reflexivity].
    now destruct (truthy path).
  - injection H as <- <-. cbn. repeat split.
Qed.

(** X13: the calls of [analyze_csv] are those of the analysis of the
    selected rows, followed, when redaction is requested, by those of a
    redaction of the whole table; without redaction the anonymizer is not
    called at all. *)
Theorem analyze_csv_calls np df anonymize output_path sample_size wd res wd' :
  rectangular df ->
  analyze_csv s np df anonymize output_path sample_size threshold entities wd
  = (Ok res, wd') ->
  exists d sampled,
    select_rows np df sample_size wd = (Ok (d, sampled), wd) /\
    calls wd'
    = calls wd ++ map CallAnalyze (scanned_texts d) ++
      (if anonymize then redaction_calls s threshold entities df else []).
Proof.
  intros Hrect H. apply analyze_csv_ok in H.
  destruct H as [an [w1 [Han [_ [_ [_ Hrest]]]]]].
  destruct (@analyze_dataframe_world s threshold entities np df sample_size
              wd an w1 Han) as [d [sampled [Hsel Hw]]].
  exists d, sampled. split; [exact Hsel|].
  destruct anonymize.
  - destruct Hrest as [df' [Ha _]].
    rewrite (@anonymize_dataframe_world s threshold entities df Hrect
               w1 df' wd' Ha), Hw.
    now rewrite !calls_replay, <- app_assoc.
  - destruct Hrest as [-> _]. now rewrite Hw, calls_replay, app_nil_r.
Qed.

(** X14: [analyze_csv] writes a file only when redaction is requested and
    the output path is neither absent nor empty, and then writes the
    redacted frame under the columns of the input; whenever redaction is
    requested the preview is the first ten rows of the redacted frame, and
    without redaction there is neither file nor preview. *)
Theorem analyze_csv_output np df anonymize output_path sample_size wd res wd' :
  rectangular df ->
  analyze_csv s np df anonymize output_path sample_size threshold entities wd
  = (Ok res, wd') ->
  if anonymize then
    exists redacted,
      Forall2 (Forall2 (fun v v' => redact_cell s threshold entities v = Ok v'))
              (rows df) redacted /\
      anonymized_file res
      = option_map (fun path => (path, {| header := columns df;
                                          body := redacted |}))
                   (names_file output_path) /\
      option_map rows (anonymized_preview res) = Some (firstn 10 redacted) /\
      option_map columns (anonymized_preview res) = Some (columns df)
  else anonymized_file res = None /\ anonymized_preview res = None.
Proof.
  intros Hrect H. apply analyze_csv_ok in H.
  destruct H as [an [w1 [_ [_ [_ [_ Hrest]]]]]].
  destruct anonymize; [|now destruct Hrest as [_ Hr]].
  destruct Hrest as [df' [Ha [Hp Hf]]].
  destruct (@anonymize_dataframe_cells s threshold entities df Hrect w1 df' wd' Ha)
    as [Hc [_ Hcells]].
  exists (rows df'). split; [exact Hcells|].
  rewrite Hf, Hp. unfold to_csv. rewrite Hc. cbn. repeat split.
  now rewrite Hc.
Qed.

Lemma summary_counts (crs : list (pystr * ColumnResult)) :
  Forall column_summary_ok (map snd crs) ->
  let with_pii := List.length (filter (fun cr => has_pii (snd cr)) crs) in
  let instances := list_sum (map (fun cr => pii_count (snd cr)) crs) in
  with_pii <= List.length crs /\ with_pii <= instances /\
  (with_pii = 0 <-> instances = 0) /\
  instances
  = list_sum (map (fun cr => List.length (all_findings (snd cr))) crs).
Proof.
  cbv zeta. induction crs as [|[k cr] crs IH]; intros H.
  - simpl. repeat split; lia.
  - simpl in H. inversion H as [|? ? Hcr Hrest]; subst.
    destruct (IH Hrest) as [H1 [H2 [H3 H4]]].
    destruct Hcr as [Hcount [Hflag _]].
    cbn [filter map snd List.length].
    change (list_sum (pii_count cr :: map (fun cr0 => pii_count (snd cr0)) crs))
      with (pii_count cr + list_sum (map (fun cr0 => pii_count (snd cr0)) crs)).
    change (list_sum (List.length (all_findings cr)
                      :: map (fun cr0 => List.length (all_findings (snd cr0))) crs))
      with (List.length (all_findings cr)
            + list_sum (map (fun cr0 => List.length (all_findings (snd cr0))) crs)).
    rewrite <- H4, Hcount.
    set (instances := list_sum (map (fun cr0 => pii_count (snd cr0)) crs)) in *.
    set (with_pii := List.length (filter (fun cr0 => has_pii (snd cr0)) crs)) in *.
    destruct (has_pii cr) eqn:Ehas.
    + assert (all_findings cr <> []) by now apply Hflag.
      destruct (all_findings cr) as [|it its]; [congruence|].
      cbn [List.length]. repeat split; lia.
    + assert (Hnil : all_findings cr = []).
      { destruct (all_findings cr); [reflexivity|].
        destruct Hflag as [_ Hf]. assert (false = true) by (apply Hf; discriminate).
        discriminate. }
      rewrite Hnil. cbn [List.length]. repeat split; lia.
Qed.

(** X15: in the result of [analyze_csv] the number of columns with PII is at
    most the number of columns and at most the number of PII instances; it
    is zero exactly when there is no instance; and the number of instances
    is the number of cells with findings over all columns. *)
Theorem analyze_csv_summary np df anonymize output_path sample_size wd res wd' :
  analyze_csv s np df anonymize output_path sample_size threshold entities wd
  = (Ok res, wd') ->
  columns_with_pii res <= total_columns (analysis res) /\
  columns_with_pii res <= total_pii_instances res /\
  (columns_with_pii res = 0 <-> total_pii_instances res = 0) /\
  total_pii_instances res
  = list_sum (map (fun cr => List.length (all_findings (snd cr)))
                  (column_results (analysis res))).
Proof.
  intros H. apply analyze_csv_ok in H.
  destruct H as [an [w1 [Han [-> [-> [-> _]]]]]].
  destruct (@analyze_dataframe_entries s threshold entities np df sample_size
              wd an w1 Han) as [Hcols [Hkeys Hok]].
  destruct (summary_counts _ Hok) as [H1 [H2 [H3 H4]]].
  rewrite Hcols. apply (f_equal (@List.length pystr)) in Hkeys.
  rewrite length_map in Hkeys. rewrite <- Hkeys.
  repeat split; auto; apply H3.
Qed.

End CsvWorkflowFacts.

Section CsvWorkflowWitnesses.
Import CSVAnalyzer CSVFacts CSVWorkflow.

Lemma anonymize_dataframe_keeps_missing_witness :
  exists df' wd',
    anonymize_dataframe Fixture.csv_self Fixture.contacts Fixture.threshold
      None (fresh_world 0%N) = (Ok df', wd') /\
    Forall2 (Forall2 cell_change_ok) (rows Fixture.contacts) (rows df').
Proof.
  destruct (anonymize_dataframe Fixture.csv_self Fixture.contacts
              Fixture.threshold None (fresh_world 0%N))
    as [[df'|e] wd'] eqn:E; [|vm_compute in E; discriminate E].
  exists df', wd'. split; [reflexivity|].
  exact (@anonymize_dataframe_keeps_missing Fixture.csv_self Fixture.threshold
           None Fixture.contacts (fresh_world 0%N) df' wd'
           contacts_rectangular E).
Defined.

Lemma anonymize_dataframe_calls_witness :
  exists df' wd',
    anonymize_dataframe Fixture.csv_self Fixture.contacts Fixture.threshold
      None (fresh_world 0%N) = (Ok df', wd') /\
    calls wd'
    = [ CallAnalyze (lit "1"); CallAnalyze (lit "2"); CallAnalyze (lit "3");
        CallAnalyze (lit "ann@example.com");
        CallAnonymize (lit "ann@example.com");
        CallAnalyze (lit "bob@example.com");
        CallAnonymize (lit "bob@example.com") ].
Proof.
  destruct (anonymize_dataframe Fixture.csv_self Fixture.contacts
              Fixture.threshold None (fresh_world 0%N))
    as [[df'|e] wd'] eqn:E; [|vm_compute in E; discriminate E].
  exists df', wd'. split; [reflexivity|].
  exact (proj1 (@anonymize_dataframe_calls Fixture.csv_self Fixture.threshold
           None Fixture.contacts (fresh_world 0%N) df' wd'
           contacts_rectangular E)).
Defined.

Lemma analyze_csv_calls_witness :
  exists res wd',
    Fixture.contacts_run (fresh_world 0%N) = (Ok res, wd') /\
    exists d sampled,
      select_rows Fixture.numpy Fixture.contacts (Some 2%Z) (fresh_world 0%N)
      = (Ok (d, sampled), fresh_world 0%N) /\
      calls wd'
      = calls (fresh_world 0%N) ++ map CallAnalyze (scanned_texts d) ++
        redaction_calls Fixture.csv_self Fixture.threshold None
          Fixture.contacts.
Proof.
  destruct (Fixture.contacts_run (fresh_world 0%N)) as [[res|e] wd'] eqn:E;
    [|vm_compute in E; discriminate E].
  exists res, wd'. split; [reflexivity|].
  exact (@analyze_csv_calls Fixture.csv_self Fixture.threshold None
           Fixture.numpy Fixture.contacts true (Some (lit "out.csv"))
           (Some 2%Z) (fresh_world 0%N) res wd' contacts_rectangular E).
Defined.

Lemma analyze_csv_output_witness :
  exists res wd',
    analyze_csv Fixture.csv_self Fixture.numpy Fixture.contacts true
      (Some (lit "")) None Fixture.threshold None (fresh_world 0%N)
    = (Ok res, wd') /\
    exists redacted,
      Forall2 (Forall2 (fun v v' =>
                 redact_cell Fixture.csv_self Fixture.threshold None v = Ok v'))
              (rows Fixture.contacts) redacted /\
      anonymized_file res = None /\
      option_map rows (anonymized_preview res) = Some (firstn 10 redacted) /\
      option_map columns (anonymized_preview res)
      = Some (columns Fixture.contacts).
Proof.
  destruct (analyze_csv Fixture.csv_self Fixture.numpy Fixture.contacts true
              (Some (lit "")) None Fixture.threshold None (fresh_world 0%N))
    as [[res|e] wd'] eqn:E; [|vm_compute in E; discriminate E].
  exists res, wd'. split; [reflexivity|].
  exact (@analyze_csv_output Fixture.csv_self Fixture.threshold None
           Fixture.numpy Fixture.contacts true (Some (lit "")) None
           (fresh_world 0%N) res wd' contacts_rectangular E).
Defined.

Lemma analyze_csv_summary_witness :
  exists res wd',
    Fixture.contacts_run (fresh_world 0%N) = (Ok res, wd') /\
    columns_with_pii res <= total_columns (analysis res) /\
    columns_with_pii res <= total_pii_instances res /\
    (columns_with_pii res = 0 <-> total_pii_instances res = 0) /\
    total_pii_instances res
    = list_sum (map (fun cr => List.length (all_findings (snd cr)))
                    (column_results (analysis res))).
Proof.
  destruct (Fixture.contacts_run (fresh_world 0%N)) as [[res|e] wd'] eqn:E;
    [|vm_compute in E; discriminate E].
  exists res, wd'. split; [reflexivity|].
  exact (@analyze_csv_summary Fixture.csv_self Fixture.threshold None
           Fixture.numpy Fixture.contacts true (Some (lit "out.csv"))
           (Some 2%Z) (fresh_world 0%N) res wd' E).
Defined.

End CsvWorkflowWitnesses.

(* ================================================================= *)
(** ** The lock and the loads, several threads *)

Section ThreadsLock.
Import Threads ThreadFacts.

(** A thread inside a [with] block can always take its next step. *)
Lemma holder_steps t load_ok s :
  holds (pcs s t) = true -> step t load_ok s <> None.
Proof.
  unfold step. destruct (pcs s t); try discriminate; intros _;
    try discriminate.
  - destruct (instance_ s); discriminate.
  - destruct (initialized s); discriminate.
  - destruct load_ok; discriminate.
Qed.

(** A thread that cannot step stands at the door of a [with] block that
    another thread is in. *)
Lemma blocked_waits t load_ok s :
  step t load_ok s = None ->
  holds (pcs s t) = false /\ exists t', lock s = Some t'.
Proof.
  unfold step. destruct (pcs s t);
    repeat match goal with
    | |- context [match ?x with _ => _ end] => destruct x eqn:?
    end; try discriminate; intros _; (split; [reflexivity|eauto]).
Qed.

(** X16: the lock of [AnalyzerSingleton] is used soundly under every
    interleaving: at most one thread is inside a [with] block at a time,
    and a thread that has to wait for the lock waits for another thread,
    which is inside a block and can take its next step whatever the outcome
    of a load; so the threads never deadlock. *)
Theorem lock_excludes_and_never_deadlocks (schedule : list (nat * bool)) :
  let s := run schedule init in
  (forall t t', holds (pcs s t) = true -> holds (pcs s t') = true -> t = t') /\
  (forall t load_ok,
     step t load_ok s = None ->
     exists t', t' <> t /\ lock s = Some t' /\ holds (pcs s t') = true /\
                forall load_ok', step t' load_ok' s <> None).
Proof.
  cbv zeta.
  pose proof (invariant_run schedule invariant_init) as Hinv.
  split.
  - intros t t' Ht Ht'.
    apply (@inv_holder _ Hinv) in Ht. apply (@inv_holder _ Hinv) in Ht'.
    congruence.
  - intros t load_ok Hblocked.
    apply blocked_waits in Hblocked. destruct Hblocked as [Hnot [t' Hlock]].
    pose proof (@inv_locked _ Hinv _ Hlock) as Hin.
    exists t'. split; [intros ->; congruence|].
    split; [exact Hlock|]. split; [exact Hin|].
    intros load_ok'. now apply holder_steps.
Qed.

Lemma load_phase_init : load_phase init 0.
Proof.
  constructor; simpl; auto; try discriminate; try contradiction.
Qed.

Lemma phase_at_frame s s' n p :
  initialized s' = initialized s -> phase_at s n p -> phase_at s' n p.
Proof. intros H. unfold phase_at. now rewrite H. Qed.

(** One step keeps the phase, with the count of the loads that succeeded. *)
Lemma load_phase_step t load_ok s s' n :
  invariant s -> load_phase s n -> step t load_ok s = Some s' ->
  load_phase s' (n + successful_loads [(t, load_ok)] s).
Proof.
  intros Hinv Hph Hstep.
  assert (Hexcl : forall t', holds (pcs s t) = true ->
                    holds (pcs s t') = true -> t' = t).
  { intros t' H1 H2. apply (@inv_holder _ Hinv) in H1, H2. congruence. }
  pose proof (@inv_made _ Hinv t) as Hmade.
  cbn [successful_loads]. rewrite Hstep.
  unfold step in Hstep.
  destruct (pcs s t) eqn:Hpc;
    repeat match type of Hstep with
    | context [match ?x with _ => _ end] => destruct x eqn:?
    end;
    try discriminate Hstep;
    injection Hstep as <-;
    rewrite ?Nat.add_0_r; cbn [holds] in Hexcl;
    pose proof (@phase_threads _ _ Hph) as Hth;
    pose proof (@phase_flag _ _ Hph) as Hflag;
    pose proof (@phase_count _ _ Hph) as Hcount;
    pose proof (@phase_global _ _ Hph) as Hglobal;
    pose proof (@phase_returned _ _ Hph) as Hret;
    pose proof (Hth t) as Ht; rewrite Hpc in Ht; cbn [phase_at] in Ht;
    constructor;
    cbn [instance_ initialized global_ lock allocated returned pcs goto
         set_lock create set_initialized set_global record_return].
  all: try exact Hflag; try exact Hglobal; try exact Hret.
  all: try solve
    [ intros t'; destruct (Nat.eq_dec t' t) as [->|Hne];
      [ rewrite upd_same; cbn [phase_at]; eauto
      | rewrite upd_other by exact Hne; exact (Hth t') ] ].
  all: try solve
    [ destruct Hcount as [H0|[H1 [Hi|[t0 [o0 H0]]]]];
      [ now left
      | right; split; [exact H1|now left]
      | right; split; [exact H1|right]; exists t0, o0;
        destruct (Nat.eq_dec t0 t) as [->|Hne];
        [ congruence | now rewrite upd_other by exact Hne ] ] ].
  - exfalso. apply Hmade; [now right | reflexivity].
  - intros t'. destruct (Nat.eq_dec t' t) as [->|Hne];
      [|rewrite upd_other by exact Hne; exact (Hth t')].
    rewrite upd_same. cbn [phase_at].
    destruct Hcount as [H0|[_ [Hi|[t0 [o0 H0]]]]];
      [exact H0 | congruence |].
    assert (t0 = t) by (apply Hexcl; [reflexivity | now rewrite H0]).
    congruence.
  - intros t'. destruct (Nat.eq_dec t' t) as [->|Hne].
    + rewrite upd_same. cbn [phase_at initialized goto]. split; [lia|].
      destruct (initialized s); [|reflexivity].
      specialize (Hflag eq_refl). lia.
    + rewrite upd_other by exact Hne. specialize (Hth t').
      destruct (pcs s t') eqn:Hpc'; cbn [phase_at initialized goto] in *;
        auto; try lia.
      exfalso. apply Hne, Hexcl; [reflexivity | now rewrite Hpc'].
  - intros _. lia.
  - right. split; [lia|]. right. exists t, self. apply upd_same.
  - destruct Ht as [Hn Hi].
    intros t'. destruct (Nat.eq_dec t' t) as [->|Hne].
    + rewrite upd_same. reflexivity.
    + rewrite upd_other by exact Hne. specialize (Hth t').
      destruct (pcs s t') eqn:Hpc';
        cbn [phase_at initialized goto set_initialized] in *; auto; try lia.
      exfalso. apply Hne, Hexcl; [reflexivity | now rewrite Hpc'].
  - intros _. apply Ht.
  - right. split; [apply Ht | now left].
  - reflexivity.
  - reflexivity.
  - intros _ _. exact Ht.
  - intros _ _ _. exact Ht.
Qed.

Lemma load_phase_run schedule s n :
  invariant s -> load_phase s n ->
  load_phase (run schedule s) (n + successful_loads schedule s).
Proof.
  revert s n. induction schedule as [|[t load_ok] rest IH]; intros s n Hinv Hph.
  - simpl. now rewrite Nat.add_0_r.
  - pose proof (@load_phase_step t load_ok s) as Hs.
    cbn [run successful_loads] in *.
    destruct (step t load_ok s) as [s'|] eqn:E.
    + rewrite Nat.add_assoc. apply IH.
      * exact (@invariant_step t load_ok s s' Hinv E).
      * specialize (Hs s' n Hinv Hph eq_refl).
        now rewrite Nat.add_0_r in Hs.
    + now apply IH.
Qed.

(** X17: however the threads interleave and however many loads fail, at
    most one load of the engines succeeds in a process; the class is marked
    initialized only after that load, and neither is the module global set
    nor does any call return before the class is marked initialized. *)
Theorem engines_load_at_most_once (schedule : list (nat * bool)) :
  let s := run schedule init in
  successful_loads schedule init <= 1 /\
  (initialized s = true -> successful_loads schedule init = 1) /\
  (forall o, global_ s = Some o -> initialized s = true) /\
  (forall t r, In (t, r) (returned s) -> initialized s = true).
Proof.
  cbv zeta.
  pose proof (@load_phase_run schedule init 0 invariant_init load_phase_init)
    as Hph.
  cbn [Nat.add] in Hph.
  split; [|split; [|split]].
  - destruct (@phase_count _ _ Hph) as [->|[-> _]]; lia.
  - exact (@phase_flag _ _ Hph).
  - exact (@phase_global _ _ Hph).
  - exact (@phase_returned _ _ Hph).
Qed.


(** In the racing schedule one load fails and one succeeds. *)
Example racing_schedule_loads :
  successful_loads Fixture.racing_schedule init = 1 /\
  initialized (run Fixture.racing_schedule init) = true.
Proof. vm_compute. split; reflexivity. Qed.

End ThreadsLock.

(* ================================================================= *)
(** ** The shared engines, one thread: one load serves every analyzer *)

Section SharedEngines.
Import AnalyzerSingleton SingletonFacts.

Lemma load_engines_calls pr o wd :
  calls (snd (load_engines pr o wd)) = calls wd ++ load_calls pr (loads wd).
Proof.
  unfold load_engines, load_calls, bind, get, modify, lift, setattr_analyzer,
    setattr_anonymizer, call_analyze, ret.
  generalize warmup_text en. intros wt lang.
  cbn [loads set_loads].
  destruct (AnalyzerEngine_new pr (loads wd)) as [a|e]; cbn;
    [|now rewrite app_nil_r].
  destruct (AnonymizerEngine_new pr (loads wd)) as [z|e]; cbn;
    [|now rewrite app_nil_r].
  destruct (analyze a wt lang None None) as [r|e]; reflexivity.
Qed.

Lemma dunder_init_calls pr o wd :
  let out := dunder_init pr o wd in
  calls (snd out)
  = calls wd ++ (if cls_initialized wd then [] else load_calls pr (loads wd)) /\
  loads (snd out) = (if cls_initialized wd then loads wd else S (loads wd)).
Proof.
  cbv zeta. destruct (cls_initialized wd) eqn:Ei.
  - rewrite dunder_init_initialized by exact Ei. cbn.
    now rewrite app_nil_r.
  - pose (hp2 := update_nth
                   (update_nth (heap wd) o (fun inst =>
                      {| analyzer_engine := Some None;
                         anonymizer_engine := anonymizer_engine inst |}))
                   o (fun inst =>
                      {| analyzer_engine := analyzer_engine inst;
                         anonymizer_engine := Some None |})).
    pose (w2 := set_heap hp2 wd).
    assert (Hrun : dunder_init pr o wd
                   = match load_engines pr o w2 with
                     | (Ok _, w3) => (Ok tt, set_cls_initialized true w3)
                     | (Raise e, w3) => (Raise e, w3)
                     end).
    { unfold dunder_init, bind, get, modify, setattr_analyzer,
        setattr_anonymizer.
      unfold w2, hp2. destruct wd as [cs g hp ci init si k].
      cbn -[load_engines update_nth] in *. subst init.
      cbn -[load_engines update_nth].
      destruct (load_engines pr o _) as [[[]|e] w3]; reflexivity. }
    rewrite Hrun.
    pose proof (load_engines_calls pr o w2) as Hc.
    pose proof (load_engines_run pr o w2) as [_ [_ [_ [Hl _]]]].
    replace (loads w2) with (loads wd) in Hc, Hl by now destruct wd.
    replace (calls w2) with (calls wd) in Hc by now destruct wd.
    destruct (load_engines pr o w2) as [[u|e] w3]; cbn [fst snd] in *;
      [destruct w3; cbn in *|]; auto.
Qed.

(** The calls and the loads of one call of [get_analyzer_singleton]. *)
Lemma get_analyzer_singleton_calls pr wd :
  consistent wd ->
  let out := get_analyzer_singleton pr wd in
  calls (snd out)
  = calls wd ++ (if cls_initialized wd then [] else load_calls pr (loads wd)) /\
  loads (snd out) = (if cls_initialized wd then loads wd else S (loads wd)).
Proof.
  intros [_ [Hsing _]]. cbv zeta.
  rewrite get_analyzer_singleton_run.
  destruct (singleton_instance wd) as [o|] eqn:Es.
  - destruct (Hsing o eq_refl) as [_ ->]. cbn. now rewrite app_nil_r.
  - rewrite dunder_new_run.
    set (w1 := match cls_instance wd with
               | Some o => (Ok (Some o), wd)
               | None => _
               end).
    assert (Hw1 : exists o, w1 = (Ok (Some o), snd w1) /\
                  calls (snd w1) = calls wd /\ loads (snd w1) = loads wd /\
                  cls_initialized (snd w1) = cls_initialized wd).
    { unfold w1. destruct (cls_instance wd) as [o|].
      - exists o. cbn. auto.
      - exists (List.length (heap wd)). destruct wd; cbn. auto. }
    destruct Hw1 as [o [Hw1 [Hc1 [Hl1 Hi1]]]]. rewrite Hw1.
    pose proof (dunder_init_calls pr o (snd w1)) as Hinit. cbv zeta in Hinit.
    rewrite Hc1, Hl1, Hi1 in Hinit.
    destruct (dunder_init pr o (snd w1)) as [[u|e] w2]; cbn [fst snd] in *;
      [destruct w2; cbn in *|]; exact Hinit.
Qed.

(** The engines that [shared_engines] hands out. *)
Lemma shared_engines_ok pr wd a z wd' :
  consistent wd ->
  shared_engines pr wd = (Ok (a, z), wd') ->
  exists o,
    get_analyzer_singleton pr wd = (Ok (Some o), wd') /\
    consistent wd' /\ singleton_instance wd' = Some o /\ ready wd' o a z.
Proof.
  intros Hcons H. unfold shared_engines in H.
  apply bind_ok in H. destruct H as [r [w0 [Hget H]]].
  pose proof (get_analyzer_singleton_outcome pr Hcons) as [Hc Hout].
  rewrite Hget in Hc, Hout. cbn [fst snd] in Hc, Hout.
  destruct Hout as [o [a' [z' [-> [Hs [_ [Hr _]]]]]]].
  pose proof Hr as [Hn _].
  unfold bind, analyzer, anonymizer, ret in H. rewrite Hn in H. cbn in H.
  rewrite ?Hn in H. cbn in H. injection H as <- <- <-.
  exists o. auto.
Qed.

(** X18: one load serves every analyzer.  Once an
    [OptimizedPDFAnalyzer] has been constructed, constructing an
    [OptimizedImageAnalyzer] or a further [OptimizedPDFAnalyzer] gives the
    same two engines and changes nothing: no load, no engine call.  The
    first construction itself runs one load with one warm-up call exactly
    when the class was not initialized, and the engine it hands out has
    passed the warm-up. *)
Theorem analyzers_share_one_load pr wd p wd1 :
  consistent wd ->
  OptimizedPDFAnalyzer.init pr wd = (Ok p, wd1) ->
  OptimizedImageAnalyzer.init pr wd1
  = (Ok {| OptimizedImageAnalyzer.analyzer := OptimizedPDFAnalyzer.analyzer p;
           OptimizedImageAnalyzer.anonymizer :=
             OptimizedPDFAnalyzer.anonymizer p |}, wd1) /\
  OptimizedPDFAnalyzer.init pr wd1 = (Ok p, wd1) /\
  loads wd1 = (if cls_initialized wd then loads wd else S (loads wd)) /\
  calls wd1
  = calls wd ++ (if cls_initialized wd then [] else [CallAnalyze warmup_text]) /\
  exists results,
    analyze (OptimizedPDFAnalyzer.analyzer p) warmup_text en None None
    = Ok results.
Proof.
  intros Hcons H. unfold OptimizedPDFAnalyzer.init in H.
  apply bind_ok in H. destruct H as [[a z] [w0 [Hsh H]]].
  injection H as <- <-. cbn [fst snd OptimizedPDFAnalyzer.analyzer
                             OptimizedPDFAnalyzer.anonymizer].
  destruct (@shared_engines_ok pr wd a z w0 Hcons Hsh) as [o [Hget [Hc0 [Hs0 Hr0]]]].
  assert (Hagain : shared_engines pr w0 = (Ok (a, z), w0)).
  { apply (@shared_engines_ready pr w0 o a z w0); [|exact Hr0].
    rewrite get_analyzer_singleton_run, Hs0. reflexivity. }
  split; [|split].
  { unfold OptimizedImageAnalyzer.init.
    erewrite bind_step by exact Hagain. reflexivity. }
  { unfold OptimizedPDFAnalyzer.init.
    erewrite bind_step by exact Hagain. reflexivity. }
  pose proof (get_analyzer_singleton_calls pr Hcons) as Hcalls.
  pose proof (get_analyzer_singleton_outcome pr Hcons) as [_ Hout].
  cbv zeta in Hcalls. rewrite Hget in Hcalls, Hout.
  cbn [fst snd] in Hcalls, Hout.
  destruct Hcalls as [Hc Hl]. split; [exact Hl|]. split; [|apply Hr0].
  rewrite Hc. f_equal.
  destruct (cls_initialized wd) eqn:Ei; [reflexivity|].
  destruct Hout as [o' [a' [z' [_ [_ [_ [_ Hload]]]]]]].
  specialize (Hload eq_refl). unfold load_calls.
  unfold load_outcome in Hload.
  destruct (AnalyzerEngine_new pr (loads wd)); [|discriminate].
  destruct (AnonymizerEngine_new pr (loads wd)); [|discriminate].
  reflexivity.
Qed.

Lemma analyzers_share_one_load_witness :
  exists p wd1,
    OptimizedPDFAnalyzer.init Fixture2.steady_presidio (fresh_world 0%N)
    = (Ok p, wd1) /\
    OptimizedImageAnalyzer.init Fixture2.steady_presidio wd1
    = (Ok Fixture.image_self, wd1) /\
    loads wd1 = 1 /\ calls wd1 = [CallAnalyze warmup_text].
Proof.
  destruct (OptimizedPDFAnalyzer.init Fixture2.steady_presidio
              (fresh_world 0%N)) as [[p|e] wd1] eqn:E;
    [|vm_compute in E; discriminate E].
  exists p, wd1. split; [reflexivity|].
  destruct (@analyzers_share_one_load Fixture2.steady_presidio
              (fresh_world 0%N) p wd1 (consistent_fresh 0%N) E)
    as [Hi [_ [Hl [Hc _]]]].
  vm_compute in E. injection E as <- <-.
  split; [exact Hi|]. split; [exact Hl|exact Hc].
Defined.

End SharedEngines.

(* ================================================================= *)
(** ** The workflows of the PDF and image analyzers *)

Section WorkflowFacts.

(** The dicts of [analyze_text] turn back into the objects they were made
    of. *)
Lemma to_recognizer_results_to_findings text results :
  to_recognizer_results (to_findings text results) = results.
Proof.
  unfold to_recognizer_results, to_findings. rewrite map_map.
  induction results as [|[ty st en sc] results IH]; [reflexivity|].
  simpl. f_equal. exact IH.
Qed.

Lemma to_findings_length text results :
  List.length (to_findings text results) = List.length results.
Proof. apply length_map. Qed.

Lemma nonempty_to_findings text results :
  nonempty (to_findings text results) = nonempty results.
Proof. now destruct results. Qed.

Lemma nonempty_spec {A} (l : list A) : nonempty l = true <-> l <> [].
Proof. destruct l; simpl; split; congruence. Qed.

Lemma ltb_length_nonempty {A} (l : list A) :
  (0 <? List.length l) = nonempty l.
Proof. now destruct l. Qed.

Lemma lstrip_head s c u : lstrip s = c :: u -> isspace c = false.
Proof.
  induction s as [|d s IH]; simpl; [discriminate|].
  destruct (isspace d) eqn:Ed; [exact IH|]. congruence.
Qed.

Lemma blank_strip s : blank (strip s) = blank s.
Proof.
  destruct (blank s) eqn:E.
  - apply strip_nil_iff in E. now rewrite E.
  - destruct (strip s) as [|c u] eqn:Es.
    + apply strip_nil_iff in Es. unfold blank in E. congruence.
    + rewrite <- Es. unfold strip, rstrip, blank in *.
      destruct (lstrip (rev (lstrip s))) as [|d v] eqn:El;
        [discriminate Es|].
      apply lstrip_head in El. simpl. rewrite forallb_app. simpl.
      rewrite El. now rewrite andb_false_r.
Qed.

Lemma text_content_nonempty pages :
  Forall (fun t => t <> []) (PDFWorkflow.text_content pages).
Proof.
  unfold PDFWorkflow.text_content. induction pages as [|[t|] pages IH];
    simpl; auto.
  destruct t; simpl; auto. constructor; [discriminate|exact IH].
Qed.

Lemma text_content_nil pages :
  PDFWorkflow.text_content pages = [] <-> Forall PDFWorkflow.no_text pages.
Proof.
  unfold PDFWorkflow.text_content, PDFWorkflow.no_text.
  induction pages as [|[t|] pages IH]; simpl.
  - split; auto.
  - destruct t as [|c t]; simpl.
    + rewrite IH. split; intros H; [constructor; auto|now inversion H].
    + split; [discriminate|]. intros H. inversion H as [|? ? [Hc|Hc] _]; discriminate.
  - rewrite IH. split; intros H; [constructor; auto|now inversion H].
Qed.

End WorkflowFacts.

Section PdfWorkflowFacts.
Import OptimizedPDFAnalyzer PDFWorkflow PDFMasker.

Variable s : self.
Variable threshold : Q.
Variable entities : option (list pystr).

(** The run of the workflow on a document that opens. *)
Lemma analyze_pdf_run pages pdf_path anon wd :
  let text := join [LF; LF] (text_content pages) in
  let wd1 := log (CallAnalyze text) wd in
  analyze_pdf s (Done pages) pdf_path anon threshold entities wd
  = match analyze (analyzer s) text en entities (Some threshold) with
    | Raise e => (inr (Uncaught e), wd1)
    | Ok results =>
        let result t :=
          {| file_path := pdf_path; original_text := text;
             pii_found := nonempty results;
             pii_count := List.length results;
             pii_findings := to_findings text results;
             anonymized_text := t |} in
        if anon && nonempty results then
          match anonymize (anonymizer s) text results with
          | Ok t => (inl (result (Some t)), log (CallAnonymize text) wd1)
          | Raise e => (inr (Uncaught e), log (CallAnonymize text) wd1)
          end
        else (inl (result None), wd1)
    end.
Proof.
  cbv zeta. unfold analyze_pdf, extract_text_from_pdf.
  set (text := join [LF; LF] (text_content pages)).
  unfold bind at 1.
  pose proof (detect_calls_engine (PDF s) text en threshold entities wd
                eq_refl) as Hd.
  cbn [detect engine_of] in Hd. rewrite Hd. clear Hd.
  destruct (analyze (analyzer s) text en entities (Some threshold))
    as [results|e]; [|reflexivity].
  rewrite nonempty_to_findings, ltb_length_nonempty, nonempty_to_findings,
    to_findings_length.
  destruct anon, results as [|r results]; try reflexivity.
  cbn [andb nonempty]. unfold bind, anonymize_text, call_anonymize, ret.
  change (to_findings text (r :: results))
    with (to_findings text [r] ++ to_findings text results).
  cbn [to_findings map app].
  fold (to_findings text results).
  change (to_recognizer_results (?f :: to_findings text results))
    with (to_recognizer_results (to_findings text (r :: results))).
  rewrite to_recognizer_results_to_findings.
  destruct (anonymize (anonymizer s) text (r :: results)); reflexivity.
Qed.

(** X19: when [analyze_pdf] returns, the text it reports is that of the
    pages that have text, joined by blank lines, and is empty exactly when
    no page has text; the detection engine was called on that text, empty
    or not, and the findings, their count and the flag are those of its
    results.  The anonymized text is present exactly when redaction was
    requested and there are results; it is then what the anonymizer makes
    of the text and of the very results of the engine, and the anonymizer
    is not called otherwise. *)
Theorem analyze_pdf_result pdf pdf_path anon wd r wd' :
  analyze_pdf s pdf pdf_path anon threshold entities wd = (inl r, wd') ->
  exists pages results,
    pdf = Done pages /\
    file_path r = pdf_path /\
    original_text r = join [LF; LF] (text_content pages) /\
    (original_text r = [] <-> Forall no_text pages) /\
    analyze (analyzer s) (original_text r) en entities (Some threshold)
    = Ok results /\
    pii_findings r = to_findings (original_text r) results /\
    pii_count r = List.length results /\
    (pii_found r = true <-> results <> []) /\
    match anonymized_text r with
    | Some t =>
        anon = true /\ results <> [] /\
        anonymize (anonymizer s) (original_text r) results = Ok t /\
        calls wd' = calls wd ++ [CallAnalyze (original_text r);
                                 CallAnonymize (original_text r)]
    | None =>
        (anon = false \/ results = []) /\
        calls wd' = calls wd ++ [CallAnalyze (original_text r)]
    end.
Proof.
  intros H. destruct pdf as [pages|message]; [|discriminate H].
  rewrite analyze_pdf_run in H. cbv zeta in H.
  set (text := join [LF; LF] (text_content pages)) in *.
  assert (Hempty : text = [] <-> Forall no_text pages).
  { rewrite <- text_content_nil. split.
    - intros Ht. destruct (text_content pages) as [|t ts] eqn:E;
        [reflexivity|].
      exfalso. revert Ht. apply join_nonempty; [discriminate|].
      rewrite <- E. apply text_content_nonempty.
    - unfold text. now intros ->. }
  destruct (analyze (analyzer s) text en entities (Some threshold))
    as [results|e] eqn:Ea; [|discriminate H].
  exists pages, results.
  destruct (anon && nonempty results) eqn:Eg.
  - apply andb_true_iff in Eg. destruct Eg as [-> Hne].
    destruct (anonymize (anonymizer s) text results) as [t|e] eqn:Ez;
      [|discriminate H].
    injection H as <- <-. cbn.
    do 3 (split; [reflexivity|]). split; [exact Hempty|].
    split; [exact Ea|]. do 2 (split; [reflexivity|]).
    split; [apply nonempty_spec|].
    split; [reflexivity|]. split; [now apply nonempty_spec|].
    split; [exact Ez|]. now rewrite <- app_assoc.
  - injection H as <- <-. cbn.
    do 3 (split; [reflexivity|]). split; [exact Hempty|].
    split; [exact Ea|]. do 2 (split; [reflexivity|]).
    split; [apply nonempty_spec|].
    split; [|reflexivity].
    apply andb_false_iff in Eg. destruct Eg as [->|Hn]; [now left|right].
    now destruct results.
Qed.

(** X20: [analyze_pdf] fails in three ways only.  When the extraction
    fails it raises an [Exception] whose message is that of the cause
    behind a fixed prefix, and no engine has been called.  Otherwise it
    passes on the exception of the detection engine, or, when redaction
    was requested and there are results, that of the anonymizer. *)
Theorem analyze_pdf_failure pdf pdf_path anon wd f wd' :
  analyze_pdf s pdf pdf_path anon threshold entities wd = (inr f, wd') <->
  (exists message,
     pdf = Failed message /\
     f = Exception ("Error extracting text from PDF: " ++ message) /\
     wd' = wd) \/
  (exists pages e,
     pdf = Done pages /\ f = Uncaught e /\
     let text := join [LF; LF] (text_content pages) in
     (analyze (analyzer s) text en entities (Some threshold) = Raise e /\
      wd' = log (CallAnalyze text) wd) \/
     (exists results,
        analyze (analyzer s) text en entities (Some threshold) = Ok results /\
        anon = true /\ results <> [] /\
        anonymize (anonymizer s) text results = Raise e /\
        wd' = log (CallAnonymize text) (log (CallAnalyze text) wd))).
Proof.
  destruct pdf as [pages|message].
  - rewrite analyze_pdf_run. cbv zeta.
    set (text := join [LF; LF] (text_content pages)).
    split.
    + intros H. right.
      destruct (analyze (analyzer s) text en entities (Some threshold))
        as [results|e] eqn:Ea.
      * destruct (anon && nonempty results) eqn:Eg; [|discriminate H].
        apply andb_true_iff in Eg. destruct Eg as [-> Hne].
        destruct (anonymize (anonymizer s) text results) as [t|e] eqn:Ez;
          [discriminate H|].
        injection H as <- <-. exists pages, e.
        split; [reflexivity|]. split; [reflexivity|]. right.
        exists results. repeat split; auto. now apply nonempty_spec.
      * injection H as <- <-. exists pages, e.
        split; [reflexivity|]. split; [reflexivity|]. now left.
    + intros [[message [H _]]|[pages' [e [Hp [-> H]]]]]; [discriminate H|].
      injection Hp as <-. fold text in H.
      destruct H as [[Ha ->]|[results [Ha [-> [Hne [Hz ->]]]]]].
      * now rewrite Ha.
      * rewrite Ha. apply nonempty_spec in Hne. rewrite Hne. cbn [andb].
        now rewrite Hz.
  - cbn. split.
    + intros H. injection H as <- <-. left. exists message. auto.
    + intros [[message' [Hm [-> ->]]]|[pages [e [H _]]]]; [|discriminate H].
      now injection Hm as <-.
Qed.

End PdfWorkflowFacts.

Section PdfWorkflowWitnesses.
Import OptimizedPDFAnalyzer PDFWorkflow PDFMasker.

Lemma analyze_pdf_result_witness :
  exists r wd',
    analyze_pdf Fixture2.pdf_self Fixture2.three_pages (lit "in.pdf") true
      Fixture.threshold None (fresh_world 0%N) = (inl r, wd') /\
    original_text r
    = Fixture.contact_line ++ [LF; LF] ++ lit "Page three" /\
    pii_count r = 1 /\
    anonymized_text r = Some (lit "<EMAIL_ADDRESS>").
Proof.
  destruct (analyze_pdf Fixture2.pdf_self Fixture2.three_pages (lit "in.pdf")
              true Fixture.threshold None (fresh_world 0%N))
    as [[r|f] wd'] eqn:E; [|vm_compute in E; discriminate E].
  exists r, wd'. split; [reflexivity|].
  destruct (@analyze_pdf_result Fixture2.pdf_self Fixture.threshold None
              Fixture2.three_pages (lit "in.pdf") true (fresh_world 0%N)
              r wd' E) as [pages [results [Hp [_ [Ht _]]]]].
  injection Hp as <-.
  vm_compute in E. injection E as <- <-.
  split; [exact Ht|]. split; reflexivity.
Defined.

End PdfWorkflowWitnesses.

Section ImageWorkflowFacts.
Import OptimizedImageAnalyzer ImageWorkflow.

Variable s : self.
Variable threshold : Q.
Variable entities : option (list pystr).

(** The run of the workflow on a picture that Tesseract can read. *)
Lemma analyze_image_run opened raw image_path anon wd :
  let text := strip raw in
  let wd1 := log (CallAnalyze text) wd in
  let result results t :=
    {| file_path := image_path; image_info := get_image_info opened;
       extracted_text := text;
       pii_found := nonempty results;
       pii_count := List.length results;
       pii_findings := to_findings text results;
       anonymized_text := t |} in
  analyze_image s opened (Done raw) image_path anon threshold entities wd
  = if blank raw then (inl (result [] None), wd)
    else
      match analyze (analyzer s) text en entities (Some threshold) with
      | Raise e => (inr (Uncaught e), wd1)
      | Ok results =>
          if anon && nonempty results then
            match anonymize (anonymizer s) text results with
            | Ok t => (inl (result results (Some t)),
                       log (CallAnonymize text) wd1)
            | Raise e => (inr (Uncaught e), log (CallAnonymize text) wd1)
            end
          else (inl (result results None), wd1)
      end.
Proof.
  cbv zeta. unfold analyze_image, extract_text_from_image.
  set (text := strip raw). unfold bind at 1.
  destruct (blank raw) eqn:Eb.
  - rewrite image_analyze_text_blank
      by (unfold text; now rewrite blank_strip).
    cbn. now rewrite andb_false_r.
  - pose proof (detect_calls_engine (Image s) text en threshold entities wd)
      as Hd.
    cbn [detect engine_of] in Hd. rewrite Hd
      by (unfold text; now rewrite blank_strip, Eb).
    clear Hd.
    destruct (analyze (analyzer s) text en entities (Some threshold))
      as [results|e]; [|reflexivity].
    rewrite nonempty_to_findings, ltb_length_nonempty, nonempty_to_findings,
      to_findings_length.
    destruct anon, results as [|r results]; try reflexivity.
    cbn [andb nonempty]. unfold bind, anonymize_text, call_anonymize, ret.
    change (to_findings text (r :: results))
      with (to_findings text [r] ++ to_findings text results).
    cbn [to_findings map app].
    fold (to_findings text results).
    change (to_recognizer_results (?f :: to_findings text results))
      with (to_recognizer_results (to_findings text (r :: results))).
    rewrite to_recognizer_results_to_findings.
    destruct (anonymize (anonymizer s) text (r :: results)); reflexivity.
Qed.

(** X21: when [analyze_image] returns, the text it reports is what
    Tesseract read, stripped, and the image information is reported
    whether or not the picture could be opened for it.  When that text is
    empty no engine is called and nothing is found, whatever was
    requested.  Otherwise the detection engine was called once on the
    stripped text and the findings, their count and the flag are those of
    its results; the anonymized text is present exactly when redaction was
    requested and there are results, and is what the anonymizer makes of
    the text and of the very results of the engine. *)
Theorem analyze_image_result opened ocr image_path anon wd r wd' :
  analyze_image s opened ocr image_path anon threshold entities wd
  = (inl r, wd') ->
  exists raw,
    ocr = Done raw /\
    file_path r = image_path /\
    image_info r = get_image_info opened /\
    extracted_text r = strip raw /\
    if blank raw then
      extracted_text r = [] /\ wd' = wd /\ pii_findings r = [] /\
      pii_count r = 0 /\ pii_found r = false /\ anonymized_text r = None
    else
      exists results,
        analyze (analyzer s) (strip raw) en entities (Some threshold)
        = Ok results /\
        pii_findings r = to_findings (strip raw) results /\
        pii_count r = List.length results /\
        (pii_found r = true <-> results <> []) /\
        match anonymized_text r with
        | Some t =>
            anon = true /\ results <> [] /\
            anonymize (anonymizer s) (strip raw) results = Ok t /\
            calls wd' = calls wd ++ [CallAnalyze (strip raw);
                                     CallAnonymize (strip raw)]
        | None =>
            (anon = false \/ results = []) /\
            calls wd' = calls wd ++ [CallAnalyze (strip raw)]
        end.
Proof.
  intros H. destruct ocr as [raw|message]; [|discriminate H].
  rewrite analyze_image_run in H. cbv zeta in H.
  exists raw. split; [reflexivity|].
  destruct (blank raw) eqn:Eb.
  - injection H as <- <-. cbn. repeat split.
    now apply strip_nil_iff.
  - destruct (analyze (analyzer s) (strip raw) en entities (Some threshold))
      as [results|e] eqn:Ea; [|discriminate H].
    destruct (anon && nonempty results) eqn:Eg.
    + apply andb_true_iff in Eg. destruct Eg as [-> Hne].
      destruct (anonymize (anonymizer s) (strip raw) results) as [t|e] eqn:Ez;
        [|discriminate H].
      injection H as <- <-. cbn. do 3 (split; [reflexivity|]).
      exists results. do 3 (split; [reflexivity|]).
      split; [apply nonempty_spec|].
      split; [reflexivity|]. split; [now apply nonempty_spec|].
      split; [exact Ez|]. now rewrite <- app_assoc.
    + injection H as <- <-. cbn. repeat (split; [reflexivity|]).
      exists results. do 3 (split; [reflexivity|]).
      split; [apply nonempty_spec|].
      split; [|reflexivity].
      apply andb_false_iff in Eg. destruct Eg as [->|Hn]; [now left|right].
      now destruct results.
Qed.

(** X22: [analyze_image] fails in three ways only.  When the text
    extraction fails it raises an [Exception] whose message is that of the
    cause behind a fixed prefix, and no engine has been called.  Otherwise
    it fails only on a text that is not blank, and passes on the exception
    of the detection engine, or, when redaction was requested and there
    are results, that of the anonymizer.  A picture that cannot be opened
    for its information does not make the workflow fail. *)
Theorem analyze_image_failure opened ocr image_path anon wd f wd' :
  analyze_image s opened ocr image_path anon threshold entities wd
  = (inr f, wd') <->
  (exists message,
     ocr = Failed message /\
     f = Exception ("Error extracting text from image: " ++ message) /\
     wd' = wd) \/
  (exists raw e,
     ocr = Done raw /\ blank raw = false /\ f = Uncaught e /\
     let text := strip raw in
     (analyze (analyzer s) text en entities (Some threshold) = Raise e /\
      wd' = log (CallAnalyze text) wd) \/
     (exists results,
        analyze (analyzer s) text en entities (Some threshold) = Ok results /\
        anon = true /\ results <> [] /\
        anonymize (anonymizer s) text results = Raise e /\
        wd' = log (CallAnonymize text) (log (CallAnalyze text) wd))).
Proof.
  destruct ocr as [raw|message].
  - rewrite analyze_image_run. cbv zeta.
    set (text := strip raw).
    split.
    + intros H. right.
      destruct (blank raw) eqn:Eb; [discriminate H|].
      destruct (analyze (analyzer s) text en entities (Some threshold))
        as [results|e] eqn:Ea.
      * destruct (anon && nonempty results) eqn:Eg; [|discriminate H].
        apply andb_true_iff in Eg. destruct Eg as [-> Hne].
        destruct (anonymize (anonymizer s) text results) as [t|e] eqn:Ez;
          [discriminate H|].
        injection H as <- <-. exists raw, e.
        split; [reflexivity|]. split; [exact Eb|].
        split; [reflexivity|]. right.
        exists results. repeat split; auto. now apply nonempty_spec.
      * injection H as <- <-. exists raw, e.
        split; [reflexivity|]. split; [exact Eb|].
        split; [reflexivity|]. now left.
    + intros [[message [H _]]|[raw' [e [Hp [Hb [-> H]]]]]]; [discriminate H|].
      injection Hp as <-. rewrite Hb. fold text in H.
      destruct H as [[Ha ->]|[results [Ha [-> [Hne [Hz ->]]]]]].
      * now rewrite Ha.
      * rewrite Ha. apply nonempty_spec in Hne. rewrite Hne. cbn [andb].
        now rewrite Hz.
  - cbn. split.
    + intros H. injection H as <- <-. left. exists message. auto.
    + intros [[message' [Hm [-> ->]]]|[raw [e [H _]]]]; [|discriminate H].
      now injection Hm as <-.
Qed.

End ImageWorkflowFacts.

Section ImageWorkflowWitnesses.
Import OptimizedImageAnalyzer ImageWorkflow.

Lemma analyze_image_result_witness :
  exists r wd',
    analyze_image Fixture.image_self Fixture2.picture Fixture2.picture_ocr
      (lit "in.png") true Fixture.threshold None (fresh_world 0%N)
    = (inl r, wd') /\
    extracted_text r = Fixture.contact_line /\
    pii_findings r = [Fixture.john_finding] /\
    anonymized_text r = Some (lit "<EMAIL_ADDRESS>").
Proof.
  destruct (analyze_image Fixture.image_self Fixture2.picture
              Fixture2.picture_ocr (lit "in.png") true Fixture.threshold None
              (fresh_world 0%N))
    as [[r|f] wd'] eqn:E; [|vm_compute in E; discriminate E].
  exists r, wd'. split; [reflexivity|].
  destruct (@analyze_image_result Fixture.image_self Fixture.threshold None
              Fixture2.picture Fixture2.picture_ocr (lit "in.png") true
              (fresh_world 0%N) r wd' E) as [raw [Hp [_ [_ [Ht _]]]]].
  injection Hp as <-.
  vm_compute in E. injection E as <- <-.
  split; [exact Ht|]. split; reflexivity.
Defined.

End ImageWorkflowWitnesses.
